(** * File Copy Assistant: the copy orchestration engine

    A shallow embedding of [src/managers/file_manager.py],
    [src/managers/settings_manager.py], [src/managers/copy_manager.py],
    [src/utils/prompts.py] and [main.py], followed by the properties of the
    fingerprinter, the priority routing, the transfer ledger and the
    destination collision policy.

    Conventions of the embedding:
    - a path is the list of its components, root first;
    - a Python [set] of strings is a [gset string], a [dict] keyed by
      extension is an association list in insertion order;
    - side effects go through the monad [M]: a store that survives an
      exception, as the effects of a Python program do;
    - [print] calls are left out, and so are the desktop notifications of
      the engine: they neither read nor write the store. The notifications
      are added in a section of their own;
    - [state.json] lives in the program's own directory: its content is a
      field of the store, and no path of the file system stands for it. *)

From Stdlib Require Import ZArith Ascii String List Lia Bool.
From stdpp Require Import base option list gmap sets strings.
Import ListNotations.

Local Open Scope string_scope.
Local Open Scope Z_scope.

#[local] Set Warnings "-clear-no-such-hyp".

(* ===================================================================== *)
(** ** Python strings *)
(* ===================================================================== *)

Module PyStr.

(** [str.lower] and [str.upper], on the ASCII range. *)
Definition lower_char (c : ascii) : ascii :=
  let n := nat_of_ascii c in
  if (Nat.leb 65 n && Nat.leb n 90)%bool then ascii_of_nat (n + 32) else c.

Definition upper_char (c : ascii) : ascii :=
  let n := nat_of_ascii c in
  if (Nat.leb 97 n && Nat.leb n 122)%bool then ascii_of_nat (n - 32) else c.

Fixpoint lower (s : string) : string :=
  match s with
  | EmptyString => EmptyString
  | String c s' => String (lower_char c) (lower s')
  end.

Fixpoint upper (s : string) : string :=
  match s with
  | EmptyString => EmptyString
  | String c s' => String (upper_char c) (upper s')
  end.

(** [s[1:]] *)
Definition drop_first (s : string) : string :=
  match s with
  | EmptyString => EmptyString
  | String _ s' => s'
  end.

(** [s[:-1]] *)
Fixpoint drop_last (s : string) : string :=
  match s with
  | EmptyString => EmptyString
  | String c EmptyString => EmptyString
  | String c s' => String c (drop_last s')
  end.

(** [s.rfind('.')], counted from position [i] of the whole string. *)
Fixpoint rfind_dot (s : string) (i : nat) : option nat :=
  match s with
  | EmptyString => None
  | String c s' =>
      match rfind_dot s' (S i) with
      | Some j => Some j
      | None => if Ascii.eqb c "." then Some i else None
      end
  end.

(** [s[:i]] and [s[i:]] *)
Fixpoint take (i : nat) (s : string) : string :=
  match i, s with
  | S k, String c s' => String c (take k s')
  | _, _ => EmptyString
  end.

Fixpoint drop (i : nat) (s : string) : string :=
  match i, s with
  | S k, String _ s' => drop k s'
  | _, _ => s
  end.

End PyStr.

(* ===================================================================== *)
(** ** pathlib *)
(* ===================================================================== *)

Abbreviation path := (list string).

Module PyPath.

(** [Path.name]: the final component. *)
Definition name (p : path) : string := List.last p "".

(** [Path.suffix] and [Path.stem]: split at the last dot of the name, when
    that dot is neither the first nor the last character. *)
Definition suffix_of_name (n : string) : string :=
  match PyStr.rfind_dot n 0 with
  | Some i =>
      if (Nat.ltb 0 i && Nat.ltb i (String.length n - 1))%bool
      then PyStr.drop i n else ""
  | None => ""
  end.

Definition stem_of_name (n : string) : string :=
  match PyStr.rfind_dot n 0 with
  | Some i =>
      if (Nat.ltb 0 i && Nat.ltb i (String.length n - 1))%bool
      then PyStr.take i n else n
  | None => n
  end.

Definition suffix (p : path) : string := suffix_of_name (name p).
Definition stem (p : path) : string := stem_of_name (name p).

(** [p / child] *)
Definition join (p : path) (child : string) : path := p ++ [child].

(** [p.with_name(n)] *)
Definition with_name (p : path) (n : string) : path := removelast p ++ [n].

End PyPath.

(* ===================================================================== *)
(** ** The fingerprinter: [FileManager.get_checksum] *)
(* ===================================================================== *)

Inductive exn :=
| OSError      (* stat, open, seek or mkdir refused by the system *)
| KeyError     (* a dict indexed by a key it does not hold *)
| TypeError.   (* a call that does not fit the callee's parameters *)

(** An open binary file: its bytes and the read position. *)
Record handle := Handle { h_data : list Byte.byte; h_pos : nat }.

Definition h_open (data : list Byte.byte) : handle := Handle data 0.

(** [f.read()] *)
Definition h_read_all (h : handle) : list Byte.byte * handle :=
  (skipn (h_pos h) (h_data h), Handle (h_data h) (length (h_data h))).

(** [f.read(n)] *)
Definition h_read (n : Z) (h : handle) : list Byte.byte * handle :=
  let chunk := firstn (Z.to_nat n) (skipn (h_pos h) (h_data h)) in
  (chunk, Handle (h_data h) (h_pos h + length chunk)).

(** [f.seek(off, SEEK_END)]: a position before the start of the file is
    refused. *)
Definition h_seek_end (off : Z) (h : handle) : exn + handle :=
  let target := Z.of_nat (length (h_data h)) + off in
  if target <? 0 then inl OSError
  else inr (Handle (h_data h) (Z.to_nat target)).

(** The 16 lower-case hexadecimal digits of a 64-bit digest. *)
Definition hex_char (d : Z) : ascii :=
  nth (Z.to_nat d)
    (list_ascii_of_string "0123456789abcdef") "0"%char.

Fixpoint hex_fixed (n : nat) (v : Z) : string :=
  match n with
  | O => ""
  | S k => hex_fixed k (v / 16) +:+ String (hex_char (v mod 16)) ""
  end.

Definition hexdigest (v : Z) : string := hex_fixed 16 (v mod 2 ^ 64).

(* ===================================================================== *)
(** ** The store: file system, state file, the session's [copied] set *)
(* ===================================================================== *)

(** A node of the file system. A file records whether it can be opened
    for reading. *)
Inductive node :=
| Dir
| File (readable : bool) (data : list Byte.byte).

(** The content of [state.json]. [Malformed] is a content that [json.load]
    rejects with a [JSONDecodeError]; [JsonList] is a JSON list of strings,
    which is what [save_state] and [create_state_file] write. Any other
    content is outside the embedding: JSON that is not a list of strings,
    on which [set(data)] raises a [TypeError] or yields a set of other
    things, and bytes that do not decode. So is a state file that the
    system does not let the program read or write. *)
Inductive json_file :=
| Absent
| Malformed
| JsonList (items : list string).

Inductive event :=
| Copied (src target : path)     (* [copy2] wrote [target] *)
| CopyFailed (src dst : path)    (* [copy2] raised, [copy_file] caught it *)
| Saved (items : list string).   (* [save_state] wrote [state.json] *)

(** [copied] is one Python set object: [main] creates it and every callee
    mutates it in place, so it lives in the store. [denied] holds the
    destinations the system refuses to write. [trace] lists the copies and
    saves, latest first. *)
Record world := World {
  fs : gmap path node;
  denied : gset path;
  state_json : json_file;
  copied : gset string;
  trace : list event
}.

Definition set_fs (f : gmap path node) (w : world) : world :=
  World f (denied w) (state_json w) (copied w) (trace w).
Definition set_state_json (j : json_file) (w : world) : world :=
  World (fs w) (denied w) j (copied w) (trace w).
Definition set_copied (c : gset string) (w : world) : world :=
  World (fs w) (denied w) (state_json w) c (trace w).
Definition log (e : event) (w : world) : world :=
  World (fs w) (denied w) (state_json w) (copied w) (e :: trace w).

(** Computations: a result or an exception, and the store either way. *)
Definition M (A : Type) : Type := world -> (exn + A) * world.

Definition ret {A} (a : A) : M A := fun w => (inr a, w).
Definition raise {A} (e : exn) : M A := fun w => (inl e, w).
Definition bind {A B} (m : M A) (k : A -> M B) : M B :=
  fun w => match m w with
           | (inr a, w') => k a w'
           | (inl e, w') => (inl e, w')
           end.
(** [try: m except Exception: h] *)
Definition try_except {A} (m : M A) (h : exn -> M A) : M A :=
  fun w => match m w with
           | (inr a, w') => (inr a, w')
           | (inl e, w') => h e w'
           end.
Definition gets {A} (f : world -> A) : M A := fun w => (inr (f w), w).
Definition modify (f : world -> world) : M unit := fun w => (inr tt, f w).

Declare Scope py_scope.
Notation "'let*' x := m 'in' k" := (bind m (fun x => k))
  (at level 10, x name, m at level 200, k at level 200) : py_scope.
Notation "'exec' m 'in' k" := (bind m (fun _ => k))
  (at level 10, m at level 200, k at level 200) : py_scope.
Local Open Scope py_scope.

(** [for x in xs: body], threading the loop variables [acc]. *)
Fixpoint for_each {A S} (xs : list A) (body : A -> S -> M S) (acc : S) : M S :=
  match xs with
  | [] => ret acc
  | x :: xs' => let* acc' := body x acc in for_each xs' body acc'
  end.

(* ===================================================================== *)
(** ** [FileManager] *)
(* ===================================================================== *)

(** [Path.exists]. A [stat] the system refuses for lack of permission,
    which [exists] lets through as an exception, is outside the
    embedding. *)
Definition exists_ (p : path) : M bool :=
  gets (fun w => bool_decide (is_Some (fs w !! p))).

(** Where [copy2(src, dst)] writes: into [dst] when it is a directory,
    under the source's name; at [dst] otherwise. *)
Definition copy2_target (f : gmap path node) (src dst : path) : path :=
  match f !! dst with
  | Some Dir => PyPath.join dst (PyPath.name src)
  | _ => dst
  end.

(** [copy2(src, dst)]: needs a readable source file and a target the
    system lets it write; an existing file at the target is overwritten, a
    new file needs its directory to exist. A copy of a file onto itself,
    which [copy2] refuses, is written here as a copy that changes no
    entry. *)
Definition copy2 (src dst : path) : M unit :=
  fun w =>
    match fs w !! src with
    | Some (File true data) =>
        let target := copy2_target (fs w) src dst in
        let written :=
          log (Copied src target)
              (set_fs (<[target := File true data]> (fs w)) w) in
        if bool_decide (target ∈ denied w) then (inl OSError, w)
        else match fs w !! target with
             | Some (File _ _) => (inr tt, written)
             | Some Dir => (inl OSError, w)
             | None =>
                 match fs w !! removelast target with
                 | Some Dir => (inr tt, written)
                 | _ => (inl OSError, w)
                 end
             end
    | _ => (inl OSError, w)
    end.

(** The name [copy_file] falls back to:
    [p.with_name(f"{p.stem}_copy{p.suffix}")]. *)
Definition copy_name (p : path) : path :=
  PyPath.with_name p (PyPath.stem p +:+ "_copy" +:+ PyPath.suffix p).

(** [FileManager.copy_file] *)
Definition copy_file (old_file_path new_file_path : path) : M unit :=
  let* e := exists_ new_file_path in
  let new_file_path := if e then copy_name new_file_path else new_file_path in
  try_except
    (copy2 old_file_path new_file_path)
    (fun _ => modify (log (CopyFailed old_file_path new_file_path))).

(** [FileManager.get_file_size]: [stat] of a name that [os.walk] listed as
    a file. *)
Definition get_file_size (file_path : path) : M Z :=
  fun w => match fs w !! file_path with
           | Some (File _ data) => (inr (Z.of_nat (length data)), w)
           | _ => (inl OSError, w)
           end.

(** [Path.mkdir(parents=True)]: creates the missing ancestors, then the
    directory; an ancestor that is a file is an error. *)
Fixpoint mkdir_parents (prefix rest : path) (f : gmap path node)
  : exn + gmap path node :=
  match rest with
  | [] => inr f
  | c :: rest' =>
      let p := (prefix ++ [c])%list in
      match f !! p with
      | Some (File _ _) => inl OSError
      | Some Dir => mkdir_parents p rest' f
      | None => mkdir_parents p rest' (<[p := Dir]> f)
      end
  end.

Definition mkdir (directory : path) : M unit :=
  fun w => match mkdir_parents [] directory (fs w) with
           | inl e => (inl e, w)
           | inr f => (inr tt, set_fs f w)
           end.

(** [FileManager.create_directory_or_file], called with two arguments. *)
Definition create_directory_or_file (output_dir : path) (path_name1 : string)
  : M path :=
  let directory := PyPath.join output_dir path_name1 in
  let* e := exists_ directory in
  exec (if e then ret tt else mkdir directory) in
  ret directory.


(* ===================================================================== *)
(** ** [SettingsManager] *)
(* ===================================================================== *)

(** The fields of [settings.json] the engine reads. *)
Record settings := Settings {
  prioritized_file_extensions : list string;
  disabled_file_extensions : list string;
  default_output_dir : path;
  copy_only_priority : bool;
  skip_prompts : bool;
  enable_priority : bool
}.

(** [SettingsManager.is_extension_valid] *)
Definition is_extension_valid (extension : string) : bool :=
  (Nat.ltb 1 (String.length extension)
   && match extension with
      | String c _ => Ascii.eqb c "."
      | EmptyString => false
      end)%bool.

(** [SettingsManager.get_priority_list]: the loop, with [seen] and
    [priority_list] as loop variables. *)
Fixpoint priority_loop (raw : list string) (seen : gset string)
    (priority_list : list string) : list string :=
  match raw with
  | [] => priority_list
  | extension :: raw' =>
      let extension := PyStr.lower extension in
      if (is_extension_valid extension
          && negb (bool_decide (extension ∈ seen)))%bool
      then priority_loop raw' ({[extension]} ∪ seen)
             (priority_list ++ [extension])
      else priority_loop raw' seen priority_list
  end.

Definition get_priority_list (cfg : settings) : list string :=
  priority_loop (prioritized_file_extensions cfg) ∅ [].

(** [self.disabled_extensions] *)
Definition disabled_extensions (cfg : settings) : gset string :=
  list_to_set (map PyStr.lower (disabled_file_extensions cfg)).

(** [SettingsManager.create_state_file] *)
Definition create_state_file : M (gset string) :=
  exec modify (set_state_json (JsonList [])) in
  ret ∅.

(** [SettingsManager.get_copied] *)
Definition get_copied : M (gset string) :=
  let* j := gets state_json in
  match j with
  | JsonList data => ret (list_to_set data)
  | Malformed => create_state_file
  | Absent => create_state_file
  end.

(** [SettingsManager.save_state] *)
Definition save_state (state : gset string) : M unit :=
  let items := elements state in
  exec modify (set_state_json (JsonList items)) in
  modify (log (Saved items)).

(* ===================================================================== *)
(** ** Buckets *)
(* ===================================================================== *)

(** A pending file record: [(checksum, old_file_path, file_size)]. *)
Definition pending : Type := string * path * Z.

(** [bucket.add(x)] on a Python set, kept in insertion order. A set
    iterates in an order of its own; the model takes insertion order. *)
Definition set_add {A} `{EqDecision A} (x : A) (bucket : list A) : list A :=
  if bool_decide (x ∈ bucket) then bucket else (bucket ++ [x])%list.

Definition bucket_add (rec : pending) (bucket : list pending) : list pending :=
  set_add rec bucket.

(** A dict from extension to bucket, in insertion order. *)
Definition buckets : Type := list (string * list pending).

Fixpoint dict_get (k : string) (d : buckets) : option (list pending) :=
  match d with
  | [] => None
  | (k', v) :: d' => if String.eqb k k' then Some v else dict_get k d'
  end.

(** [d[k] = v]: an existing key keeps its position. *)
Fixpoint dict_set (k : string) (v : list pending) (d : buckets) : buckets :=
  match d with
  | [] => [(k, v)]
  | (k', v') :: d' =>
      if String.eqb k k' then (k', v) :: d' else (k', v') :: dict_set k v d'
  end.

(** [{priority: set() for priority in keys}] *)
Definition empty_buckets (keys : list string) : buckets :=
  fold_left (fun d k => dict_set k [] d) keys [].

Section Engine.

(** The xxHash library is not part of the repository: [xxh64] stands for
    the 64-bit digest of a byte sequence. A streaming hasher digests the
    concatenation of its updates, so a hasher is the bytes fed so far. *)
Variable xxh64 : list Byte.byte -> Z.

Definition hasher := list Byte.byte.
Definition h_new : hasher := [].
Definition h_update (h : hasher) (chunk : list Byte.byte) : hasher :=
  (h ++ chunk)%list.
Definition h_hexdigest (h : hasher) : string := hexdigest (xxh64 h).

(** [get_checksum] once the file is open on [data]. *)
Definition checksum_of (data : list Byte.byte) (file_size : Z) : exn + string :=
  if file_size <? 100 * 1024 * 1024 then
    let h := h_new in
    let f := h_open data in
    let '(all, _) := h_read_all f in
    let h := h_update h all in
    inr (h_hexdigest h +:+ "_xxh64")
  else
    let h := h_new in
    let f := h_open data in
    let '(first, f) := h_read (5 * 1024 * 1024) f in
    let h := h_update h first in
    match h_seek_end (- (5 * 1024 * 1024)) f with
    | inl e => inl e
    | inr f =>
        let '(rest, _) := h_read_all f in
        let h := h_update h rest in
        inr (h_hexdigest h +:+ "_partial_xxh64")
    end.

(** [FileManager.get_checksum]: [open] needs a readable file. *)
Definition get_checksum (filename : path) (file_size : Z) : M string :=
  fun w => match fs w !! filename with
           | Some (File true data) => (checksum_of data file_size, w)
           | _ => (inl OSError, w)
           end.

(* --------------------------------------------------------------------- *)
(** *** [CopyManager] *)
(* --------------------------------------------------------------------- *)

(** [copied.add(checksum)] *)
Definition copied_add (checksum : string) : M unit :=
  modify (fun w => set_copied ({[checksum]} ∪ copied w) w).

(** The loop variables of [walk_through_files]. *)
Record scan := Scan {
  lower_priority_files : buckets;
  non_priority_files : list pending;
  first_run : bool;
  size_of_copied : Z;
  number_of_copied : nat
}.

Definition count_copy (file_size : Z) (st : scan) : scan :=
  Scan (lower_priority_files st) (non_priority_files st) false
       (size_of_copied st + file_size) (S (number_of_copied st)).

(** The body of the loop over the files of the drive. [priority1] is
    [priority_list[0]], read only when [enable_priority] holds. *)
Definition visit (output_dir : path) (priority_list : list string)
    (disabled : gset string) (enable_priority : bool)
    (old_file_path : path) (st : scan) : M scan :=
  let filename := PyPath.name old_file_path in
  let priority1 := hd "" priority_list in
  let* file_size := get_file_size old_file_path in
  let* checksum := get_checksum old_file_path file_size in
  let* done := gets copied in
  if bool_decide (checksum ∈ done) then ret st
  else
    let extension := PyStr.lower (PyPath.suffix old_file_path) in
    if enable_priority then
      if bool_decide (extension ∈ priority_list) then
        if String.eqb extension (PyStr.lower priority1) then
          let dir_name := "Priority_" +:+ PyStr.drop_first priority1 in
          exec (if first_run st
                then exec create_directory_or_file output_dir dir_name in ret tt
                else ret tt) in
          let* dir := create_directory_or_file output_dir dir_name in
          let new_file_path := PyPath.join dir filename in
          exec copy_file old_file_path new_file_path in
          exec copied_add checksum in
          ret (count_copy file_size st)
        else
          match dict_get extension (lower_priority_files st) with
          | None => raise KeyError
          | Some bucket =>
              let bucket := bucket_add (checksum, old_file_path, file_size) bucket in
              ret (Scan (dict_set extension bucket (lower_priority_files st))
                        (non_priority_files st) (first_run st)
                        (size_of_copied st) (number_of_copied st))
          end
      else
        if bool_decide (extension ∉ disabled) then
          ret (Scan (lower_priority_files st)
                    (bucket_add (checksum, old_file_path, file_size)
                                (non_priority_files st))
                    (first_run st) (size_of_copied st) (number_of_copied st))
        else ret st
    else
      if bool_decide (extension ∉ disabled) then
        let* new_file_path :=
          create_directory_or_file output_dir "All_files_copied" in
        exec copy_file old_file_path new_file_path in
        exec copied_add checksum in
        ret (count_copy file_size st)
      else ret st.

(** [bool(priority_list and wants_priority)] *)
Definition routing_enabled (priority_list : list string)
    (wants_priority : bool) : bool :=
  match priority_list with
  | [] => false
  | _ => wants_priority
  end.

(** The loop variables before the first file: a bucket per entry of
    [priority_list[1:]], nothing found, nothing copied. *)
Definition scan_start (priority_list : list string) : scan :=
  Scan (empty_buckets (tl priority_list)) [] true 0 0.

(** [save_state(copied, self.state_file)] on the session's set. *)
Definition save_copied : M unit :=
  let* done := gets copied in save_state done.

(** [CopyManager.walk_through_files]. [files] is what [os.walk(drive)]
    enumerates, in its order. *)
Definition walk_through_files (files : list path) (output_dir : path)
    (priority_list : list string) (disabled : gset string)
    (temp_state wants_priority : bool) : M (buckets * list pending) :=
  let enable_priority := routing_enabled priority_list wants_priority in
  let* st :=
    for_each files (visit output_dir priority_list disabled enable_priority)
             (scan_start priority_list) in
  exec (if enable_priority then
          if (Nat.ltb 0 (number_of_copied st) && negb temp_state)%bool then
            if negb temp_state then save_copied else ret tt
          else ret tt
        else
          if Nat.ltb 0 (number_of_copied st) then
            if negb temp_state then save_copied else ret tt
          else ret tt) in
  ret (lower_priority_files st, non_priority_files st).

(** Copying one pending record into [dir]; the loop variables are
    [(size_of_copied, number_of_copied)]. *)
Definition copy_pending (dir : path) (rec : pending) (acc : Z * nat)
  : M (Z * nat) :=
  let '(checksum, old_file_path, file_size) := rec in
  let new_file_path := PyPath.join dir (PyPath.name old_file_path) in
  exec copy_file old_file_path new_file_path in
  exec copied_add checksum in
  ret (fst acc + file_size, S (snd acc)).

(** One iteration of the loop of [copy_other_priorities]. *)
Definition copy_priority (output_dir : path) (temp_state : bool)
    (item : string * list pending) (acc : Z * nat) : M (Z * nat) :=
  let '(priority, files) := item in
  let priority := PyStr.upper (PyStr.drop_first priority) in
  let* acc :=
    match files with
    | [] => ret acc
    | _ =>
        let* priority_dir :=
          create_directory_or_file output_dir ("Priority_" +:+ priority) in
        for_each files (copy_pending priority_dir) acc
    end in
  exec (if Nat.ltb 0 (snd acc) then
          if negb temp_state then save_copied else ret tt
        else ret tt) in
  ret acc.

(** [CopyManager.copy_other_priorities] *)
Definition copy_other_priorities (lower_priority_files : buckets)
    (output_dir : path) (temp_state : bool) : M unit :=
  exec for_each lower_priority_files (copy_priority output_dir temp_state)
         (0, 0%nat) in
  ret tt.

(** [CopyManager.copy_non_priority] *)
Definition copy_non_priority (non_priority_files : list pending)
    (output_dir : path) (temp_state : bool) : M unit :=
  let* acc :=
    match non_priority_files with
    | [] => ret (0, 0%nat)
    | _ =>
        let* non_priority_dir :=
          create_directory_or_file output_dir "Non-priority" in
        for_each non_priority_files (copy_pending non_priority_dir) (0, 0%nat)
    end in
  if Nat.ltb 0 (snd acc) then
    if negb temp_state then save_copied else ret tt
  else ret tt.

(* --------------------------------------------------------------------- *)
(** *** [prompts] and [main] *)
(* --------------------------------------------------------------------- *)

(** What the user types at the prompts, in the order they are asked. *)
Record answers := Answers {
  wants_another_dir : string;
  new_output_dir : path;
  wants_cleared_state_file : string;
  wants_temp_state : string;
  disable_priority : string
}.

(** [prompts]. [create_state_file] takes no argument besides [self]; the
    call made for a temporary state passes one, which Python refuses with
    a [TypeError] before the body runs. [set_settings] shows the settings
    file, which this session has already loaded. *)
Definition prompts (cfg : settings) (a : answers) : M (path * bool * bool) :=
  let output_dir := default_output_dir cfg in
  let output_dir :=
    if String.eqb (PyStr.lower (wants_another_dir a)) "y"
    then new_output_dir a else output_dir in
  exec (if String.eqb (wants_cleared_state_file a) "y"
        then exec create_state_file in ret tt else ret tt) in
  let wants_temp_state := String.eqb (PyStr.lower (wants_temp_state a)) "y" in
  exec (if wants_temp_state then raise TypeError else ret tt) in
  let wants_priority :=
    if enable_priority cfg
    then negb (String.eqb (PyStr.lower (disable_priority a)) "y")
    else false in
  ret (output_dir, wants_priority, wants_temp_state).

(** A removable drive: its name as [get_removable_drives] returns it and
    the files [os.walk] finds on it. *)
Record drive := Drive { drive_name : string; drive_files : list path }.

(** [DriveManager.create_drive_dir]. The call of [get_disk_space], which
    prints the used space of the drive, is left out. *)
Definition create_drive_dir (output_dir : path) (d : drive) : M path :=
  create_directory_or_file output_dir
    ("Drive_" +:+ PyStr.drop_last (drive_name d) +:+ "_copy").

(** The body of [for drive in removable_drives]. *)
Definition process_drive (cfg : settings) (output_dir : path)
    (priority_list : list string) (temp_state wants_priority : bool)
    (d : drive) : M unit :=
  let* current_output_dir := create_drive_dir output_dir d in
  let* found :=
    walk_through_files (drive_files d) current_output_dir priority_list
      (disabled_extensions cfg) temp_state wants_priority in
  if wants_priority then
    exec copy_other_priorities (fst found) current_output_dir temp_state in
    if negb (copy_only_priority cfg)
    then copy_non_priority (snd found) current_output_dir temp_state
    else ret tt
  else ret tt.

(** [while True]: [polls] lists what successive calls of
    [get_removable_drives] return. The result tells whether drives were
    found and processed before the observed polls ended. *)
Fixpoint main_loop (cfg : settings) (output_dir : path)
    (priority_list : list string) (temp_state wants_priority : bool)
    (polls : list (list drive)) : M bool :=
  match polls with
  | [] => ret false
  | [] :: later =>
      main_loop cfg output_dir priority_list temp_state wants_priority later
  | removable_drives :: _ =>
      exec for_each removable_drives
             (fun d _ => process_drive cfg output_dir priority_list
                           temp_state wants_priority d) tt in
      ret true
  end.

(** [main] *)
Definition main (cfg : settings) (a : answers) (polls : list (list drive))
  : M bool :=
  let* asked :=
    if negb (skip_prompts cfg) then prompts cfg a
    else ret (default_output_dir cfg, enable_priority cfg, false) in
  let '(output_dir, wants_priority, temp_state) := asked in
  let priority_list := if wants_priority then get_priority_list cfg else [] in
  let* done := if negb temp_state then get_copied else ret ∅ in
  exec modify (set_copied done) in
  main_loop cfg output_dir priority_list temp_state wants_priority polls.

End Engine.

(* ===================================================================== *)
(** ** Sample data for the worked examples *)
(* ===================================================================== *)

(** A stand-in for the digest, used where an example has to run. *)
Definition sample_hash (data : list Byte.byte) : Z :=
  fold_left (fun acc b => (acc * 31 + Z.of_N (Byte.to_N b)) mod 2 ^ 64) data 7.

Definition bytes (s : string) : list Byte.byte := list_byte_of_string s.

(** The spec's vocabulary for the two parts of a large file. *)
Definition first_bytes (n : Z) (data : list Byte.byte) : list Byte.byte :=
  firstn (Z.to_nat n) data.
Definition last_bytes (n : Z) (data : list Byte.byte) : list Byte.byte :=
  skipn (length data - Z.to_nat n) data.

(** An output directory that already holds [a.jpg], and two files of that
    name on a drive. *)
Definition shelf : world :=
  World (list_to_map
           [ (["out"], Dir);
             (["out"; "a.jpg"], File true (bytes "zero"));
             (["E"], Dir); (["E"; "x"], Dir); (["E"; "y"], Dir);
             (["E"; "x"; "a.jpg"], File true (bytes "one"));
             (["E"; "y"; "a.jpg"], File true (bytes "two")) ])
        ∅ Absent ∅ [].

Definition shelf_after_one : world :=
  snd (copy_file ["E"; "x"; "a.jpg"] ["out"; "a.jpg"] shelf).
Definition shelf_after_two : world :=
  snd (copy_file ["E"; "y"; "a.jpg"] ["out"; "a.jpg"] shelf_after_one).

(** The same drive in front of an empty output directory. *)
Definition bare_shelf : world :=
  World (list_to_map
           [ (["out"], Dir);
             (["E"], Dir); (["E"; "x"], Dir); (["E"; "y"], Dir);
             (["E"; "x"; "a.jpg"], File true (bytes "one"));
             (["E"; "y"; "a.jpg"], File true (bytes "two")) ])
        ∅ Absent ∅ [].

Definition sample_cfg : settings :=
  Settings [".jpg"; ".TXT"] [".mov"] ["out"] false true true.

Definition no_answers : answers := Answers "n" [] "n" "n" "n".

(** A drive with a small text file, and one with a file of 100 MiB. *)
Definition small_drive : world :=
  World (list_to_map
           [ (["out"], Dir); (["E"], Dir);
             (["E"; "note.txt"], File true (bytes "hello")) ])
        ∅ Absent ∅ [].

Definition zeros : list Byte.byte :=
  repeat Byte.x00 (Z.to_nat (100 * 1024 * 1024)).

Definition big_drive : world :=
  World {[ ["E"; "big.bin"] := File true zeros ]} ∅ Absent ∅ [].

(** A drive whose first file cannot be opened. *)
Definition locked_drive : world :=
  World (list_to_map
           [ (["out"], Dir); (["E"], Dir);
             (["E"; "locked.jpg"], File false (bytes "secret"));
             (["E"; "ok.jpg"], File true (bytes "picture")) ])
        ∅ Absent ∅ [].

Definition locked_files : list path :=
  [ ["E"; "locked.jpg"]; ["E"; "ok.jpg"] ].

(** The same drive, listed with the readable file first. *)
Definition late_locked_files : list path :=
  [ ["E"; "ok.jpg"]; ["E"; "locked.jpg"] ].

(** A drive with two text files of the same content. *)
Definition twin_drive : world :=
  World (list_to_map
           [ (["out"], Dir); (["E"], Dir);
             (["E"; "a.txt"], File true (bytes "hello"));
             (["E"; "b.txt"], File true (bytes "hello")) ])
        ∅ Absent ∅ [].

Definition twin_files : list path := [ ["E"; "a.txt"]; ["E"; "b.txt"] ].

(** A drive with one picture, and an output directory that refuses the
    file the picture is copied to. *)
Definition refusing_drive : world :=
  World (list_to_map
           [ (["out"], Dir); (["E"], Dir);
             (["E"; "c.jpg"], File true (bytes "picture")) ])
        {[ ["out"; "Drive_E_copy"; "Priority_jpg"; "c.jpg"] ]} Absent ∅ [].

(** A session with prompts, and the answers that ask for a temporary
    state. *)
Definition asking_cfg : settings :=
  Settings [".jpg"; ".TXT"] [".mov"] ["out"] false false true.

Definition temp_answers : answers := Answers "n" [] "n" "y" "n".

(** Settings whose second priority is also disabled. *)
Definition overlap_cfg : settings :=
  Settings [".jpg"; ".TXT"] [".mov"; ".Txt"] ["out"] false true true.

(** The sessions run on the sample drives. *)
Definition twin_run : (exn + bool) * world :=
  main sample_hash sample_cfg no_answers [[Drive "E:" twin_files]] twin_drive.

Definition refused_run : (exn + bool) * world :=
  main sample_hash sample_cfg no_answers
    [[Drive "E:" [ ["E"; "c.jpg"] ]]] refusing_drive.

(** The next session on the same drive, once the output directory accepts
    every file. *)
Definition refused_rerun : (exn + bool) * world :=
  main sample_hash sample_cfg no_answers
    [[Drive "E:" [ ["E"; "c.jpg"] ]]]
    (World (fs (snd refused_run)) ∅ (state_json (snd refused_run)) ∅ []).

Definition temp_run : (exn + bool) * world :=
  main sample_hash asking_cfg temp_answers [[Drive "E:" twin_files]] twin_drive.

(** A session that meets the unreadable file after it has copied the
    readable one, and the next session on the store it left. *)
Definition broken_run : (exn + bool) * world :=
  main sample_hash sample_cfg no_answers [[Drive "E:" late_locked_files]]
    locked_drive.

Definition broken_rerun : (exn + bool) * world :=
  main sample_hash sample_cfg no_answers [[Drive "E:" late_locked_files]]
    (snd broken_run).

(** A drive with a picture, a text file, a film and a drawing. *)
Definition mixed_drive : world :=
  World (list_to_map
           [ (["out"], Dir); (["E"], Dir);
             (["E"; "pic.JPG"], File true (bytes "picture"));
             (["E"; "note.txt"], File true (bytes "hello"));
             (["E"; "film.mov"], File true (bytes "film"));
             (["E"; "draw.png"], File true (bytes "drawing")) ])
        ∅ Absent ∅ [].

Definition mixed_files : list path :=
  [ ["E"; "pic.JPG"]; ["E"; "note.txt"]; ["E"; "film.mov"];
    ["E"; "draw.png"] ].

Definition mixed_run : (exn + bool) * world :=
  main sample_hash sample_cfg no_answers [[Drive "E:" mixed_files]]
    mixed_drive.

(** ** Vocabulary of the statements *)

(** The path [copy_file] hands to [copy2]. *)
Definition copy_dest (w : world) (dst : path) : path :=
  if bool_decide (is_Some (fs w !! dst)) then copy_name dst else dst.

(** The number of [save_state] calls in a trace. *)
Fixpoint saves (t : list event) : nat :=
  match t with
  | [] => 0
  | Saved _ :: t' => S (saves t')
  | _ :: t' => saves t'
  end.

(** The sources [copy_file] was called on, with or without success. *)
Fixpoint attempts (t : list event) : list path :=
  match t with
  | [] => []
  | Copied src _ :: t' => src :: attempts t'
  | CopyFailed src _ :: t' => src :: attempts t'
  | Saved _ :: t' => attempts t'
  end.





(** *** The priority classifier, in the spec's words *)

Inductive tier_class :=
| Tier (i : nat)
| NonPriority
| Disabled.

(** The position of the first entry equal to [x]. *)
Fixpoint index_of (x : string) (l : list string) : option nat :=
  match l with
  | [] => None
  | y :: l' => if String.eqb x y then Some 0%nat else S <$> index_of x l'
  end.

(** The rule of the spec, in its order: (a) routing disabled; (b) the first
    entry of the priority list; (c) another entry; (d) the disabled set;
    (e) the rest. *)
Definition classify (routing : bool) (extension : string)
    (priority_list : list string) (disabled_set : gset string) : tier_class :=
  let unlisted :=
    if bool_decide (extension ∈ disabled_set) then Disabled else NonPriority in
  if negb routing then unlisted
  else
    match priority_list with
    | first :: others =>
        if String.eqb extension first then Tier 0
        else match index_of extension others with
             | Some i => Tier (S i)
             | None => unlisted
             end
    | [] => unlisted
    end.

(** An extension as the priority list keeps it: lower-case, a dot and at
    least one more character. *)
Definition normalized (e : string) : Prop :=
  PyStr.lower e = e /\ is_extension_valid e = true.

(** What the scan does with a file of each class: a file of tier 0 is
    copied at once into the directory of the first priority; a file of tier
    [S i] joins the [i]-th bucket; a non-priority file joins the
    non-priority bucket, or is copied at once when routing is disabled; a
    disabled file is dropped. *)
Definition add_to_tier (i : nat) (rec : pending) (d : buckets) : buckets :=
  alter (fun kb => (fst kb, bucket_add rec (snd kb))) i d.

Definition route (cls : tier_class) (routing : bool) (output_dir : path)
    (priority_list : list string) (old_file_path : path) (checksum : string)
    (file_size : Z) (st : scan) : M scan :=
  match cls with
  | Disabled => ret st
  | NonPriority =>
      if routing then
        ret (Scan (lower_priority_files st)
                  (bucket_add (checksum, old_file_path, file_size)
                              (non_priority_files st))
                  (first_run st) (size_of_copied st) (number_of_copied st))
      else
        let* new_file_path :=
          create_directory_or_file output_dir "All_files_copied" in
        exec copy_file old_file_path new_file_path in
        exec copied_add checksum in
        ret (count_copy file_size st)
  | Tier O =>
      let dir_name :=
        "Priority_" +:+ PyStr.drop_first (hd "" priority_list) in
      exec (if first_run st
            then exec create_directory_or_file output_dir dir_name in ret tt
            else ret tt) in
      let* dir := create_directory_or_file output_dir dir_name in
      exec copy_file old_file_path
             (PyPath.join dir (PyPath.name old_file_path)) in
      exec copied_add checksum in
      ret (count_copy file_size st)
  | Tier (S i) =>
      ret (Scan (add_to_tier i (checksum, old_file_path, file_size)
                             (lower_priority_files st))
                (non_priority_files st) (first_run st)
                (size_of_copied st) (number_of_copied st))
  end.

(** *** Reruns *)

(** What a session may do to the file system outside the output directory
    [out]: nothing, except creating a directory where there was nothing. *)
Definition keeps (out : path) (f f' : gmap path node) : Prop :=
  forall p, ~ (out `prefix_of` p) ->
    f' !! p = f !! p \/ (f !! p = None /\ f' !! p = Some Dir).

(** The state file lists exactly the session's copied set. *)
Definition synced (w : world) : Prop :=
  exists items, state_json w = JsonList items /\ list_to_set items = copied w.

(** The records waiting in the buckets of the lower priorities. *)
Definition flat (lp : buckets) : list pending := concat (map snd lp).

(** A step that at most created directories. *)
Definition only_dirs (w w' : world) : Prop :=
  state_json w' = state_json w /\ copied w' = copied w /\
  trace w' = trace w /\
  forall q, fs w' !! q = fs w !! q \/ (fs w !! q = None /\ fs w' !! q = Some Dir).

(** A step that called [copy_file] once, on [p], inside [out], and added
    the checksum [c]. *)
Definition one_copy (out p : path) (c : string) (w w' : world) : Prop :=
  state_json w' = state_json w /\ copied w' = {[c]} ∪ copied w /\
  attempts (trace w') = p :: attempts (trace w) /\
  saves (trace w') = saves (trace w) /\
  keeps out (fs w) (fs w').

(** The extensions the scan drops, and those it copies at once. *)
Definition dropped_class (pl : list string) (dis : gset string)
    (routing : bool) (ext : string) : Prop :=
  (routing = true /\ (ext ∉ pl) /\ ext ∈ dis) \/ (routing = false /\ ext ∈ dis).

Definition eager_class (pl : list string) (dis : gset string)
    (routing : bool) (ext : string) : Prop :=
  (routing = true /\ ext ∈ pl /\ ext = PyStr.lower (hd "" pl)) \/
  (routing = false /\ (ext ∉ dis)).

(** Where a scanned file stands while its drive is processed: its
    fingerprint is in the set [K], or its record waits in a bucket, or its
    extension is dropped. [f0] is the file system the session started
    from. *)
Definition settled (xxh64 : list Byte.byte -> Z) (pl : list string)
    (dis : gset string) (routing : bool) (f0 : gmap path node)
    (lp : buckets) (np : list pending) (K : gset string) (p : path) : Prop :=
  exists data c,
    f0 !! p = Some (File true data) /\
    checksum_of xxh64 data (Z.of_nat (length data)) = inr c /\
    let ext := PyStr.lower (PyPath.suffix p) in
    let r := (c, p, Z.of_nat (length data)) in
    (c ∈ K \/ (r ∈ flat lp /\ routing = true) \/
     (r ∈ np /\ routing = true /\ (ext ∉ pl)) \/
     dropped_class pl dis routing ext).

(** The drives of the first poll that found any. *)
Fixpoint first_drives (polls : list (list drive)) : list drive :=
  match polls with
  | [] => []
  | [] :: later => first_drives later
  | ds :: _ => ds
  end.

(** The files of the drives a session processes. *)
Definition volume (polls : list (list drive)) : list path :=
  concat (map drive_files (first_drives polls)).

(** A file the configuration never copies: with routing, an extension
    outside the priority list that is disabled or excluded by "copy only
    priority files"; without routing, a disabled extension. *)
Definition never_copied (pl : list string) (dis : gset string)
    (routing copy_only : bool) (p : path) : Prop :=
  let ext := PyStr.lower (PyPath.suffix p) in
  (routing = true /\ (ext ∉ pl) /\ (ext ∈ dis \/ copy_only = true)) \/
  (routing = false /\ ext ∈ dis).

(** Where a file stands once its drive is done: its fingerprint is in
    [K], or the configuration never copies it. *)
Definition finished (xxh64 : list Byte.byte -> Z) (pl : list string)
    (dis : gset string) (routing copy_only : bool) (f0 : gmap path node)
    (K : gset string) (p : path) : Prop :=
  exists data c,
    f0 !! p = Some (File true data) /\
    checksum_of xxh64 data (Z.of_nat (length data)) = inr c /\
    (c ∈ K \/ never_copied pl dis routing copy_only p).

(** What holds in a first session after the files [done] of a drive have
    been visited, [start] being the store the scan began in. *)
Definition scanned (xxh64 : list Byte.byte -> Z) (out : path)
    (pl : list string) (dis : gset string) (routing : bool)
    (f0 : gmap path node) (start : world)
    (done : list path) (st : scan) (w : world) : Prop :=
  keeps out f0 (fs w) /\
  state_json w = state_json start /\
  copied start ⊆ copied w /\
  (number_of_copied st = 0%nat -> copied w = copied start) /\
  forall p, p ∈ done ->
    settled xxh64 pl dis routing f0 (lower_priority_files st)
            (non_priority_files st) (copied w) p.

(** Between two steps of a second session: no file has been handed to
    [copy_file] since the trace showed the attempts [a0], and the ledger
    [K] of the first session is still in the copied set. *)
Definition idle (out : path) (f2 : gmap path node) (K : gset string)
    (a0 : list path) (w : world) : Prop :=
  attempts (trace w) = a0 /\ K ⊆ copied w /\ keeps out f2 (fs w).

Definition idle_scan (out : path) (copy_only : bool) (f2 : gmap path node)
    (K : gset string) (a0 : list path) (st : scan) (w : world) : Prop :=
  idle out f2 K a0 w /\ flat (lower_priority_files st) = [] /\
  (copy_only = false -> non_priority_files st = []) /\
  number_of_copied st = 0%nat.

(** The output directory of a session and whether it routes by priority,
    as [main] settles them before the ledger is loaded. *)
Definition session_output (cfg : settings) (a : answers) : path :=
  if skip_prompts cfg then default_output_dir cfg
  else if String.eqb (PyStr.lower (wants_another_dir a)) "y"
       then new_output_dir a else default_output_dir cfg.

Definition session_wants (cfg : settings) (a : answers) : bool :=
  if skip_prompts cfg then enable_priority cfg
  else if enable_priority cfg
       then negb (String.eqb (PyStr.lower (disable_priority a)) "y")
       else false.

Definition session_list (cfg : settings) (a : answers) : list string :=
  if session_wants cfg a then get_priority_list cfg else [].

(** The user asks for a temporary state, or to clear the state file. *)
Definition asks_temp (cfg : settings) (a : answers) : bool :=
  (negb (skip_prompts cfg)
   && String.eqb (PyStr.lower (wants_temp_state a)) "y")%bool.

Definition asks_reset (cfg : settings) (a : answers) : bool :=
  (negb (skip_prompts cfg)
   && String.eqb (wants_cleared_state_file a) "y")%bool.

(** ** Sample data and vocabulary of the later sections *)

(** A file of 100 MiB that differs from [zeros] only between its first and
    its last 5 MiB. *)
Definition padded : list Byte.byte :=
  (repeat Byte.x00 (Z.to_nat (5 * 1024 * 1024)) ++
   repeat Byte.xff (Z.to_nat (90 * 1024 * 1024)) ++
   repeat Byte.x00 (Z.to_nat (5 * 1024 * 1024)))%list.

Definition padded_drive : world :=
  World {[ ["E"; "padded.bin"] := File true padded ]} ∅ Absent ∅ [].

(** Where a copy event is aimed: the path [copy2] wrote, or was refused. *)
Definition aimed_under (dir : path) (e : event) : Prop :=
  match e with
  | Copied _ target => dir `prefix_of` target
  | CopyFailed _ dst => dir `prefix_of` dst
  | Saved _ => True
  end.

(** The directory the scan copies into at once: with routing, the one of
    the first priority; without, the path [copy_file] falls back to when it
    is handed the directory [All_files_copied] itself. *)
Definition eager_dir (cur : path) (pl : list string) (routing : bool) : path :=
  if routing
  then PyPath.join cur ("Priority_" +:+ PyStr.drop_first (hd "" pl))
  else PyPath.join cur "All_files_copied_copy".

(** The events a step added to the trace, each with the property [P]. *)
Definition added (P : event -> Prop) (w w' : world) : Prop :=
  exists new, trace w' = (new ++ trace w)%list /\ Forall P new.

(** The answers of a user who clears the state file. *)
Definition reset_answers : answers := Answers "n" [] "y" "n" "n".





(** The directory [copy_other_priorities] makes for the tier of the
    extension [k]. *)
Definition tier_dir (output_dir : path) (k : string) : path :=
  PyPath.join output_dir ("Priority_" +:+ PyStr.upper (PyStr.drop_first k)).

(** ** [DriveManager.get_removable_drives] *)

(** [s.split(sep)] for a separator of one character. *)
Fixpoint py_split (sep : ascii) (s : string) : list string :=
  match s with
  | EmptyString => [EmptyString]
  | String c s' =>
      if Ascii.eqb c sep then EmptyString :: py_split sep s'
      else match py_split sep s' with
           | piece :: rest => String c piece :: rest
           | [] => [String c EmptyString]
           end
  end.

Section Drives.

(** The Windows API is not part of the repository: [GetDriveType] stands
    for [win32file.GetDriveType], and the argument of
    [get_removable_drives] for what [win32api.GetLogicalDriveStrings]
    returns. *)
Variable GetDriveType : string -> Z.

Definition DRIVE_REMOVABLE : Z := 2.

Definition get_removable_drives (drives : string) : list string :=
  let drives := removelast (py_split Ascii.zero drives) in
  map PyStr.drop_last
    (List.filter (fun drive => GetDriveType drive =? DRIVE_REMOVABLE) drives).

End Drives.

(** The buffer [GetLogicalDriveStrings] fills: every root path followed by
    a NUL character. *)
Fixpoint drive_strings (roots : list string) : string :=
  match roots with
  | [] => EmptyString
  | root :: roots' => root +:+ String Ascii.zero (drive_strings roots')
  end.

(** A string without a NUL character. *)
Fixpoint nul_free (s : string) : bool :=
  match s with
  | EmptyString => true
  | String c s' => (negb (Ascii.eqb c Ascii.zero) && nul_free s')%bool
  end.

(** A drive type for the examples: only [E:/] is removable. *)
Definition sample_drive_type (root : string) : Z :=
  if String.eqb root "E:/" then 2 else 3.

(** ** Notifications *)

(** The engine above leaves the notifications out. Here the scan and the
    drains are written once more with their [send_notification] calls, on
    top of the same primitives; the two versions are shown to agree on
    everything else. *)

(** The four switches of "Enable notifications", under the names
    [CopyManager] keeps them. *)
Record notification_settings := NotificationSettings {
  notify_after_all_transfers_finished : bool;
  notification_after_every_priority : bool;
  first_priority_notification : bool;
  last_priority_notification : bool
}.

(** A title or a message is kept as the values its f-string formats. *)
Inductive title :=
| FinishedPriority1 (priority1_name : string)
    (* "Finished Priority 1 ({priority1_name})." *)
| FinishedAllFiles (drive : string)
    (* "Finished copying all files from disk {drive[:-1]}" *)
| FinishedPriority (priority_count : nat) (priority : string)
    (* "Finished Priority {priority_count} ({priority})." *)
| CopiedLastPriority
    (* "Copied last priority files" *)
| FinishedNonPriority.
    (* "Finished copying Non-Priority files" *)

Inductive message :=
| CopiedFiles (number_of_copied : nat) (size_of_copied : Z)
    (* "Copied {number_of_copied} files of total size of ... GB." *)
| NoPriority1Files (priority1_name : string)
    (* "No Priority 1 files ({priority1_name}) have been found. ..." *)
| NoFilesCopied
    (* "No files were copied." *)
| NoPriorityFiles (priority : string)
    (* "No {priority} files have been found. ..." *)
| NoNonPriorityFiles.
    (* "No non-priority files have been found. ..." *)

Definition notice : Type := title * message.

(** Computations that also send notifications: the notifications shown so
    far, latest first, are kept beside the store and survive an exception
    as the store does. *)
Definition N (A : Type) : Type :=
  list notice -> world -> (exn + A) * world * list notice.

Definition nret {A} (a : A) : N A := fun ns w => (inr a, w, ns).
Definition nbind {A B} (m : N A) (k : A -> N B) : N B :=
  fun ns w => match m ns w with
              | (inr a, w', ns') => k a ns' w'
              | (inl e, w', ns') => (inl e, w', ns')
              end.
Definition lift {A} (m : M A) : N A := fun ns w => (m w, ns).

(** [NotificationManager.send_notification] *)
Definition send_notification (t : title) (msg : message) : N unit :=
  fun ns w => (inr tt, w, (t, msg) :: ns).

Notation "'let+' x := m 'in' k" := (nbind m (fun x => k))
  (at level 10, x name, m at level 200, k at level 200) : py_scope.
Notation "'exec+' m 'in' k" := (nbind m (fun _ => k))
  (at level 10, m at level 200, k at level 200) : py_scope.

Fixpoint nfor_each {A S} (xs : list A) (body : A -> S -> N S) (acc : S)
  : N S :=
  match xs with
  | [] => nret acc
  | x :: xs' => let+ acc' := body x acc in nfor_each xs' body acc'
  end.

Section Notified.

Variable xxh64 : list Byte.byte -> Z.
Variable flags : notification_settings.

(** [CopyManager.walk_through_files], with what it reports after the
    loop. [drive] is the name of the drive. *)
Definition walk_through_files_n (drive : string) (files : list path)
    (output_dir : path) (priority_list : list string) (disabled : gset string)
    (temp_state wants_priority : bool) : N (buckets * list pending) :=
  let enable_priority := routing_enabled priority_list wants_priority in
  let priority1_name := PyStr.upper (PyStr.drop_first (hd "" priority_list)) in
  let+ st :=
    lift (for_each files
            (visit xxh64 output_dir priority_list disabled enable_priority)
            (scan_start priority_list)) in
  let message := CopiedFiles (number_of_copied st) (size_of_copied st) in
  exec+ (if enable_priority then
           let title := FinishedPriority1 priority1_name in
           let+ message :=
             if (Nat.ltb 0 (number_of_copied st) && negb temp_state)%bool then
               exec+ lift (if negb temp_state then save_copied else ret tt) in
               nret message
             else nret (NoPriority1Files priority1_name) in
           if (first_priority_notification flags
               || notification_after_every_priority flags)%bool
           then send_notification title message else nret tt
         else
           let title := FinishedAllFiles (PyStr.drop_last drive) in
           let+ message :=
             if Nat.ltb 0 (number_of_copied st) then
               exec+ lift (if negb temp_state then save_copied else ret tt) in
               nret message
             else nret NoFilesCopied in
           if notify_after_all_transfers_finished flags
           then send_notification title message else nret tt) in
  nret (lower_priority_files st, non_priority_files st).

(** One iteration of the loop of [copy_other_priorities]; the loop
    variables are [(size_of_copied, number_of_copied)], [priority_count]
    and [notify_after_last]. *)
Definition copy_priority_n (output_dir : path) (temp_state : bool)
    (item : string * list pending) (vars : Z * nat * nat * bool)
  : N (Z * nat * nat * bool) :=
  let '(priority, files) := item in
  let '(acc, priority_count, notify_after_last) := vars in
  let priority_count := S priority_count in
  let priority := PyStr.upper (PyStr.drop_first priority) in
  let+ acc :=
    lift (match files with
          | [] => ret acc
          | _ =>
              let* priority_dir :=
                create_directory_or_file output_dir
                  ("Priority_" +:+ priority) in
              for_each files (copy_pending priority_dir) acc
          end) in
  let title := FinishedPriority priority_count priority in
  let+ message :=
    if Nat.ltb 0 (snd acc) then
      exec+ lift (if negb temp_state then save_copied else ret tt) in
      nret (CopiedFiles (snd acc) (fst acc))
    else nret (NoPriorityFiles priority) in
  let+ notify_after_last :=
    if notification_after_every_priority flags then
      exec+ send_notification title message in nret notify_after_last
    else
      nret (if last_priority_notification flags then true
            else notify_after_last) in
  nret (acc, priority_count, notify_after_last).

(** [CopyManager.copy_other_priorities], with its notifications. *)
Definition copy_other_priorities_n (lower_priority_files : buckets)
    (output_dir : path) (temp_state : bool) : N unit :=
  let+ vars :=
    nfor_each lower_priority_files (copy_priority_n output_dir temp_state)
      ((0, 0%nat), 1%nat, false) in
  let '(acc, _, notify_after_last) := vars in
  if notify_after_last
  then send_notification CopiedLastPriority (CopiedFiles (snd acc) (fst acc))
  else nret tt.

(** [CopyManager.copy_non_priority], with its notification. *)
Definition copy_non_priority_n (non_priority_files : list pending)
    (output_dir : path) (temp_state : bool) : N unit :=
  let+ acc :=
    lift (match non_priority_files with
          | [] => ret (0, 0%nat)
          | _ =>
              let* non_priority_dir :=
                create_directory_or_file output_dir "Non-priority" in
              for_each non_priority_files (copy_pending non_priority_dir)
                (0, 0%nat)
          end) in
  let+ message :=
    if Nat.ltb 0 (snd acc) then
      exec+ lift (if negb temp_state then save_copied else ret tt) in
      nret (CopiedFiles (snd acc) (fst acc))
    else nret NoNonPriorityFiles in
  if notify_after_all_transfers_finished flags
  then send_notification FinishedNonPriority message else nret tt.

End Notified.

(* ===================================================================== *)
(** * Properties *)
(* ===================================================================== *)

(** ** Strings and paths *)

Lemma str_length_app (a b : string) :
  String.length (a +:+ b) = (String.length a + String.length b)%nat.
Proof. induction a as [|c a IH]; simpl; [reflexivity | now rewrite IH]. Qed.

Lemma hex_fixed_length (n : nat) (v : Z) : String.length (hex_fixed n v) = n.
Proof.
  revert v; induction n as [|n IH]; intros v; simpl; [reflexivity|].
  rewrite str_length_app, IH. simpl. lia.
Qed.

Lemma hexdigest_length (v : Z) : String.length (hexdigest v) = 16%nat.
Proof. apply hex_fixed_length. Qed.

(** ** The fingerprinter *)

Section FingerprintFacts.

Variable xxh64 : list Byte.byte -> Z.

Lemma tags_apart (v1 v2 : Z) :
  hexdigest v1 +:+ "_xxh64" <> hexdigest v2 +:+ "_partial_xxh64".
Proof.
  intros E. apply (f_equal String.length) in E.
  rewrite !str_length_app, !hexdigest_length in E. simpl in E. lia.
Qed.

Lemma checksum_full (data : list Byte.byte) (file_size : Z) :
  file_size < 100 * 1024 * 1024 ->
  checksum_of xxh64 data file_size = inr (hexdigest (xxh64 data) +:+ "_xxh64").
Proof.
  intros Hlt. unfold checksum_of.
  destruct (Z.ltb_spec file_size (100 * 1024 * 1024)) as [_|Hge]; [|lia].
  reflexivity.
Qed.

Lemma checksum_partial (data : list Byte.byte) (file_size : Z) :
  100 * 1024 * 1024 <= file_size ->
  5 * 1024 * 1024 <= Z.of_nat (length data) ->
  checksum_of xxh64 data file_size =
    inr (hexdigest (xxh64 (first_bytes (5 * 1024 * 1024) data ++
                           last_bytes (5 * 1024 * 1024) data)%list)
         +:+ "_partial_xxh64").
Proof.
  intros Hge Hlen. unfold checksum_of.
  destruct (Z.ltb_spec file_size (100 * 1024 * 1024)) as [Hlt|_]; [lia|].
  unfold h_read, h_open, h_seek_end, h_read_all, h_update, h_new, h_hexdigest.
  cbv [h_data h_pos].
  destruct (Z.ltb_spec (Z.of_nat (length data) + - (5 * 1024 * 1024)) 0)
    as [Hneg|_]; [lia|].
  unfold first_bytes, last_bytes. rewrite skipn_O, app_nil_l.
  replace (Z.to_nat (Z.of_nat (length data) + - (5 * 1024 * 1024)))
    with (length data - Z.to_nat (5 * 1024 * 1024))%nat by lia.
  reflexivity.
Qed.

Lemma part_lengths (data : list Byte.byte) (n : Z) :
  0 <= n <= Z.of_nat (length data) ->
  Z.of_nat (length (first_bytes n data)) = n /\
  Z.of_nat (length (last_bytes n data)) = n.
Proof.
  intros Hn. unfold first_bytes, last_bytes.
  rewrite length_firstn, length_skipn. lia.
Qed.

(** C4. For a readable file whose size is its number of bytes: below
    100 MiB the fingerprint is the digest of the whole content with the tag
    of the full method; from 100 MiB on it is the digest of the first 5 MiB
    followed by the last 5 MiB, each of exactly that length, with the tag of
    the partial method; a file of exactly 100 MiB takes the partial method;
    and no fingerprint of the full method equals one of the partial
    method. *)
Theorem fingerprint_by_size (w : world) (p : path) (data : list Byte.byte) :
  fs w !! p = Some (File true data) ->
  let size := Z.of_nat (length data) in
  let first := first_bytes (5 * 1024 * 1024) data in
  let last := last_bytes (5 * 1024 * 1024) data in
  let full := hexdigest (xxh64 data) +:+ "_xxh64" in
  let partial := hexdigest (xxh64 (first ++ last)%list) +:+ "_partial_xxh64" in
  get_file_size p w = (inr size, w) /\
  (size < 100 * 1024 * 1024 -> get_checksum xxh64 p size w = (inr full, w)) /\
  (100 * 1024 * 1024 <= size ->
     get_checksum xxh64 p size w = (inr partial, w) /\
     Z.of_nat (length first) = 5 * 1024 * 1024 /\
     Z.of_nat (length last) = 5 * 1024 * 1024) /\
  (size = 100 * 1024 * 1024 -> get_checksum xxh64 p size w = (inr partial, w)) /\
  (forall d1 d2 : list Byte.byte,
     hexdigest (xxh64 d1) +:+ "_xxh64" <>
     hexdigest (xxh64 d2) +:+ "_partial_xxh64").
Proof.
  intros Hp size first last full partial.
  assert (Hpart : 100 * 1024 * 1024 <= size ->
                  get_checksum xxh64 p size w = (inr partial, w)).
  { intros Hge. unfold get_checksum. rewrite Hp.
    subst partial first last. rewrite checksum_partial; [reflexivity|lia|].
    fold size. lia. }
  split; [unfold get_file_size; now rewrite Hp|].
  split.
  - intros Hlt. unfold get_checksum. rewrite Hp.
    now rewrite checksum_full.
  - split; [|split].
    + intros Hge. split; [auto|].
      apply part_lengths. fold size. lia.
    + intros Heq. apply Hpart. lia.
    + intros d1 d2. apply tags_apart.
Qed.

End FingerprintFacts.

(** ** Names and paths *)

Lemma take_drop (i : nat) (s : string) : PyStr.take i s +:+ PyStr.drop i s = s.
Proof.
  revert s; induction i as [|i IH]; intros [|c s]; try reflexivity.
  change (String c (PyStr.take i s +:+ PyStr.drop i s) = String c s).
  now rewrite IH.
Qed.

Lemma app_empty_r (s : string) : s +:+ "" = s.
Proof.
  induction s as [|c s IH]; [reflexivity|].
  change (String c (s +:+ "") = String c s). now rewrite IH.
Qed.

Lemma stem_suffix (n : string) :
  PyPath.stem_of_name n +:+ PyPath.suffix_of_name n = n.
Proof.
  unfold PyPath.stem_of_name, PyPath.suffix_of_name.
  destruct (PyStr.rfind_dot n 0) as [i|].
  - destruct (Nat.ltb 0 i && Nat.ltb i (String.length n - 1))%bool.
    + apply take_drop.
    + apply app_empty_r.
  - apply app_empty_r.
Qed.

Lemma name_with_name (p : path) (n : string) :
  PyPath.name (PyPath.with_name p n) = n.
Proof. unfold PyPath.name, PyPath.with_name. apply last_last. Qed.

Lemma copy_name_name (p : path) :
  PyPath.name (copy_name p) = PyPath.stem p +:+ "_copy" +:+ PyPath.suffix p.
Proof. apply name_with_name. Qed.

Lemma copy_name_longer (p : path) :
  String.length (PyPath.name (copy_name p)) =
  (String.length (PyPath.name p) + 5)%nat.
Proof.
  rewrite copy_name_name. unfold PyPath.stem, PyPath.suffix.
  rewrite <- (stem_suffix (PyPath.name p)) at 3.
  rewrite !str_length_app. simpl. lia.
Qed.

Lemma copy_name_fresh (p : path) : copy_name p <> p.
Proof.
  intros E. pose proof (copy_name_longer p) as H. rewrite E in H. lia.
Qed.

Lemma copy_name_dir (p : path) : removelast (copy_name p) = removelast p.
Proof. unfold copy_name, PyPath.with_name. apply removelast_last. Qed.

Lemma copy_name_length (p : path) :
  length (copy_name p) = S (length (removelast p)).
Proof.
  unfold copy_name, PyPath.with_name. rewrite length_app. simpl. lia.
Qed.

Lemma removelast_length (p : path) : p <> [] -> length p = S (length (removelast p)).
Proof.
  intros Hp. rewrite (app_removelast_last "" Hp) at 1.
  rewrite length_app. simpl. lia.
Qed.

(** Whatever the fallback name designates, [copy2] aimed at it does not
    write the original destination. *)
Lemma fallback_target_apart (f : gmap path node) (src dst : path) :
  copy2_target f src (copy_name dst) <> dst.
Proof.
  unfold copy2_target.
  destruct (f !! copy_name dst) as [[|r d]|]; try apply copy_name_fresh.
  unfold PyPath.join. intros E. apply (f_equal (@length string)) in E.
  rewrite length_app, copy_name_length in E. simpl in E.
  destruct dst as [|c dst]; [simpl in E; lia|].
  rewrite (removelast_length (c :: dst)) in E by discriminate. lia.
Qed.

(** ** The file primitives *)

Lemma copy2_cases (src dst : path) (w : world) :
  copy2 src dst w = (inl OSError, w) \/
  exists data,
    fs w !! src = Some (File true data) /\
    copy2 src dst w =
      (inr tt,
       log (Copied src (copy2_target (fs w) src dst))
           (set_fs (<[copy2_target (fs w) src dst := File true data]> (fs w)) w)).
Proof.
  unfold copy2.
  destruct (fs w !! src) as [[|[] data]|]; auto.
  case_bool_decide; auto.
  destruct (fs w !! copy2_target (fs w) src dst) as [[|r d]|]; eauto.
  destruct (fs w !! removelast (copy2_target (fs w) src dst)) as [[|r d]|]; eauto.
Qed.

Lemma copy_file_run (src dst : path) (w : world) :
  copy_file src dst w =
    (inr tt,
     match copy2 src (copy_dest w dst) w with
     | (inr _, w') => w'
     | (inl _, _) => log (CopyFailed src (copy_dest w dst)) w
     end).
Proof.
  unfold copy_file, bind, exists_, gets, try_except, copy_dest, modify.
  destruct (copy2_cases src
              (if bool_decide (is_Some (fs w !! dst)) then copy_name dst else dst) w)
    as [E|(data & _ & E)]; rewrite E; reflexivity.
Qed.

(** What [copy_file] leaves behind: a failed attempt only shows in the
    trace; a copy writes one target. *)
Lemma copy_file_cases (src dst : path) (w : world) :
  copy_file src dst w = (inr tt, log (CopyFailed src (copy_dest w dst)) w) \/
  exists data,
    fs w !! src = Some (File true data) /\
    copy_file src dst w =
      (inr tt,
       log (Copied src (copy2_target (fs w) src (copy_dest w dst)))
           (set_fs (<[copy2_target (fs w) src (copy_dest w dst) := File true data]>
                      (fs w)) w)).
Proof.
  rewrite copy_file_run.
  destruct (copy2_cases src (copy_dest w dst) w) as [E|(data & Hs & E)];
    rewrite E; eauto.
Qed.

Lemma copy_file_protects (src dst : path) (w : world) :
  is_Some (fs w !! dst) ->
  fs (snd (copy_file src dst w)) !! dst = fs w !! dst.
Proof.
  intros Hd.
  destruct (copy_file_cases src dst w) as [E|(data & _ & E)]; rewrite E;
    [reflexivity|].
  simpl. unfold copy_dest. rewrite bool_decide_eq_true_2 by assumption.
  apply lookup_insert_ne, fallback_target_apart.
Qed.

(** A copy the system accepts, aimed at a path that is free or holds a
    file. *)
Lemma copy_file_lands (src dst : path) (data : list Byte.byte) (w : world) :
  fs w !! src = Some (File true data) ->
  copy_dest w dst ∉ denied w ->
  (fs w !! copy_dest w dst = None /\
   fs w !! removelast (copy_dest w dst) = Some Dir) \/
  (exists r old, fs w !! copy_dest w dst = Some (File r old)) ->
  copy_file src dst w =
    (inr tt,
     log (Copied src (copy_dest w dst))
         (set_fs (<[copy_dest w dst := File true data]> (fs w)) w)).
Proof.
  intros Hs Hden Hfree. rewrite copy_file_run. unfold copy2. rewrite Hs.
  assert (Ht : copy2_target (fs w) src (copy_dest w dst) = copy_dest w dst).
  { unfold copy2_target.
    destruct Hfree as [[E _]|(r & old & E)]; now rewrite E. }
  rewrite Ht, bool_decide_eq_false_2 by assumption.
  destruct Hfree as [[E1 E2]|(r & old & E)].
  - now rewrite E1, E2.
  - now rewrite E.
Qed.

(** A copy aimed at a directory goes into it, under the source's name. *)
Lemma copy_file_into (src dst : path) (data : list Byte.byte) (w : world) :
  fs w !! src = Some (File true data) ->
  fs w !! copy_dest w dst = Some Dir ->
  PyPath.join (copy_dest w dst) (PyPath.name src) ∉ denied w ->
  fs w !! PyPath.join (copy_dest w dst) (PyPath.name src) = None \/
  (exists r old, fs w !! PyPath.join (copy_dest w dst) (PyPath.name src)
                 = Some (File r old)) ->
  copy_file src dst w =
    (inr tt,
     log (Copied src (PyPath.join (copy_dest w dst) (PyPath.name src)))
         (set_fs (<[PyPath.join (copy_dest w dst) (PyPath.name src)
                    := File true data]> (fs w)) w)).
Proof.
  intros Hs Hdir Hden Hfree. rewrite copy_file_run. unfold copy2. rewrite Hs.
  assert (Ht : copy2_target (fs w) src (copy_dest w dst) =
               PyPath.join (copy_dest w dst) (PyPath.name src)).
  { unfold copy2_target. now rewrite Hdir. }
  rewrite Ht, bool_decide_eq_false_2 by assumption.
  destruct Hfree as [E|(r & old & E)]; rewrite E; [|reflexivity].
  unfold PyPath.join at 1. now rewrite removelast_last, Hdir.
Qed.

(** Whatever [copy_file] does, it writes at most the path [copy2] aims
    at. *)
Lemma copy_file_elsewhere (src dst q : path) (w : world) :
  q <> copy2_target (fs w) src (copy_dest w dst) ->
  fs (snd (copy_file src dst w)) !! q = fs w !! q.
Proof.
  intros Hq.
  destruct (copy_file_cases src dst w) as [E|(data & _ & E)]; rewrite E;
    [reflexivity|].
  cbn. now rewrite lookup_insert_ne by congruence.
Qed.

(** ** The destination collision policy *)



(** C8, as stated, fails: [out/a.jpg] exists, so the first of two files
    named [a.jpg] is written to [out/a_copy.jpg]; the second one is written
    to the same path and replaces it. *)
Lemma second_copy_replaces_first :
  trace shelf_after_one = [Copied ["E"; "x"; "a.jpg"] ["out"; "a_copy.jpg"]] /\
  fs shelf_after_one !! ["out"; "a_copy.jpg"] = Some (File true (bytes "one")) /\
  trace shelf_after_two =
    [Copied ["E"; "y"; "a.jpg"] ["out"; "a_copy.jpg"];
     Copied ["E"; "x"; "a.jpg"] ["out"; "a_copy.jpg"]] /\
  fs shelf_after_two !! ["out"; "a_copy.jpg"] = Some (File true (bytes "two")) /\
  bytes "one" <> bytes "two".
Proof. vm_compute. repeat split; discriminate. Qed.

(** C8, amended. (1) When the destination exists, [copy_file] aims at
    [name_copy.ext] in the same directory, a path different from the
    destination; whatever happens the entry at the destination is left as
    it was, and no path is written but the one [copy2] aims at. What is at
    [name_copy.ext] is not checked. A copy the system accepts puts the
    source's bytes at [name_copy.ext] when that name is free, puts them in
    the place of the file that is there, and, when a directory is there,
    puts them into that directory under the source's own name. (2) When
    the destination is free and the first copy is accepted, the first file
    is at the destination, and a second copy aimed at the same destination
    leaves it there; the second file is at [name_copy.ext] when that name
    was free or held a file, and inside it when it was a directory. *)
Theorem collision_policy (w : world) (src1 src2 dst : path)
    (d1 d2 : list Byte.byte) :
  (is_Some (fs w !! dst) ->
     copy_dest w dst = copy_name dst /\
     PyPath.name (copy_name dst) =
       PyPath.stem dst +:+ "_copy" +:+ PyPath.suffix dst /\
     removelast (copy_name dst) = removelast dst /\
     copy_name dst <> dst /\
     fs (snd (copy_file src1 dst w)) !! dst = fs w !! dst /\
     (fs w !! src1 = Some (File true d1) ->
      fs w !! copy_name dst = None ->
      fs w !! removelast dst = Some Dir ->
      copy_name dst ∉ denied w ->
      fs (snd (copy_file src1 dst w)) !! copy_name dst = Some (File true d1)) /\
     (forall (r : bool) (old : list Byte.byte),
      fs w !! src1 = Some (File true d1) ->
      fs w !! copy_name dst = Some (File r old) ->
      copy_name dst ∉ denied w ->
      fs (snd (copy_file src1 dst w)) !! copy_name dst = Some (File true d1)) /\
     (fs w !! src1 = Some (File true d1) ->
      fs w !! copy_name dst = Some Dir ->
      PyPath.join (copy_name dst) (PyPath.name src1) ∉ denied w ->
      fs w !! PyPath.join (copy_name dst) (PyPath.name src1) <> Some Dir ->
      fs (snd (copy_file src1 dst w))
        !! PyPath.join (copy_name dst) (PyPath.name src1)
        = Some (File true d1) /\
      fs (snd (copy_file src1 dst w)) !! copy_name dst = Some Dir) /\
     (forall q, q <> copy2_target (fs w) src1 (copy_name dst) ->
      fs (snd (copy_file src1 dst w)) !! q = fs w !! q))
  /\
  (fs w !! dst = None ->
   fs w !! removelast dst = Some Dir ->
   dst ∉ denied w ->
   fs w !! src1 = Some (File true d1) ->
   let w1 := snd (copy_file src1 dst w) in
   let w2 := snd (copy_file src2 dst w1) in
   fs w1 !! dst = Some (File true d1) /\
   fs w2 !! dst = Some (File true d1) /\
   (fs w1 !! src2 = Some (File true d2) ->
    fs w1 !! copy_name dst = None ->
    copy_name dst ∉ denied w ->
    fs w2 !! copy_name dst = Some (File true d2)) /\
   (forall (r : bool) (old : list Byte.byte),
    fs w1 !! src2 = Some (File true d2) ->
    fs w1 !! copy_name dst = Some (File r old) ->
    copy_name dst ∉ denied w ->
    fs w2 !! copy_name dst = Some (File true d2)) /\
   (fs w1 !! src2 = Some (File true d2) ->
    fs w1 !! copy_name dst = Some Dir ->
    PyPath.join (copy_name dst) (PyPath.name src2) ∉ denied w ->
    fs w1 !! PyPath.join (copy_name dst) (PyPath.name src2) <> Some Dir ->
    fs w2 !! PyPath.join (copy_name dst) (PyPath.name src2)
      = Some (File true d2))).
Proof.
  assert (Hexists : forall (v : world) (src : path) (d : list Byte.byte),
    is_Some (fs v !! dst) ->
    copy_dest v dst = copy_name dst /\
    (fs v !! src = Some (File true d) ->
     fs v !! copy_name dst = None ->
     fs v !! removelast dst = Some Dir ->
     copy_name dst ∉ denied v ->
     fs (snd (copy_file src dst v)) !! copy_name dst = Some (File true d)) /\
    (forall (r : bool) (old : list Byte.byte),
     fs v !! src = Some (File true d) ->
     fs v !! copy_name dst = Some (File r old) ->
     copy_name dst ∉ denied v ->
     fs (snd (copy_file src dst v)) !! copy_name dst = Some (File true d)) /\
    (fs v !! src = Some (File true d) ->
     fs v !! copy_name dst = Some Dir ->
     PyPath.join (copy_name dst) (PyPath.name src) ∉ denied v ->
     fs v !! PyPath.join (copy_name dst) (PyPath.name src) <> Some Dir ->
     fs (snd (copy_file src dst v)) !! PyPath.join (copy_name dst) (PyPath.name src)
       = Some (File true d) /\
     fs (snd (copy_file src dst v)) !! copy_name dst = Some Dir)).
  { intros v src d Hd.
    assert (Hdest : copy_dest v dst = copy_name dst).
    { unfold copy_dest. now rewrite bool_decide_eq_true_2. }
    split; [exact Hdest|]. split; [|split].
    - intros Hs Hfree Hdir Hden.
      assert (Hrun := copy_file_lands src dst d v Hs).
      rewrite Hdest, copy_name_dir in Hrun.
      rewrite (Hrun Hden (or_introl (conj Hfree Hdir))). simpl.
      apply lookup_insert_eq.
    - intros r old Hs Hfile Hden.
      assert (Hrun := copy_file_lands src dst d v Hs).
      rewrite Hdest in Hrun.
      rewrite (Hrun Hden (or_intror (ex_intro _ r (ex_intro _ old Hfile)))).
      simpl. apply lookup_insert_eq.
    - intros Hs Hdir Hden Hnodir.
      assert (Hrun := copy_file_into src dst d v Hs).
      rewrite Hdest in Hrun. specialize (Hrun Hdir Hden).
      rewrite Hrun.
      + simpl. split; [apply lookup_insert_eq|].
        rewrite lookup_insert_ne; [exact Hdir|].
        unfold PyPath.join. intros E. apply (f_equal length) in E.
        rewrite length_app in E. simpl in E. lia.
      + destruct (fs v !! PyPath.join (copy_name dst) (PyPath.name src))
          as [[|r old]|]; [contradiction|right; eauto|now left]. }
  split.
  - intros Hd. destruct (Hexists w src1 d1 Hd) as (Hdest & Hland & Hfile & Hinto).
    split; [exact Hdest|]. split; [apply copy_name_name|].
    split; [apply copy_name_dir|]. split; [apply copy_name_fresh|].
    split; [now apply copy_file_protects|].
    split; [exact Hland|]. split; [exact Hfile|]. split; [exact Hinto|].
    intros q Hq. apply copy_file_elsewhere. now rewrite Hdest.
  - intros Hfree Hdir Hden Hs w1 w2.
    assert (Hdest : copy_dest w dst = dst).
    { unfold copy_dest. rewrite bool_decide_eq_false_2; [reflexivity|].
      rewrite Hfree. intros [x Hx]; discriminate. }
    assert (Hrun := copy_file_lands src1 dst d1 w Hs).
    rewrite Hdest in Hrun.
    specialize (Hrun Hden (or_introl (conj Hfree Hdir))).
    assert (H1 : fs w1 !! dst = Some (File true d1)).
    { subst w1. rewrite Hrun. simpl. apply lookup_insert_eq. }
    assert (Hden1 : denied w1 = denied w) by (subst w1; now rewrite Hrun).
    assert (Hdir1 : fs w1 !! removelast dst = Some Dir).
    { subst w1. rewrite Hrun. simpl. rewrite lookup_insert_ne; [exact Hdir|].
      intros E. rewrite <- E in Hdir. rewrite Hfree in Hdir. discriminate. }
    split; [exact H1|]. split.
    { subst w2. rewrite copy_file_protects; [exact H1|]. rewrite H1. eauto. }
    destruct (Hexists w1 src2 d2) as (_ & Hland & Hfile & Hinto);
      [rewrite H1; eauto|].
    split; [|split].
    + intros Hs2 Hfree2 Hden2. apply Hland; auto. now rewrite Hden1.
    + intros r old Hs2 Hfile2 Hden2. apply (Hfile r old); auto.
      now rewrite Hden1.
    + intros Hs2 Hdir2 Hden2 Hnodir. apply Hinto; auto. now rewrite Hden1.
Qed.

(** In front of an empty output directory the first file keeps [a.jpg] and
    the second one lands at [a_copy.jpg]. *)
Lemma collision_policy_witness :
  fs (snd (copy_file ["E"; "y"; "a.jpg"] ["out"; "a.jpg"]
             (snd (copy_file ["E"; "x"; "a.jpg"] ["out"; "a.jpg"] bare_shelf))))
    !! ["out"; "a.jpg"] = Some (File true (bytes "one")) /\
  fs (snd (copy_file ["E"; "y"; "a.jpg"] ["out"; "a.jpg"]
             (snd (copy_file ["E"; "x"; "a.jpg"] ["out"; "a.jpg"] bare_shelf))))
    !! ["out"; "a_copy.jpg"] = Some (File true (bytes "two")).
Proof.
  destruct (proj2 (collision_policy bare_shelf ["E"; "x"; "a.jpg"]
                     ["E"; "y"; "a.jpg"] ["out"; "a.jpg"]
                     (bytes "one") (bytes "two")))
    as (_ & Hkept & Hsecond & _).
  - vm_compute. reflexivity.
  - vm_compute. reflexivity.
  - vm_compute. discriminate.
  - vm_compute. reflexivity.
  - split; [exact Hkept|]. apply Hsecond.
    + vm_compute. reflexivity.
    + vm_compute. reflexivity.
    + vm_compute. discriminate.
Defined.

(** ** Directories *)

Lemma mkdir_parents_keeps (rest prefix : path) (f f' : gmap path node) :
  mkdir_parents prefix rest f = inr f' ->
  forall p, is_Some (f !! p) -> f' !! p = f !! p.
Proof.
  revert prefix f; induction rest as [|c rest IH]; intros prefix f H p Hp;
    simpl in H.
  - now inversion H.
  - destruct (f !! (prefix ++ [c])%list) as [[|r d]|] eqn:E; try discriminate.
    + eapply IH; eauto.
    + rewrite (IH _ _ H p).
      * apply lookup_insert_ne. intros <-. rewrite E in Hp.
        destruct Hp; discriminate.
      * rewrite lookup_insert_ne; [exact Hp|].
        intros <-. rewrite E in Hp. destruct Hp; discriminate.
Qed.

Lemma mkdir_parents_error (rest prefix : path) (f : gmap path node) (e : exn) :
  mkdir_parents prefix rest f = inl e -> e = OSError.
Proof.
  revert prefix f; induction rest as [|c rest IH]; intros prefix f H;
    simpl in H; [discriminate|].
  destruct (f !! (prefix ++ [c])%list) as [[|r d]|]; eauto; congruence.
Qed.

(** [create_directory_or_file] either raises and leaves the store, or
    returns the joined path after adding directories where nothing was. *)
Lemma create_directory_cases (out : path) (n : string) (w : world) :
  create_directory_or_file out n w = (inl OSError, w) \/
  exists f,
    create_directory_or_file out n w = (inr (PyPath.join out n), set_fs f w) /\
    forall p, is_Some (fs w !! p) -> f !! p = fs w !! p.
Proof.
  unfold create_directory_or_file, bind, exists_, gets, ret, mkdir.
  case_bool_decide.
  - right. exists (fs w). split; [now destruct w|auto].
  - destruct (mkdir_parents [] (PyPath.join out n) (fs w)) as [e|f] eqn:E.
    + left. now rewrite (mkdir_parents_error _ _ _ _ E).
    + right. exists f. split; [reflexivity|].
      eapply mkdir_parents_keeps; eauto.
Qed.

(** ** Draining a bucket *)

Lemma copy_file_quiet (src dst : path) (w : world) :
  let w' := snd (copy_file src dst w) in
  denied w' = denied w /\ state_json w' = state_json w /\
  copied w' = copied w /\ saves (trace w') = saves (trace w) /\
  attempts (trace w') = src :: attempts (trace w).
Proof.
  destruct (copy_file_cases src dst w) as [E|(data & _ & E)]; rewrite E;
    simpl; auto.
Qed.

Lemma copy_pending_run (dir : path) (c : string) (p : path) (sz : Z)
    (acc : Z * nat) (w : world) :
  copy_pending dir (c, p, sz) acc w =
    (inr (fst acc + sz, S (snd acc)),
     let w1 := snd (copy_file p (PyPath.join dir (PyPath.name p)) w) in
     set_copied ({[c]} ∪ copied w1) w1).
Proof.
  unfold copy_pending, bind, copied_add, modify, ret.
  rewrite copy_file_run. reflexivity.
Qed.

(** The inner loop of a drain never raises; it counts every record, adds
    every checksum, and writes no state. *)
Lemma drain_bucket (dir : path) (files : list pending) (acc : Z * nat)
    (w : world) :
  exists acc' w',
    for_each files (copy_pending dir) acc w = (inr acc', w') /\
    snd acc' = (snd acc + length files)%nat /\
    saves (trace w') = saves (trace w) /\
    state_json w' = state_json w /\
    denied w' = denied w /\
    copied w' = list_to_set (map (fun r => fst (fst r)) files) ∪ copied w /\
    attempts (trace w') =
      (rev (map (fun r => snd (fst r)) files) ++ attempts (trace w))%list.
Proof.
  revert acc w; induction files as [|[[c p] sz] files IH]; intros acc w.
  - exists acc, w. simpl. repeat split; auto. set_solver.
  - cbn [for_each]. unfold bind at 1. rewrite copy_pending_run.
    destruct (copy_file_quiet p (PyPath.join dir (PyPath.name p)) w)
      as (Hd & Hj & Hc & Hs & Ha).
    set (w1 := snd (copy_file p (PyPath.join dir (PyPath.name p)) w)) in *.
    cbv zeta.
    destruct (IH (fst acc + sz, S (snd acc)) (set_copied ({[c]} ∪ copied w1) w1))
      as (acc' & w' & E & Hn & Hs' & Hj' & Hd' & Hc' & Ha').
    exists acc', w'. rewrite E. simpl in *.
    repeat split; try congruence; try lia.
    + rewrite Hc', Hc. set_solver.
    + rewrite Ha', Ha, <- app_assoc. reflexivity.
Qed.

Lemma save_copied_run (w : world) :
  save_copied w =
    (inr tt,
     log (Saved (elements (copied w)))
         (set_state_json (JsonList (elements (copied w))) w)).
Proof. reflexivity. Qed.

(** One tier of the drain: a raised error leaves the saves as they were; a
    normal return has counted the bucket and saved once exactly when the
    running count is positive and the ledger is not temporary. *)
Lemma copy_priority_saves (out : path) (temp : bool) (k : string)
    (files : list pending) (acc : Z * nat) (w : world) :
  match copy_priority out temp (k, files) acc w with
  | (inl _, w') => saves (trace w') = saves (trace w)
  | (inr acc', w') =>
      snd acc' = (snd acc + length files)%nat /\
      saves (trace w') =
        (saves (trace w) +
         (if (Nat.ltb 0 (snd acc') && negb temp)%bool then 1 else 0))%nat
  end.
Proof.
  unfold copy_priority.
  destruct files as [|r files].
  - unfold bind at 1. unfold ret at 1. unfold bind.
    destruct (Nat.ltb 0 (snd acc)) eqn:E; destruct temp; simpl;
      rewrite ?E; simpl; split; lia.
  - unfold bind at 1. unfold bind at 1.
    destruct (create_directory_cases out
                ("Priority_" +:+ PyStr.upper (PyStr.drop_first k)) w)
      as [E|(f & E & _)]; rewrite E; [reflexivity|].
    destruct (drain_bucket
                (PyPath.join out ("Priority_" +:+ PyStr.upper (PyStr.drop_first k)))
                (r :: files) acc (set_fs f w))
      as (acc' & w' & E' & Hn & Hs & _).
    rewrite E'. unfold bind.
    assert (Hpos : Nat.ltb 0 (snd acc') = true)
      by (apply Nat.ltb_lt; rewrite Hn; simpl; lia).
    rewrite Hpos.
    simpl in Hn, Hs.
    destruct temp; simpl; rewrite ?Hpos; simpl; split; lia.
Qed.


(** *** The order of the copies and the saves of a drain *)










(** ** The fingerprinter on the sample drives *)

Lemma zeros_size : Z.of_nat (length zeros) = 100 * 1024 * 1024.
Proof. unfold zeros. rewrite repeat_length. apply Z2Nat.id. lia. Qed.

(** A file of five bytes takes the full method, a file of 100 MiB the
    partial one. *)
Lemma fingerprint_by_size_witness :
  get_checksum sample_hash ["E"; "note.txt"] 5 small_drive =
    (inr "0000000011db052b_xxh64", small_drive) /\
  get_checksum sample_hash ["E"; "big.bin"] (Z.of_nat (length zeros)) big_drive =
    (inr (hexdigest
            (sample_hash (first_bytes (5 * 1024 * 1024) zeros ++
                          last_bytes (5 * 1024 * 1024) zeros)%list)
          +:+ "_partial_xxh64"), big_drive).
Proof.
  split.
  - refine (proj1 (proj2 (fingerprint_by_size sample_hash small_drive
                            ["E"; "note.txt"] (bytes "hello") _)) _).
    + vm_compute. reflexivity.
    + vm_compute. reflexivity.
  - refine (proj1 (proj1 (proj2 (proj2 (fingerprint_by_size sample_hash big_drive
                            ["E"; "big.bin"] zeros _))) _)).
    + apply lookup_singleton_eq.
    + rewrite zeros_size. lia.
Defined.

(** ** Loops *)

Lemma for_each_app {A S} (xs ys : list A) (body : A -> S -> M S) (s : S)
    (w : world) :
  for_each (xs ++ ys) body s w =
    match for_each xs body s w with
    | (inr s', w') => for_each ys body s' w'
    | (inl e, w') => (inl e, w')
    end.
Proof.
  revert s w; induction xs as [|x xs IH]; intros s w; [reflexivity|].
  simpl. unfold bind. destruct (body x s w) as [[e|s'] w']; [reflexivity|].
  apply IH.
Qed.

(** ** A file that cannot be fingerprinted *)

Section Unreadable.

Variable xxh64 : list Byte.byte -> Z.

Lemma visit_unreadable (out : path) (pl : list string) (dis : gset string)
    (en : bool) (p : path) (data : list Byte.byte) (st : scan) (w : world) :
  fs w !! p = Some (File false data) ->
  visit xxh64 out pl dis en p st w = (inl OSError, w).
Proof.
  intros Hp. unfold visit, bind, get_file_size, get_checksum.
  rewrite Hp. cbn beta iota. rewrite Hp. reflexivity.
Qed.

Lemma visit_vanished (out : path) (pl : list string) (dis : gset string)
    (en : bool) (p : path) (st : scan) (w : world) :
  fs w !! p = None ->
  visit xxh64 out pl dis en p st w = (inl OSError, w).
Proof.
  intros Hp. unfold visit, bind, get_file_size. rewrite Hp. reflexivity.
Qed.

(** C3, amended. A file that cannot be opened for fingerprinting raises an
    error that nothing catches: the scan stops at that file and the run
    ends with the error, in the store as it was when the file was reached.
    So no fingerprint is recorded for the file and it enters no bucket, but
    the files after it and the drives after this one are not visited, and
    what the scan had copied before is not saved. *)
Theorem unreadable_file_ends_run (cfg : settings) (out : path)
    (pl : list string) (temp wants : bool) (d : drive) (ds : list drive)
    (later : list (list drive)) (pre post : list path) (p : path)
    (data : list Byte.byte) (cur : path) (st1 : scan) (w w0 w1 : world) :
  drive_files d = (pre ++ p :: post)%list ->
  create_drive_dir out d w = (inr cur, w0) ->
  for_each pre
    (visit xxh64 cur pl (disabled_extensions cfg) (routing_enabled pl wants))
    (scan_start pl) w0 = (inr st1, w1) ->
  fs w1 !! p = Some (File false data) ->
  walk_through_files xxh64 (drive_files d) cur pl (disabled_extensions cfg)
    temp wants w0 = (inl OSError, w1) /\
  main_loop xxh64 cfg out pl temp wants ((d :: ds) :: later) w =
    (inl OSError, w1).
Proof.
  intros Hfiles Hdir Hpre Hp.
  assert (Hwalk : walk_through_files xxh64 (drive_files d) cur pl
                    (disabled_extensions cfg) temp wants w0 = (inl OSError, w1)).
  { unfold walk_through_files. unfold bind at 1.
    rewrite Hfiles, for_each_app, Hpre. cbn [for_each]. unfold bind at 1.
    now rewrite (visit_unreadable _ _ _ _ _ data). }
  split; [exact Hwalk|].
  cbn [main_loop for_each]. unfold bind at 1. unfold bind at 1.
  unfold process_drive. unfold bind at 1. rewrite Hdir.
  unfold bind at 1. rewrite Hwalk. reflexivity.
Qed.

End Unreadable.

(** C3, as stated, fails: the first file of the drive cannot be opened; the
    run ends with the error and the readable picture after it is never
    copied. *)
Lemma unreadable_file_not_skipped :
  fst (main sample_hash sample_cfg no_answers
         [[Drive "E:" locked_files]] locked_drive) = inl OSError /\
  attempts (trace (snd (main sample_hash sample_cfg no_answers
                          [[Drive "E:" locked_files]] locked_drive))) = [] /\
  fs locked_drive !! ["E"; "ok.jpg"] = Some (File true (bytes "picture")).
Proof. vm_compute. auto. Qed.

(** On the locked drive the loop ends with the error right after the
    directory of the drive was created. *)
Lemma unreadable_file_ends_run_witness :
  main_loop sample_hash sample_cfg ["out"] [".jpg"; ".txt"] false true
    [[Drive "E:" locked_files]] locked_drive =
  (inl OSError,
   snd (create_drive_dir ["out"] (Drive "E:" locked_files) locked_drive)).
Proof.
  refine (proj2 (unreadable_file_ends_run sample_hash sample_cfg ["out"]
                   [".jpg"; ".txt"] false true (Drive "E:" locked_files) [] []
                   [] [ ["E"; "ok.jpg"] ] ["E"; "locked.jpg"] (bytes "secret")
                   ["out"; "Drive_E_copy"]
                   (scan_start [".jpg"; ".txt"])
                   locked_drive _ _ _ _ _ _)).
  - reflexivity.
  - vm_compute. reflexivity.
  - reflexivity.
  - vm_compute. reflexivity.
Defined.

(** ** Sessions on the sample drives *)

(** C1 on the code: [a.txt] and [b.txt] have the same content, hence the
    same fingerprint; both wait in the bucket of the second priority, and
    the drain copies both. *)
Theorem same_fingerprint_copied_twice :
  get_checksum sample_hash ["E"; "a.txt"] 5 twin_drive =
    (inr "0000000011db052b_xxh64", twin_drive) /\
  get_checksum sample_hash ["E"; "b.txt"] 5 twin_drive =
    (inr "0000000011db052b_xxh64", twin_drive) /\
  fst twin_run = inr true /\
  trace (snd twin_run) =
    [ Saved ["0000000011db052b_xxh64"];
      Copied ["E"; "b.txt"] ["out"; "Drive_E_copy"; "Priority_TXT"; "b.txt"];
      Copied ["E"; "a.txt"] ["out"; "Drive_E_copy"; "Priority_TXT"; "a.txt"] ].
Proof. vm_compute. auto. Qed.

(** C2 on the code: the copy of [c.jpg] is refused; [copy_file] catches the
    error and the session goes on, but the fingerprint of [c.jpg] is added
    to the copied set and saved, and the next session, which nothing would
    stop from copying, skips the file. *)
Theorem failed_copy_recorded :
  fst refused_run = inr true /\
  trace (snd refused_run) =
    [ Saved ["00000044b4b89717_xxh64"];
      CopyFailed ["E"; "c.jpg"]
        ["out"; "Drive_E_copy"; "Priority_jpg"; "c.jpg"] ] /\
  copied (snd refused_run) = {[ "00000044b4b89717_xxh64" ]} /\
  state_json (snd refused_run) = JsonList ["00000044b4b89717_xxh64"] /\
  fst refused_rerun = inr true /\
  trace (snd refused_rerun) = [] /\
  fs (snd refused_rerun) !! ["out"; "Drive_E_copy"; "Priority_jpg"; "c.jpg"]
    = None.
Proof. repeat split; vm_compute; reflexivity. Qed.

(** C7 on the code: a user who asks for a temporary state gets a
    [TypeError] out of [prompts]; no drive is processed. *)
Theorem temporary_state_raises :
  fst temp_run = inl TypeError /\
  snd temp_run = twin_drive.
Proof. vm_compute. auto. Qed.

(** ** The priority list *)

Lemma lower_char_idem (c : ascii) :
  PyStr.lower_char (PyStr.lower_char c) = PyStr.lower_char c.
Proof. destruct c as [[] [] [] [] [] [] [] []]; reflexivity. Qed.

Lemma lower_idem (s : string) : PyStr.lower (PyStr.lower s) = PyStr.lower s.
Proof.
  induction s as [|c s IH]; [reflexivity|].
  cbn [PyStr.lower]. now rewrite lower_char_idem, IH.
Qed.

Lemma priority_loop_normal (raw : list string) (seen : gset string)
    (acc : list string) :
  seen = list_to_set acc -> NoDup acc -> Forall normalized acc ->
  NoDup (priority_loop raw seen acc) /\
  Forall normalized (priority_loop raw seen acc).
Proof.
  revert seen acc; induction raw as [|x raw IH]; intros seen acc Hseen Hnd Hall;
    cbn [priority_loop]; [auto|].
  destruct (is_extension_valid (PyStr.lower x)) eqn:Hvalid; cbn [andb];
    [|now apply IH].
  case_bool_decide as Hin; cbn [negb]; [now apply IH|].
  apply IH.
  - subst seen. rewrite list_to_set_app_L. set_solver.
  - apply NoDup_app. split; [exact Hnd|]. split; [|apply NoDup_singleton].
    intros y Hy Hy'. apply list_elem_of_singleton in Hy'. subst y seen.
    apply Hin. now apply elem_of_list_to_set.
  - apply Forall_app. split; [exact Hall|].
    apply Forall_singleton. split; [apply lower_idem|exact Hvalid].
Qed.

Lemma priority_list_normal (cfg : settings) :
  NoDup (get_priority_list cfg) /\ Forall normalized (get_priority_list cfg).
Proof.
  apply priority_loop_normal; [reflexivity|constructor|constructor].
Qed.

Lemma disabled_lower (cfg : settings) (e : string) :
  e ∈ disabled_extensions cfg -> PyStr.lower e = e.
Proof.
  unfold disabled_extensions. rewrite elem_of_list_to_set.
  intros H. apply list_elem_of_In, in_map_iff in H.
  destruct H as (x & <- & _). apply lower_idem.
Qed.

(** ** Positions in the priority list and in the buckets *)

Lemma index_of_lookup (x : string) (l : list string) (i : nat) :
  index_of x l = Some i -> l !! i = Some x.
Proof.
  revert i; induction l as [|y l IH]; intros i H; cbn [index_of] in H;
    [discriminate|].
  destruct (String.eqb_spec x y) as [->|Hne].
  - now inversion H.
  - destruct (index_of x l) as [j|]; [|discriminate].
    inversion H; subst. apply IH. reflexivity.
Qed.

Lemma index_of_none (x : string) (l : list string) :
  index_of x l = None <-> x ∉ l.
Proof.
  induction l as [|y l IH]; cbn [index_of].
  - split; [intros _ H; inversion H|reflexivity].
  - destruct (String.eqb_spec x y) as [->|Hne].
    + split; [discriminate|]. intros H. exfalso. apply H. left.
    + rewrite not_elem_of_cons. destruct (index_of x l) as [j|].
      * split; [discriminate|]. intros [_ H]. now apply IH in H.
      * split; [|reflexivity]. intros _. split; [exact Hne|]. now apply IH.
Qed.

Lemma index_of_first (x : string) (l : list string) (i : nat) :
  NoDup l -> l !! i = Some x -> index_of x l = Some i.
Proof.
  intros Hnd; revert i; induction Hnd as [|y l Hy Hnd IH]; intros i H;
    [discriminate|].
  cbn [index_of]. destruct i as [|i].
  - inversion H; subst. now rewrite String.eqb_refl.
  - cbn in H. destruct (String.eqb_spec x y) as [->|Hne].
    + exfalso. apply Hy. eapply list_elem_of_lookup_2; eauto.
    + now rewrite (IH i H).
Qed.

Lemma dict_at_index (x : string) (lp : buckets) (i : nat) (rec : pending) :
  index_of x (map fst lp) = Some i ->
  exists b,
    dict_get x lp = Some b /\
    dict_set x (bucket_add rec b) lp = add_to_tier i rec lp.
Proof.
  revert i; induction lp as [|[k v] lp IH]; intros i H; cbn in H;
    [discriminate|].
  cbn [dict_get dict_set]. destruct (String.eqb x k).
  - inversion H; subst. exists v. split; reflexivity.
  - destruct (index_of x (map fst lp)) as [j|] eqn:E; [|discriminate].
    inversion H; subst. destruct (IH j eq_refl) as (b & Hg & Hs).
    exists b. split; [exact Hg|]. rewrite Hs. reflexivity.
Qed.

(** The buckets start with the keys [priority_list[1:]], in order. *)
Lemma dict_set_fresh (k : string) (d : buckets) :
  k ∉ map fst d -> dict_set k [] d = (d ++ [(k, [])])%list.
Proof.
  induction d as [|[k' v] d IH]; intros H; cbn [dict_set]; [reflexivity|].
  cbn in H. apply not_elem_of_cons in H as [Hne H].
  destruct (String.eqb_spec k k') as [->|_]; [congruence|].
  now rewrite IH.
Qed.

Lemma empty_buckets_keys (keys : list string) :
  NoDup keys ->
  map fst (empty_buckets keys) = keys /\
  Forall (fun item => snd item = []) (empty_buckets keys).
Proof.
  unfold empty_buckets.
  assert (H : forall (ks : list string) (d : buckets),
    NoDup (map fst d ++ ks) ->
    Forall (fun item => snd item = []) d ->
    map fst (fold_left (fun d k => dict_set k [] d) ks d) = (map fst d ++ ks)%list /\
    Forall (fun item => snd item = [])
           (fold_left (fun d k => dict_set k [] d) ks d)).
  { induction ks as [|k ks IH]; intros d Hnd Hall; cbn [fold_left].
    - now rewrite app_nil_r.
    - assert (Hk : k ∉ map fst d).
      { apply NoDup_app in Hnd as (_ & Hdis & _). intros Hin.
        apply (Hdis k Hin). left. }
      rewrite dict_set_fresh by exact Hk.
      replace (map fst d ++ k :: ks)%list
        with (map fst (d ++ [(k, [])]) ++ ks)%list in *
        by (rewrite map_app, <- app_assoc; reflexivity).
      apply IH; [exact Hnd|].
      apply Forall_app. split; [exact Hall|]. now apply Forall_singleton. }
  intros Hnd. apply (H keys []); [exact Hnd|constructor].
Qed.

(** ** The priority classifier in the scan *)

Section Classifier.

Variable xxh64 : list Byte.byte -> Z.

Lemma classify_tier (routing : bool) (ext : string) (pl : list string)
    (dis : gset string) (i : nat) :
  NoDup pl ->
  (routing = true -> pl <> []) ->
  classify routing ext pl dis = Tier i <-> routing = true /\ pl !! i = Some ext.
Proof.
  intros Hnd Hne. unfold classify.
  assert (Hun : (if bool_decide (ext ∈ dis) then Disabled else NonPriority)
                <> Tier i) by (case_bool_decide; discriminate).
  destruct routing; cbn [negb].
  2:{ split; [intros H; now apply Hun in H|intros [H _]; discriminate]. }
  destruct pl as [|first others]; [now destruct Hne|].
  destruct (String.eqb_spec ext first) as [->|Hneq].
  - split.
    + intros H; inversion H; subst. auto.
    + intros [_ H]. apply (index_of_first _ _ _ Hnd) in H.
      cbn [index_of] in H. rewrite String.eqb_refl in H. congruence.
  - destruct (index_of ext others) as [j|] eqn:E.
    + split.
      * intros H; inversion H; subst. split; [reflexivity|].
        cbn. now apply index_of_lookup.
      * intros [_ H]. apply (index_of_first _ _ _ Hnd) in H.
        cbn [index_of] in H.
        destruct (String.eqb_spec ext first); [contradiction|].
        rewrite E in H. cbn in H. congruence.
    + split; [intros H; now apply Hun in H|].
      intros [_ H]. apply (index_of_first _ _ _ Hnd) in H.
      cbn [index_of] in H.
      destruct (String.eqb_spec ext first); [contradiction|].
      rewrite E in H. discriminate.
Qed.

Lemma visit_routes (out : path) (pl : list string) (dis : gset string)
    (wants : bool) (p : path) (data : list Byte.byte) (c : string)
    (st : scan) (w : world) :
  Forall normalized pl ->
  fs w !! p = Some (File true data) ->
  checksum_of xxh64 data (Z.of_nat (length data)) = inr c ->
  c ∉ copied w ->
  map fst (lower_priority_files st) = tl pl ->
  visit xxh64 out pl dis (routing_enabled pl wants) p st w =
    route (classify (routing_enabled pl wants)
                    (PyStr.lower (PyPath.suffix p)) pl dis)
          (routing_enabled pl wants) out pl p c (Z.of_nat (length data)) st w.
Proof.
  intros Hnorm Hp Hc Hnew Hkeys.
  unfold visit. unfold bind at 1. unfold get_file_size at 1. rewrite Hp.
  unfold bind at 1. unfold get_checksum at 1. rewrite Hp, Hc.
  unfold bind at 1. unfold gets at 1.
  rewrite (bool_decide_eq_false_2 _ Hnew).
  set (ext := PyStr.lower (PyPath.suffix p)).
  unfold classify.
  destruct (routing_enabled pl wants) eqn:Hr; cbn [negb].
  - destruct pl as [|first others]; [discriminate|].
    apply Forall_cons in Hnorm as [[Hlow _] _].
    cbn [hd]. rewrite Hlow. cbn [tl] in Hkeys.
    destruct (String.eqb_spec ext first) as [Heq|Hneq].
    + rewrite bool_decide_eq_true_2 by (rewrite Heq; left). reflexivity.
    + destruct (index_of ext others) as [i|] eqn:E.
      * rewrite bool_decide_eq_true_2
          by (right; eapply list_elem_of_lookup_2, index_of_lookup; eauto).
        rewrite <- Hkeys in E.
        destruct (dict_at_index ext (lower_priority_files st) i
                    (c, p, Z.of_nat (length data)) E) as (b & Hg & Hs).
        rewrite Hg. cbv zeta. rewrite Hs. reflexivity.
      * apply index_of_none in E.
        rewrite bool_decide_eq_false_2
          by (intros H; apply elem_of_cons in H as [H|H]; auto).
        cbn [route]. destruct (decide (ext ∈ dis)) as [Hd|Hd].
        -- rewrite (bool_decide_eq_true_2 _ Hd).
           rewrite bool_decide_eq_false_2 by auto. reflexivity.
        -- rewrite (bool_decide_eq_false_2 _ Hd).
           rewrite bool_decide_eq_true_2 by auto. reflexivity.
  - destruct (decide (ext ∈ dis)) as [Hd|Hd].
    + rewrite (bool_decide_eq_true_2 _ Hd).
      rewrite bool_decide_eq_false_2 by auto. reflexivity.
    + rewrite (bool_decide_eq_false_2 _ Hd).
      rewrite bool_decide_eq_true_2 by auto. reflexivity.
Qed.

(** C5. [pl] is the priority list [main] hands to the scan. The scan routes
    every file it has not skipped by the class the rule gives its
    lower-cased extension: (a) routing disabled: disabled if
    the extension is in the disabled set, non-priority otherwise; (b) the
    first entry of the priority list: tier 0; (c) another entry: the tier
    of that entry's position; (d) the disabled set: disabled; (e)
    non-priority. The class is [Tier i] exactly when routing is enabled and
    the extension is the [i]-th entry, so an entry of the priority list that
    is also disabled keeps its tier; and every entry of the priority list
    and of the disabled set is lower-case, as is the extension compared
    with them. *)
Theorem routing_follows_classification (cfg : settings) (wants : bool)
    (out p : path) (data : list Byte.byte) (c : string) (st : scan)
    (w : world) :
  let pl := if wants then get_priority_list cfg else [] in
  let dis := disabled_extensions cfg in
  let routing := routing_enabled pl wants in
  let ext := PyStr.lower (PyPath.suffix p) in
  let size := Z.of_nat (length data) in
  fs w !! p = Some (File true data) ->
  checksum_of xxh64 data size = inr c ->
  c ∉ copied w ->
  map fst (lower_priority_files st) = tl pl ->
  visit xxh64 out pl dis routing p st w =
    route (classify routing ext pl dis) routing out pl p c size st w /\
  (forall i, classify routing ext pl dis = Tier i <->
             routing = true /\ pl !! i = Some ext) /\
  (routing = true -> ext ∈ pl -> ext ∈ dis ->
   exists i, classify routing ext pl dis = Tier i /\ pl !! i = Some ext) /\
  PyStr.lower ext = ext /\
  Forall (fun e => PyStr.lower e = e) pl /\
  (forall e, e ∈ dis -> PyStr.lower e = e).
Proof.
  intros pl dis routing ext size Hp Hc Hnew Hkeys.
  assert (Hpl : NoDup pl /\ Forall normalized pl).
  { subst pl. destruct wants; [apply priority_list_normal|].
    split; constructor. }
  destruct Hpl as [Hnd Hnorm].
  assert (Htier : forall i, classify routing ext pl dis = Tier i <->
                            routing = true /\ pl !! i = Some ext).
  { intros i. apply classify_tier; [exact Hnd|].
    subst routing. destruct pl; [discriminate|congruence]. }
  split; [now apply visit_routes|].
  split; [exact Htier|].
  split.
  - intros Hr Hin _. apply list_elem_of_lookup_1 in Hin as [i Hi].
    exists i. split; [apply Htier|]; auto.
  - split; [apply lower_idem|]. split.
    + eapply Forall_impl; [exact Hnorm|]. now intros e [He _].
    + apply disabled_lower.
Qed.

End Classifier.

(** With [.txt] both second priority and disabled, [note.txt] joins the
    bucket of the second priority. *)
Lemma routing_follows_classification_witness :
  visit sample_hash ["out"] (get_priority_list overlap_cfg)
    (disabled_extensions overlap_cfg)
    (routing_enabled (get_priority_list overlap_cfg) true)
    ["E"; "note.txt"] (scan_start (get_priority_list overlap_cfg)) small_drive =
  (inr (Scan [(".txt", [("0000000011db052b_xxh64", ["E"; "note.txt"], 5)])]
             [] true 0 0),
   small_drive) /\
  ".txt" ∈ disabled_extensions overlap_cfg.
Proof.
  split; [|vm_compute; reflexivity].
  rewrite (proj1 (routing_follows_classification sample_hash overlap_cfg true
                    ["out"] ["E"; "note.txt"] (bytes "hello")
                    "0000000011db052b_xxh64"
                    (scan_start (get_priority_list overlap_cfg)) small_drive
                    ltac:(vm_compute; reflexivity)
                    ltac:(vm_compute; reflexivity)
                    ltac:(vm_compute; discriminate)
                    ltac:(vm_compute; reflexivity))).
  vm_compute. reflexivity.
Defined.

(** ** What a session leaves outside its output directory *)

Lemma keeps_refl (out : path) (f : gmap path node) : keeps out f f.
Proof. intros p _. now left. Qed.

Lemma keeps_trans (out : path) (f g h : gmap path node) :
  keeps out f g -> keeps out g h -> keeps out f h.
Proof.
  intros Hfg Hgh p Hp.
  destruct (Hfg p Hp) as [E|[E1 E2]], (Hgh p Hp) as [E'|[E1' E2']].
  - left. congruence.
  - right. split; congruence.
  - right. split; congruence.
  - congruence.
Qed.

Lemma mkdir_parents_adds (rest prefix : path) (f f' : gmap path node) :
  mkdir_parents prefix rest f = inr f' ->
  forall p, f' !! p = f !! p \/ (f !! p = None /\ f' !! p = Some Dir).
Proof.
  revert prefix f; induction rest as [|c rest IH]; intros prefix f H p;
    simpl in H.
  - inversion H. now left.
  - destruct (f !! (prefix ++ [c])%list) as [[|r d]|] eqn:E; try discriminate.
    + eapply IH; eauto.
    + destruct (IH _ _ H p) as [E'|[E1 E2]].
      * destruct (decide ((prefix ++ [c])%list = p)) as [<-|Hne].
        -- right. split; [exact E|]. now rewrite E', lookup_insert_eq.
        -- left. now rewrite E', lookup_insert_ne.
      * destruct (decide ((prefix ++ [c])%list = p)) as [<-|Hne].
        -- rewrite lookup_insert_eq in E1. discriminate.
        -- rewrite lookup_insert_ne in E1 by exact Hne. now right.
Qed.

(** [create_directory_or_file] again: it raises and leaves the store, or
    it returns the joined path and has only added directories. *)
Lemma create_directory_grows (out : path) (n : string) (w : world) :
  create_directory_or_file out n w = (inl OSError, w) \/
  exists f,
    create_directory_or_file out n w = (inr (PyPath.join out n), set_fs f w) /\
    forall p, f !! p = fs w !! p \/ (fs w !! p = None /\ f !! p = Some Dir).
Proof.
  unfold create_directory_or_file, bind, exists_, gets, ret, mkdir.
  case_bool_decide.
  - right. exists (fs w). split; [now destruct w|]. intros p. now left.
  - destruct (mkdir_parents [] (PyPath.join out n) (fs w)) as [e|f] eqn:E.
    + left. now rewrite (mkdir_parents_error _ _ _ _ E).
    + right. exists f. split; [reflexivity|].
      eapply mkdir_parents_adds; eauto.
Qed.

Lemma prefix_of_app_r (out base k : path) :
  out `prefix_of` base -> out `prefix_of` (base ++ k)%list.
Proof. intros [m ->]. exists (m ++ k)%list. now rewrite app_assoc. Qed.

(** A copy aimed at a name inside [base] writes inside [base]. *)
Lemma copy_file_keeps (out base : path) (n : string) (src : path) (w : world) :
  out `prefix_of` base ->
  keeps out (fs w) (fs (snd (copy_file src (base ++ [n])%list w))).
Proof.
  intros Hout p Hp.
  destruct (copy_file_cases src (base ++ [n])%list w) as [E|(data & _ & E)];
    rewrite E; cbn; [now left|].
  left. apply lookup_insert_ne. intros <-. apply Hp.
  assert (Hd : exists n', copy_dest w (base ++ [n])%list = (base ++ [n'])%list).
  { unfold copy_dest. case_bool_decide; [|eauto].
    unfold copy_name, PyPath.with_name. rewrite removelast_last. eauto. }
  destruct Hd as [n' ->]. unfold copy2_target.
  destruct (fs w !! (base ++ [n'])%list) as [[|r d]|];
    unfold PyPath.join; repeat apply prefix_of_app_r; exact Hout.
Qed.

Lemma only_dirs_refl (w : world) : only_dirs w w.
Proof. repeat split. intros q. now left. Qed.

Lemma only_dirs_trans (w1 w2 w3 : world) :
  only_dirs w1 w2 -> only_dirs w2 w3 -> only_dirs w1 w3.
Proof.
  intros (Hj & Hc & Ht & Hf) (Hj' & Hc' & Ht' & Hf').
  repeat split; try congruence.
  intros q. destruct (Hf q) as [E|[E1 E2]], (Hf' q) as [E'|[E1' E2']].
  - left. congruence.
  - right. split; congruence.
  - right. split; congruence.
  - congruence.
Qed.

Lemma only_dirs_keeps (out : path) (w w' : world) :
  only_dirs w w' -> keeps out (fs w) (fs w').
Proof. intros (_ & _ & _ & Hf) q _. apply Hf. Qed.

Lemma create_directory_effect (out : path) (n : string) (w : world) :
  match create_directory_or_file out n w with
  | (inl _, w') => w' = w
  | (inr d, w') => d = PyPath.join out n /\ only_dirs w w'
  end.
Proof.
  destruct (create_directory_grows out n w) as [E|(f & E & Hf)]; rewrite E;
    [reflexivity|].
  split; [reflexivity|]. repeat split. exact Hf.
Qed.

(** [copy_file] then [copied.add], after the directories are there. *)
Lemma copy_and_record {S} (out base : path) (n : string) (p : path)
    (c : string) (st' : S) (w0 w : world) :
  out `prefix_of` base ->
  only_dirs w0 w ->
  exists w',
    bind (copy_file p (base ++ [n])%list)
         (fun _ => bind (copied_add c) (fun _ => ret st')) w = (inr st', w') /\
    one_copy out p c w0 w'.
Proof.
  intros Hout Hd. unfold bind, copied_add, modify, ret.
  rewrite copy_file_run.
  pose proof (copy_file_quiet p (base ++ [n])%list w) as (_ & Hj & Hc & Hs & Ha).
  pose proof (copy_file_keeps out base n p w Hout) as Hk.
  rewrite copy_file_run in Hj, Hc, Hs, Ha, Hk. cbn [snd] in *.
  eexists. split; [reflexivity|].
  destruct Hd as (Hj0 & Hc0 & Ht0 & Hf0).
  repeat split; cbn.
  - congruence.
  - now rewrite Hc, Hc0.
  - now rewrite Ha, Ht0.
  - now rewrite Hs, Ht0.
  - eapply keeps_trans; [|exact Hk]. intros q _. apply Hf0.
Qed.

(** ** One file of the scan *)

Section Rerun.

Variable xxh64 : list Byte.byte -> Z.

(** Every way [visit] can end. An error leaves at most new directories.
    Otherwise the file was readable, and either nothing was written (the
    file was skipped, dropped, or put in a bucket) or the file was copied
    at once. *)
Lemma visit_effect (out cur : path) (pl : list string) (dis : gset string)
    (routing : bool) (p : path) (st : scan) (w : world) :
  out `prefix_of` cur ->
  match visit xxh64 cur pl dis routing p st w with
  | (inl _, w') => only_dirs w w'
  | (inr st', w') =>
      exists data c,
        fs w !! p = Some (File true data) /\
        checksum_of xxh64 data (Z.of_nat (length data)) = inr c /\
        let ext := PyStr.lower (PyPath.suffix p) in
        let r := (c, p, Z.of_nat (length data)) in
        ((w' = w /\ number_of_copied st' = number_of_copied st /\
          ((c ∈ copied w /\ st' = st) \/
           ((c ∉ copied w) /\ dropped_class pl dis routing ext /\ st' = st) \/
           ((c ∉ copied w) /\ routing = true /\ ext ∈ pl /\
            non_priority_files st' = non_priority_files st /\
            exists b, dict_get ext (lower_priority_files st) = Some b /\
                      lower_priority_files st' =
                        dict_set ext (bucket_add r b) (lower_priority_files st)) \/
           ((c ∉ copied w) /\ routing = true /\ (ext ∉ pl) /\ (ext ∉ dis) /\
            lower_priority_files st' = lower_priority_files st /\
            non_priority_files st' = bucket_add r (non_priority_files st)))) \/
         ((c ∉ copied w) /\ eager_class pl dis routing ext /\
          st' = count_copy (Z.of_nat (length data)) st /\
          one_copy out p c w w'))
  end.
Proof.
  intros Hcur. unfold visit.
  unfold bind at 1. unfold get_file_size at 1.
  destruct (fs w !! p) as [[|r data]|] eqn:Hp; try apply only_dirs_refl.
  unfold bind at 1. unfold get_checksum at 1. rewrite Hp.
  destruct r; [|apply only_dirs_refl].
  destruct (checksum_of xxh64 data (Z.of_nat (length data))) as [e|c] eqn:Hc;
    [apply only_dirs_refl|].
  unfold bind at 1. unfold gets at 1.
  set (ext := PyStr.lower (PyPath.suffix p)).
  case_bool_decide as Hseen.
  { exists data, c. repeat split; auto. left. repeat split; auto. }
  destruct routing.
  - case_bool_decide as Hin.
    + destruct (String.eqb_spec ext (PyStr.lower (hd "" pl))) as [Hfirst|Hother].
      * (* copied at once into the directory of the first priority *)
        set (dir_name := "Priority_" +:+ PyStr.drop_first (hd "" pl)).
        unfold bind at 1.
        assert (Hpre : exists w1,
          (if first_run st
           then bind (create_directory_or_file cur dir_name) (fun _ => ret tt)
           else ret tt) w = (inl OSError, w) \/
          ((if first_run st
            then bind (create_directory_or_file cur dir_name) (fun _ => ret tt)
            else ret tt) w = (inr tt, w1) /\ only_dirs w w1)).
        { destruct (first_run st).
          - unfold bind.
            destruct (create_directory_grows cur dir_name w) as [E|(f & E & Hf)];
              rewrite E.
            + exists w. now left.
            + exists (set_fs f w). right. split; [reflexivity|].
              repeat split. exact Hf.
          - exists w. right. split; [reflexivity|apply only_dirs_refl]. }
        destruct Hpre as (w1 & [E|[E Hd1]]); rewrite E;
          [apply only_dirs_refl|].
        unfold bind at 1.
        pose proof (create_directory_effect cur dir_name w1) as Hmk.
        destruct (create_directory_or_file cur dir_name w1) as [[e|dir] w2].
        -- subst w2. exact Hd1.
        -- destruct Hmk as [-> Hd2].
           destruct (copy_and_record out (PyPath.join cur dir_name)
                       (PyPath.name p) p c
                       (count_copy (Z.of_nat (length data)) st) w w2)
             as (w' & E' & Hone).
           { unfold PyPath.join. now apply prefix_of_app_r. }
           { eapply only_dirs_trans; eauto. }
           unfold PyPath.join at 1. rewrite E'.
           exists data, c. repeat split; auto. right.
           repeat split; try apply Hone; auto. left. auto.
      * destruct (dict_get ext (lower_priority_files st)) as [b|] eqn:Hb;
          [|apply only_dirs_refl].
        exists data, c. repeat split; auto. left. repeat split; auto.
        right. right. left. repeat split; eauto.
    + case_bool_decide as Hdis.
      * exists data, c. repeat split; auto. left. repeat split; auto.
        right. right. right. repeat split; auto.
      * exists data, c. repeat split; auto. left. repeat split; auto.
        right. left. repeat split; auto. left. repeat split; auto.
  - case_bool_decide as Hdis.
    + unfold bind at 1.
      pose proof (create_directory_effect cur "All_files_copied" w) as Hmk.
      destruct (create_directory_or_file cur "All_files_copied" w) as [[e|dir] w2].
      * subst w2. apply only_dirs_refl.
      * destruct Hmk as [-> Hd2].
        destruct (copy_and_record out cur "All_files_copied" p c
                    (count_copy (Z.of_nat (length data)) st) w w2)
          as (w' & E' & Hone); auto.
        unfold PyPath.join. rewrite E'.
        exists data, c. repeat split; auto. right.
        repeat split; try apply Hone; auto. right. auto.
    + exists data, c. repeat split; auto. left. repeat split; auto.
      right. left. repeat split; auto. right. split; auto.
      all: exact (dec_stable Hdis).
Qed.

(** *** Loop invariants *)

Lemma for_each_progress {A S} (body : A -> S -> M S)
    (P : list A -> S -> world -> Prop) (xs : list A) :
  (forall done x s w s' w',
     x ∈ xs -> P done s w -> body x s w = (inr s', w') ->
     P (done ++ [x])%list s' w') ->
  forall done s w s' w',
    P done s w -> for_each xs body s w = (inr s', w') ->
    P (done ++ xs)%list s' w'.
Proof.
  induction xs as [|x xs IH]; intros Hstep done s w s' w' HP Hrun.
  - cbn in Hrun. inversion Hrun; subst. now rewrite app_nil_r.
  - cbn [for_each] in Hrun. unfold bind in Hrun.
    destruct (body x s w) as [[e|s1] w1] eqn:E; [discriminate|].
    replace (done ++ x :: xs)%list with ((done ++ [x]) ++ xs)%list
      by (rewrite <- app_assoc; reflexivity).
    eapply IH; [| |exact Hrun].
    + intros d y t v t' v' Hy. apply Hstep. now right.
    + eapply Hstep; eauto. left.
Qed.

Lemma for_each_always {A S} (body : A -> S -> M S)
    (I : S -> world -> Prop) (E : world -> Prop) (xs : list A) :
  (forall x s w, x ∈ xs -> I s w ->
     match body x s w with
     | (inr s', w') => I s' w'
     | (inl _, w') => E w'
     end) ->
  forall s w, I s w ->
    match for_each xs body s w with
    | (inr s', w') => I s' w'
    | (inl _, w') => E w'
    end.
Proof.
  induction xs as [|x xs IH]; intros Hstep s w HI; [exact HI|].
  cbn [for_each]. unfold bind.
  pose proof (Hstep x s w ltac:(left) HI) as H.
  destruct (body x s w) as [[e|s1] w1]; [exact H|].
  apply IH; [|exact H]. intros y t v Hy. apply Hstep. now right.
Qed.

(** *** Records in the buckets *)

Lemma bucket_add_elem (r r' : pending) (b : list pending) :
  r' ∈ bucket_add r b <-> r' = r \/ r' ∈ b.
Proof.
  unfold bucket_add, set_add. case_bool_decide as Hin.
  - split; [auto|]. intros [->|H]; auto.
  - rewrite elem_of_app, list_elem_of_singleton. tauto.
Qed.

Lemma flat_cons (k : string) (v : list pending) (lp : buckets) :
  flat ((k, v) :: lp) = (v ++ flat lp)%list.
Proof. reflexivity. Qed.

Lemma flat_dict_add (k : string) (b : list pending) (lp : buckets)
    (r r' : pending) :
  dict_get k lp = Some b ->
  r' ∈ flat (dict_set k (bucket_add r b) lp) <-> r' = r \/ r' ∈ flat lp.
Proof.
  revert b; induction lp as [|[k' v] lp IH]; intros b Hget; cbn in Hget;
    [discriminate|].
  cbn [dict_set]. destruct (String.eqb k k').
  - inversion Hget; subst. rewrite !flat_cons, !elem_of_app, bucket_add_elem.
    tauto.
  - rewrite !flat_cons, !elem_of_app, (IH b Hget). tauto.
Qed.

(** *** The scan of a first session *)

Lemma settled_mono (pl : list string) (dis : gset string) (routing : bool)
    (f0 : gmap path node) (lp lp' : buckets) (np np' : list pending)
    (K K' : gset string) (p : path) :
  K ⊆ K' ->
  (forall r, r ∈ flat lp -> r ∈ flat lp') ->
  (forall r, r ∈ np -> r ∈ np') ->
  settled xxh64 pl dis routing f0 lp np K p ->
  settled xxh64 pl dis routing f0 lp' np' K' p.
Proof.
  intros HK Hlp Hnp (data & c & Hf & Hc & H). exists data, c.
  split; [exact Hf|]. split; [exact Hc|]. cbv zeta in *.
  destruct H as [H|[[H Hr]|[[H Hr]|H]]]; auto.
  - right. right. left. split; auto.
Qed.

Lemma keeps_file (out : path) (f0 f : gmap path node) (p : path)
    (r : bool) (data : list Byte.byte) :
  keeps out f0 f -> ~ (out `prefix_of` p) ->
  f !! p = Some (File r data) -> f0 !! p = Some (File r data).
Proof.
  intros Hk Hp Hf. destruct (Hk p Hp) as [E|[_ E]]; congruence.
Qed.

Section FirstScan.

Variables (out cur : path) (pl : list string) (dis : gset string)
          (routing : bool) (f0 : gmap path node) (start : world).
Hypothesis Hcur : out `prefix_of` cur.

Local Abbreviation scanned_here := (scanned xxh64 out pl dis routing f0 start).

Lemma scanned_step (done : list path) (p : path) (st st' : scan)
    (w w' : world) :
  ~ (out `prefix_of` p) ->
  scanned_here done st w ->
  visit xxh64 cur pl dis routing p st w = (inr st', w') ->
  scanned_here (done ++ [p])%list st' w'.
Proof.
  intros Hp (Hk & Hj & Hsub & Hzero & Hold) Hrun.
  pose proof (visit_effect out cur pl dis routing p st w Hcur) as H.
  rewrite Hrun in H. destruct H as (data & c & Hf & Hc & H). cbv zeta in H.
  pose proof (keeps_file out f0 (fs w) p true data Hk Hp Hf) as Hf0.
  set (ext := PyStr.lower (PyPath.suffix p)) in *.
  set (r := (c, p, Z.of_nat (length data))) in *.
  assert (Hnew : forall lp np K,
            (c ∈ K \/ (r ∈ flat lp /\ routing = true) \/
             (r ∈ np /\ routing = true /\ (ext ∉ pl)) \/
             dropped_class pl dis routing ext) ->
            settled xxh64 pl dis routing f0 lp np K p).
  { intros lp np K HK. exists data, c. auto. }
  destruct H as [(-> & Hn & H)|(Hfresh & Hclass & -> & Hone)].
  - destruct H as [[Hin ->]|[(Hfresh & Hdrop & ->)|[H|H]]].
    + repeat split; auto. intros q Hq.
      apply elem_of_app in Hq as [Hq|Hq]; [auto|].
      apply list_elem_of_singleton in Hq as ->. apply Hnew. auto.
    + repeat split; auto. intros q Hq.
      apply elem_of_app in Hq as [Hq|Hq]; [auto|].
      apply list_elem_of_singleton in Hq as ->. apply Hnew. auto.
    + destruct H as (Hfresh & Hr & Hin & Hnp & b & Hb & Hlp).
      repeat split; auto; [rewrite Hn; auto|].
      intros q Hq. rewrite Hlp, Hnp.
      apply elem_of_app in Hq as [Hq|Hq].
      * apply (settled_mono pl dis routing f0 (lower_priority_files st) _
                  (non_priority_files st) _ (copied w) _ q);
          [reflexivity| |auto|apply Hold, Hq].
        intros r' Hr'. apply (flat_dict_add _ _ _ _ _ Hb). now right.
      * apply list_elem_of_singleton in Hq as ->. apply Hnew.
        right. left. split; [|exact Hr].
        apply (flat_dict_add _ _ _ _ _ Hb). now left.
    + destruct H as (Hfresh & Hr & Hin & Hdis & Hlp & Hnp).
      repeat split; auto; [rewrite Hn; auto|].
      intros q Hq. rewrite Hlp, Hnp.
      apply elem_of_app in Hq as [Hq|Hq].
      * apply (settled_mono pl dis routing f0 (lower_priority_files st) _
                  (non_priority_files st) _ (copied w) _ q);
          [reflexivity|auto| |apply Hold, Hq].
        intros r' Hr'. apply bucket_add_elem. now right.
      * apply list_elem_of_singleton in Hq as ->. apply Hnew.
        right. right. left. split; [|auto].
        apply bucket_add_elem. now left.
  - destruct Hone as (Hj' & Hc' & _ & _ & Hk').
    repeat split.
    + eapply keeps_trans; eauto.
    + congruence.
    + rewrite Hc'. set_solver.
    + cbn. discriminate.
    + intros q Hq. cbn [count_copy lower_priority_files non_priority_files].
      apply elem_of_app in Hq as [Hq|Hq].
      * apply (settled_mono pl dis routing f0 (lower_priority_files st) _
                  (non_priority_files st) _ (copied w) _ q);
          [|auto|auto|apply Hold, Hq].
        rewrite Hc'. set_solver.
      * apply list_elem_of_singleton in Hq as ->. apply Hnew.
        left. rewrite Hc'. set_solver.
Qed.

End FirstScan.

Lemma synced_after_save (w : world) : synced (snd (save_copied w)).
Proof.
  rewrite save_copied_run. cbn. exists (elements (copied w)).
  split; [reflexivity|]. apply list_to_set_elements_L.
Qed.

Lemma save_copied_effect (w : world) :
  let w' := snd (save_copied w) in
  fst (save_copied w) = inr tt /\
  fs w' = fs w /\ copied w' = copied w /\
  attempts (trace w') = attempts (trace w).
Proof. rewrite save_copied_run. cbn. auto. Qed.

(** The scan of a session with a persistent ledger: the state file lists
    the copied set again when the scan returns, and every file of the drive
    is settled. *)
Lemma walk_first (out cur : path) (pl : list string) (dis : gset string)
    (wants : bool) (f0 : gmap path node) (files : list path)
    (lp : buckets) (np : list pending) (w w' : world) :
  out `prefix_of` cur ->
  (forall p, p ∈ files -> ~ (out `prefix_of` p)) ->
  keeps out f0 (fs w) ->
  synced w ->
  walk_through_files xxh64 files cur pl dis false wants w = (inr (lp, np), w') ->
  synced w' /\ keeps out f0 (fs w') /\ copied w ⊆ copied w' /\
  forall p, p ∈ files ->
    settled xxh64 pl dis (routing_enabled pl wants) f0 lp np (copied w') p.
Proof.
  intros Hcur Hout Hk Hsync Hrun.
  unfold walk_through_files in Hrun. unfold bind at 1 in Hrun.
  destruct (for_each files
              (visit xxh64 cur pl dis (routing_enabled pl wants))
              (scan_start pl) w) as [[e|st] w2] eqn:Hloop; [discriminate|].
  assert (Hsc : scanned xxh64 out pl dis (routing_enabled pl wants) f0 w
                  ([] ++ files)%list st w2).
  { eapply (for_each_progress _
              (scanned xxh64 out pl dis (routing_enabled pl wants) f0 w));
      [|clear Hloop|exact Hloop].
    - intros done p s v s' v' Hp. apply (scanned_step out cur); auto.
    - repeat split; auto. intros p Hp. inversion Hp. }
  cbn [app] in Hsc. destruct Hsc as (Hk2 & Hj2 & Hsub & Hzero & Hall).
  assert (Hsaved :
    forall m : M unit,
      (m = save_copied /\ (0 < number_of_copied st)%nat) \/
      (m = ret tt /\ number_of_copied st = 0%nat) ->
      bind m (fun _ => ret (lower_priority_files st, non_priority_files st)) w2
        = (inr (lp, np), w') ->
      lp = lower_priority_files st /\ np = non_priority_files st /\
      synced w' /\ fs w' = fs w2 /\ copied w' = copied w2).
  { intros m [[-> Hpos]|[-> Hz]] Hm; unfold bind in Hm.
    - rewrite save_copied_run in Hm. cbn in Hm. inversion Hm; subst.
      repeat split; auto. apply (synced_after_save w2).
    - cbn in Hm. inversion Hm; subst. repeat split; auto.
      destruct Hsync as (items & Hi & Hs). exists items.
      rewrite Hj2, (Hzero Hz). auto. }
  assert (Hend : lp = lower_priority_files st /\ np = non_priority_files st /\
                 synced w' /\ fs w' = fs w2 /\ copied w' = copied w2).
  { destruct (Nat.ltb_spec 0 (number_of_copied st)) as [Hpos|Hz];
      destruct (routing_enabled pl wants); cbn [andb negb] in Hrun;
      (eapply Hsaved; [|exact Hrun]); first [left; split; [reflexivity|lia]
                                            |right; split; [reflexivity|lia]]. }
  destruct Hend as (-> & -> & Hsy & Hfs & Hco).
  rewrite Hfs, Hco. auto.
Qed.

(** *** The drains of a first session *)

Lemma drain_bucket_keeps (out dir : path) (files : list pending)
    (acc : Z * nat) (w : world) :
  out `prefix_of` dir ->
  keeps out (fs w) (fs (snd (for_each files (copy_pending dir) acc w))).
Proof.
  intros Hdir. revert acc w; induction files as [|[[c p] sz] files IH];
    intros acc w; [apply keeps_refl|].
  cbn [for_each]. unfold bind at 1. rewrite copy_pending_run. cbv zeta.
  eapply keeps_trans; [|apply IH].
  exact (copy_file_keeps out dir (PyPath.name p) p w Hdir).
Qed.

Lemma synced_keep (w w' : world) :
  synced w -> state_json w' = state_json w -> copied w' = copied w -> synced w'.
Proof. intros (items & Hi & Hs) Hj Hc. exists items. split; congruence. Qed.

Lemma sum_in_bucket (r : pending) (files : list pending) :
  r ∈ files ->
  fst (fst r) ∈
    (list_to_set (map (fun r : pending => fst (fst r)) files) : gset string).
Proof.
  intros Hr. apply elem_of_list_to_set, list_elem_of_In.
  apply (in_map (fun r : pending => fst (fst r))), list_elem_of_In, Hr.
Qed.

Lemma tier_first (out cur : path) (k : string) (files : list pending)
    (acc acc' : Z * nat) (w w' : world) :
  out `prefix_of` cur ->
  synced w ->
  copy_priority cur false (k, files) acc w = (inr acc', w') ->
  synced w' /\ keeps out (fs w) (fs w') /\ copied w ⊆ copied w' /\
  forall r, r ∈ files -> fst (fst r) ∈ copied w'.
Proof.
  intros Hcur Hsync Hrun. unfold copy_priority in Hrun.
  unfold bind at 1 in Hrun.
  destruct files as [|r0 files].
  - unfold ret at 1 in Hrun. unfold bind in Hrun.
    destruct (Nat.ltb 0 (snd acc)); cbn [negb] in Hrun.
    + rewrite save_copied_run in Hrun. cbn in Hrun. inversion Hrun; subst.
      split; [apply (synced_after_save w)|]. cbn.
      repeat split; auto using keeps_refl. intros r Hr. inversion Hr.
    + cbn in Hrun. inversion Hrun; subst.
      repeat split; auto using keeps_refl. intros r Hr. inversion Hr.
  - unfold bind at 1 in Hrun.
    set (dir_name := "Priority_" +:+ PyStr.upper (PyStr.drop_first k)) in *.
    pose proof (create_directory_effect cur dir_name w) as Hmk.
    destruct (create_directory_or_file cur dir_name w) as [[e|dir] w1];
      [discriminate|].
    destruct Hmk as [-> Hd].
    destruct (drain_bucket (PyPath.join cur dir_name) (r0 :: files) acc w1)
      as (acc1 & w2 & E & Hn & _ & Hj & _ & Hc & _).
    pose proof (drain_bucket_keeps out (PyPath.join cur dir_name)
                  (r0 :: files) acc w1) as Hk.
    rewrite E in Hrun, Hk. cbn [snd] in Hk.
    specialize (Hk ltac:(unfold PyPath.join; now apply prefix_of_app_r)).
    unfold bind in Hrun.
    replace (Nat.ltb 0 (snd acc1)) with true in Hrun
      by (symmetry; apply Nat.ltb_lt; rewrite Hn; cbn; lia).
    cbn [negb] in Hrun. rewrite save_copied_run in Hrun. cbn in Hrun.
    inversion Hrun; subst. split; [apply (synced_after_save w2)|]. cbn.
    destruct Hd as (Hj1 & Hc1 & _ & Hf1).
    split; [|split].
    + eapply keeps_trans; [|exact Hk]. intros q _. apply Hf1.
    + rewrite Hc, Hc1. set_solver.
    + intros r Hr. rewrite Hc. apply elem_of_union. left.
      now apply sum_in_bucket.
Qed.

Lemma flat_snoc (done : buckets) (k : string) (files : list pending) :
  flat (done ++ [(k, files)])%list = (flat done ++ files)%list.
Proof.
  unfold flat. rewrite map_app, concat_app. cbn. now rewrite app_nil_r.
Qed.

Lemma drain_first (out cur : path) (lp : buckets) (w w' : world) :
  out `prefix_of` cur ->
  synced w ->
  copy_other_priorities lp cur false w = (inr tt, w') ->
  synced w' /\ keeps out (fs w) (fs w') /\ copied w ⊆ copied w' /\
  forall r, r ∈ flat lp -> fst (fst r) ∈ copied w'.
Proof.
  intros Hcur Hsync Hrun. unfold copy_other_priorities, bind in Hrun.
  destruct (for_each lp (copy_priority cur false) (0, 0%nat) w)
    as [[e|acc] w1] eqn:Hloop; [discriminate|].
  cbn in Hrun. inversion Hrun; subst w1. clear Hrun.
  pose (P := fun (done : buckets) (_ : Z * nat) (v : world) =>
       synced v /\ keeps out (fs w) (fs v) /\ copied w ⊆ copied v /\
       forall r, r ∈ flat done -> fst (fst r) ∈ copied v).
  assert (HP : P ([] ++ lp)%list acc w').
  { eapply (for_each_progress (copy_priority cur false) P lp);
      [|clear Hloop|exact Hloop].
    - intros done [k files] s v s' v' _ (Hs & Hk & Hc & Hall) Hstep.
      destruct (tier_first out cur k files s s' v v' Hcur Hs Hstep)
        as (Hs' & Hk' & Hc' & Hnew).
      split; [exact Hs'|]. split; [eapply keeps_trans; eauto|].
      split; [set_solver|].
      intros r Hr. rewrite flat_snoc in Hr.
      apply elem_of_app in Hr as [Hr|Hr]; [|auto].
      apply Hc', Hall, Hr.
    - repeat split; auto using keeps_refl. intros r Hr. inversion Hr. }
  exact HP.
Qed.

Lemma drain_rest_first (out cur : path) (np : list pending) (w w' : world) :
  out `prefix_of` cur ->
  synced w ->
  copy_non_priority np cur false w = (inr tt, w') ->
  synced w' /\ keeps out (fs w) (fs w') /\ copied w ⊆ copied w' /\
  forall r, r ∈ np -> fst (fst r) ∈ copied w'.
Proof.
  intros Hcur Hsync Hrun. unfold copy_non_priority in Hrun.
  unfold bind at 1 in Hrun.
  destruct np as [|r0 np].
  - cbn in Hrun. inversion Hrun; subst.
    repeat split; auto using keeps_refl. intros r Hr. inversion Hr.
  - unfold bind at 1 in Hrun.
    pose proof (create_directory_effect cur "Non-priority" w) as Hmk.
    destruct (create_directory_or_file cur "Non-priority" w) as [[e|dir] w1];
      [discriminate|].
    destruct Hmk as [-> Hd].
    destruct (drain_bucket (PyPath.join cur "Non-priority") (r0 :: np)
                (0, 0%nat) w1)
      as (acc1 & w2 & E & Hn & _ & Hj & _ & Hc & _).
    pose proof (drain_bucket_keeps out (PyPath.join cur "Non-priority")
                  (r0 :: np) (0, 0%nat) w1) as Hk.
    rewrite E in Hrun, Hk. cbn [snd] in Hk.
    specialize (Hk ltac:(unfold PyPath.join; now apply prefix_of_app_r)).
    replace (Nat.ltb 0 (snd acc1)) with true in Hrun
      by (symmetry; apply Nat.ltb_lt; rewrite Hn; cbn; lia).
    cbn [negb] in Hrun. rewrite save_copied_run in Hrun.
    inversion Hrun; subst. split; [apply (synced_after_save w2)|]. cbn.
    destruct Hd as (Hj1 & Hc1 & _ & Hf1).
    split; [|split].
    + eapply keeps_trans; [|exact Hk]. intros q _. apply Hf1.
    + rewrite Hc, Hc1. set_solver.
    + intros r Hr. rewrite Hc. apply elem_of_union. left.
      now apply sum_in_bucket.
Qed.

(** *** A drive, and the drives of a first session *)

Lemma routing_wants (pl : list string) (wants : bool) :
  routing_enabled pl wants = true -> wants = true.
Proof. destruct pl; [discriminate|auto]. Qed.

Lemma finished_mono (pl : list string) (dis : gset string)
    (routing copy_only : bool) (f0 : gmap path node) (K K' : gset string)
    (p : path) :
  K ⊆ K' ->
  finished xxh64 pl dis routing copy_only f0 K p ->
  finished xxh64 pl dis routing copy_only f0 K' p.
Proof.
  intros HK (data & c & Hf & Hc & [H|H]); exists data, c; auto.
Qed.

Lemma create_drive_dir_effect (out : path) (d : drive) (w : world) :
  match create_drive_dir out d w with
  | (inl _, w') => w' = w
  | (inr cur, w') => out `prefix_of` cur /\ only_dirs w w'
  end.
Proof.
  unfold create_drive_dir.
  pose proof (create_directory_effect out
                ("Drive_" +:+ PyStr.drop_last (drive_name d) +:+ "_copy") w) as H.
  destruct (create_directory_or_file out _ w) as [[e|cur] w']; [exact H|].
  destruct H as [-> H]. split; [|exact H].
  unfold PyPath.join. now exists ["Drive_" +:+ PyStr.drop_last (drive_name d) +:+ "_copy"].
Qed.

Lemma drive_first (cfg : settings) (out : path) (pl : list string)
    (wants : bool) (f0 : gmap path node) (d : drive) (w w' : world) :
  synced w ->
  keeps out f0 (fs w) ->
  (forall p, p ∈ drive_files d -> ~ (out `prefix_of` p)) ->
  process_drive xxh64 cfg out pl false wants d w = (inr tt, w') ->
  synced w' /\ keeps out f0 (fs w') /\ copied w ⊆ copied w' /\
  forall p, p ∈ drive_files d ->
    finished xxh64 pl (disabled_extensions cfg) (routing_enabled pl wants)
             (copy_only_priority cfg) f0 (copied w') p.
Proof.
  intros Hsync Hk Hout Hrun. unfold process_drive in Hrun.
  unfold bind at 1 in Hrun.
  pose proof (create_drive_dir_effect out d w) as Hmk.
  destruct (create_drive_dir out d w) as [[e|cur] w1]; [discriminate|].
  destruct Hmk as [Hcur Hd].
  assert (Hsync1 : synced w1).
  { destruct Hd as (Hj & Hc & _). eapply synced_keep; eauto. }
  assert (Hk1 : keeps out f0 (fs w1)).
  { eapply keeps_trans; [exact Hk|]. now apply only_dirs_keeps. }
  assert (Hc1 : copied w1 = copied w) by apply Hd.
  unfold bind at 1 in Hrun.
  destruct (walk_through_files xxh64 (drive_files d) cur pl
              (disabled_extensions cfg) false wants w1)
    as [[e|[lp np]] w2] eqn:Hwalk; [discriminate|].
  destruct (walk_first out cur pl (disabled_extensions cfg) wants f0
              (drive_files d) lp np w1 w2 Hcur Hout Hk1 Hsync1 Hwalk)
    as (Hsync2 & Hk2 & Hsub2 & Hall).
  cbn [fst snd] in Hrun.
  destruct wants.
  - unfold bind at 1 in Hrun.
    destruct (copy_other_priorities lp cur false w2) as [[e|[]] w3] eqn:Hdrain;
      [discriminate|].
    destruct (drain_first out cur lp w2 w3 Hcur Hsync2 Hdrain)
      as (Hsync3 & Hk3 & Hsub3 & Hlp).
    destruct (copy_only_priority cfg) eqn:Honly; cbn [negb] in Hrun.
    + inversion Hrun; subst w'.
      split; [exact Hsync3|]. split; [eapply keeps_trans; eauto|].
      split; [set_solver|].
      intros p Hp. destruct (Hall p Hp) as (data & c & Hf & Hc & H).
      exists data, c. split; [exact Hf|]. split; [exact Hc|].
      cbv zeta in H. destruct H as [H|[[H Hr]|[(H & Hr & Hn)|H]]].
      * left. set_solver.
      * left. apply (Hlp _ H).
      * right. left. auto.
      * right. destruct H as [(Hr & Hn & Hdis)|[Hr Hdis]]; [left|right]; auto.
    + destruct (drain_rest_first out cur np w3 w' Hcur Hsync3 Hrun)
        as (Hsync4 & Hk4 & Hsub4 & Hnp).
      split; [exact Hsync4|].
      split; [eapply keeps_trans; [|exact Hk4]; eapply keeps_trans; eauto|].
      split; [set_solver|].
      intros p Hp. destruct (Hall p Hp) as (data & c & Hf & Hc & H).
      exists data, c. split; [exact Hf|]. split; [exact Hc|].
      cbv zeta in H. destruct H as [H|[[H Hr]|[(H & Hr & Hn)|H]]].
      * left. set_solver.
      * left. apply Hsub4. apply (Hlp _ H).
      * left. apply (Hnp _ H).
      * right. destruct H as [(Hr & Hn & Hdis)|[Hr Hdis]]; [left|right]; auto.
  - inversion Hrun; subst w'.
    split; [exact Hsync2|]. split; [exact Hk2|]. split; [set_solver|].
    intros p Hp. destruct (Hall p Hp) as (data & c & Hf & Hc & H).
    exists data, c. split; [exact Hf|]. split; [exact Hc|].
    cbv zeta in H.
    assert (Hoff : routing_enabled pl false = false) by (now destruct pl).
    rewrite Hoff in *.
    destruct H as [H|[[H Hr]|[(H & Hr & Hn)|H]]]; try discriminate.
    + now left.
    + right. destruct H as [(Hr & Hn & Hdis)|[Hr Hdis]]; [left|right]; auto.
Qed.

Lemma main_loop_drives (cfg : settings) (out : path) (pl : list string)
    (temp wants : bool) (polls : list (list drive)) (w : world) :
  main_loop xxh64 cfg out pl temp wants polls w =
    match first_drives polls with
    | [] => (inr false, w)
    | ds =>
        bind (for_each ds
                (fun d _ => process_drive xxh64 cfg out pl temp wants d) tt)
             (fun _ => ret true) w
    end.
Proof.
  induction polls as [|[|d ds] later IH]; [reflexivity|exact IH|reflexivity].
Qed.

Lemma drives_first (cfg : settings) (out : path) (pl : list string)
    (wants : bool) (f0 : gmap path node) (ds : list drive) (w w' : world) :
  synced w ->
  keeps out f0 (fs w) ->
  (forall p, p ∈ concat (map drive_files ds) -> ~ (out `prefix_of` p)) ->
  for_each ds (fun d _ => process_drive xxh64 cfg out pl false wants d) tt w
    = (inr tt, w') ->
  synced w' /\ keeps out f0 (fs w') /\
  forall p, p ∈ concat (map drive_files ds) ->
    finished xxh64 pl (disabled_extensions cfg) (routing_enabled pl wants)
             (copy_only_priority cfg) f0 (copied w') p.
Proof.
  intros Hsync Hk Hout Hrun.
  pose (P := fun (done : list drive) (_ : unit) (v : world) =>
       synced v /\ keeps out f0 (fs v) /\
       forall p, p ∈ concat (map drive_files done) ->
         finished xxh64 pl (disabled_extensions cfg) (routing_enabled pl wants)
                  (copy_only_priority cfg) f0 (copied v) p).
  assert (HP : P ([] ++ ds)%list tt w').
  { eapply (for_each_progress _ P ds); [|clear Hrun|exact Hrun].
    - intros done d [] v [] v' Hd (Hs & Hkv & Hall) Hstep.
      destruct (drive_first cfg out pl wants f0 d v v' Hs Hkv) as
        (Hs' & Hk' & Hsub & Hnew); [|exact Hstep|].
      { intros p Hp. apply Hout. apply list_elem_of_In, in_concat.
        exists (drive_files d). split; [|now apply list_elem_of_In].
        apply in_map. now apply list_elem_of_In. }
      split; [exact Hs'|]. split; [exact Hk'|].
      intros p Hp. rewrite map_app, concat_app in Hp. cbn in Hp.
      rewrite app_nil_r in Hp.
      apply elem_of_app in Hp as [Hp|Hp]; [|auto].
      eapply finished_mono; [exact Hsub|auto].
    - split; [exact Hsync|]. split; [exact Hk|]. intros p Hp. inversion Hp. }
  exact HP.
Qed.

(** *** The scan and the drains of a second session *)

Section SecondScan.

Variables (out : path) (pl : list string) (dis : gset string)
          (routing copy_only : bool) (f2 : gmap path node)
          (K : gset string) (a0 : list path).

Local Abbreviation idle_here := (idle out f2 K a0).
Local Abbreviation idle_scan_here := (idle_scan out copy_only f2 K a0).

Lemma visit_second (cur p : path) (st : scan) (w : world) :
  out `prefix_of` cur ->
  ~ (out `prefix_of` p) ->
  finished xxh64 pl dis routing copy_only f2 K p ->
  idle_scan_here st w ->
  match visit xxh64 cur pl dis routing p st w with
  | (inr st', w') => idle_scan_here st' w'
  | (inl _, w') => attempts (trace w') = a0
  end.
Proof.
  intros Hcur Hp (data0 & c0 & Hf0 & Hc0 & Hfin)
         ((Ha & HK & Hk) & Hlp & Hnp & Hn).
  pose proof (visit_effect out cur pl dis routing p st w Hcur) as H.
  destruct (visit xxh64 cur pl dis routing p st w) as [[e|st'] w'].
  { destruct H as (_ & _ & Ht & _). now rewrite Ht. }
  destruct H as (data & c & Hf & Hc & H). cbv zeta in H.
  pose proof (keeps_file out f2 (fs w) p true data Hk Hp Hf) as Hf2.
  assert (data0 = data) by congruence. subst data0.
  assert (c0 = c) by congruence. subst c0.
  set (ext := PyStr.lower (PyPath.suffix p)) in *.
  assert (Hnever : c ∉ copied w ->
                   never_copied pl dis routing copy_only p).
  { intros Hfresh. destruct Hfin as [Hin|Hnever]; [|exact Hnever].
    exfalso. apply Hfresh, HK, Hin. }
  unfold never_copied in Hnever. fold ext in Hnever.
  destruct H as [(-> & Hn' & H)|(Hfresh & Hclass & _ & _)].
  - destruct H as [[_ ->]|[(_ & _ & ->)|[H|H]]].
    + repeat split; auto.
    + repeat split; auto.
    + destruct H as (Hfresh & Hr & Hin & _).
      destruct (Hnever Hfresh) as [(_ & Hout' & _)|[Hr' _]];
        [contradiction|congruence].
    + destruct H as (Hfresh & Hr & Hin & Hdis & Hlp' & Hnp').
      destruct (Hnever Hfresh) as [(_ & _ & [Hd|Honly])|[Hr' _]];
        [contradiction| |congruence].
      repeat split; auto; try congruence.
  - exfalso.
    destruct (Hnever Hfresh) as [(Hr & Hout' & _)|[Hr Hd]],
             Hclass as [(Hr' & Hin & _)|[Hr' Hd']];
      congruence || contradiction.
Qed.

Lemma walk_second (files : list path) (cur : path) (temp wants : bool)
    (w : world) :
  routing = routing_enabled pl wants ->
  out `prefix_of` cur ->
  (forall p, p ∈ files ->
     ~ (out `prefix_of` p) /\
     finished xxh64 pl dis routing copy_only f2 K p) ->
  idle_here w ->
  match walk_through_files xxh64 files cur pl dis temp wants w with
  | (inr (lp, np), w') =>
      idle_here w' /\ flat lp = [] /\ (copy_only = false -> np = [])
  | (inl _, w') => attempts (trace w') = a0
  end.
Proof.
  intros Hr Hcur Hfiles Hidle. unfold walk_through_files. unfold bind at 1.
  rewrite <- Hr.
  pose proof (for_each_always (visit xxh64 cur pl dis routing)
                idle_scan_here (fun v => attempts (trace v) = a0) files) as H.
  specialize (H ltac:(intros p s v Hp Hs; destruct (Hfiles p Hp);
                      now apply visit_second)
                (scan_start pl) w).
  assert (Hstart : idle_scan_here (scan_start pl) w).
  { split; [exact Hidle|]. cbn. repeat split; auto.
    assert (Hflat : forall keys d, flat d = [] ->
              flat (fold_left (fun d k => dict_set k [] d) keys d) = []).
    { induction keys as [|k keys IH]; intros d Hd; [exact Hd|].
      cbn [fold_left]. apply IH. clear IH.
      induction d as [|[k' v] d IHd]; [reflexivity|].
      rewrite flat_cons in Hd. apply app_eq_nil in Hd as [-> Hd].
      cbn [dict_set]. destruct (String.eqb k k'); rewrite flat_cons; cbn;
        auto. }
    apply Hflat. reflexivity. }
  specialize (H Hstart).
  destruct (for_each files (visit xxh64 cur pl dis routing) (scan_start pl) w)
    as [[e|st] w2]; [exact H|].
  destruct H as (Hi & Hlp & Hnp & Hn). rewrite Hn.
  destruct routing; cbn; auto.
Qed.

Lemma drain_empty (cur : path) (temp : bool) (lp : buckets) (acc : Z * nat)
    (w : world) :
  flat lp = [] -> snd acc = 0%nat ->
  for_each lp (copy_priority cur temp) acc w = (inr acc, w).
Proof.
  intros Hflat Hz. induction lp as [|[k files] lp IH]; [reflexivity|].
  rewrite flat_cons in Hflat. apply app_eq_nil in Hflat as [-> Hflat].
  cbn [for_each]. unfold bind at 1. unfold copy_priority.
  unfold bind at 1. unfold ret at 1. unfold bind at 1.
  rewrite Hz. cbn. now apply IH.
Qed.

Lemma drive_second (cfg : settings) (temp wants : bool) (d : drive)
    (w : world) :
  routing = routing_enabled pl wants ->
  dis = disabled_extensions cfg ->
  copy_only = copy_only_priority cfg ->
  (forall p, p ∈ drive_files d ->
     ~ (out `prefix_of` p) /\
     finished xxh64 pl dis routing copy_only f2 K p) ->
  idle_here w ->
  match process_drive xxh64 cfg out pl temp wants d w with
  | (inr _, w') => idle_here w'
  | (inl _, w') => attempts (trace w') = a0
  end.
Proof.
  intros Hr Hdis Honly Hfiles (Ha & HK & Hk).
  unfold process_drive. unfold bind at 1.
  pose proof (create_drive_dir_effect out d w) as Hmk.
  destruct (create_drive_dir out d w) as [[e|cur] w1]; [now subst w1|].
  destruct Hmk as [Hcur (Hj & Hc & Ht & Hf)].
  assert (Hidle1 : idle_here w1).
  { split; [now rewrite Ht|]. split; [now rewrite Hc|].
    eapply keeps_trans; [exact Hk|]. intros q _. apply Hf. }
  unfold bind at 1. rewrite <- Hdis.
  pose proof (walk_second (drive_files d) cur temp wants w1 Hr Hcur Hfiles
                Hidle1) as Hwalk.
  destruct (walk_through_files xxh64 (drive_files d) cur pl dis temp wants w1)
    as [[e|[lp np]] w2]; [exact Hwalk|].
  destruct Hwalk as (Hidle2 & Hlp & Hnp). cbn [fst snd].
  destruct wants; [|exact Hidle2].
  unfold bind at 1. unfold copy_other_priorities. unfold bind at 1.
  rewrite (drain_empty cur temp lp (0, 0%nat) w2 Hlp eq_refl).
  rewrite <- Honly. destruct copy_only; cbn [negb ret]; [exact Hidle2|].
  rewrite (Hnp eq_refl). exact Hidle2.
Qed.

Lemma drives_second (cfg : settings) (temp wants : bool) (ds : list drive)
    (w : world) :
  routing = routing_enabled pl wants ->
  dis = disabled_extensions cfg ->
  copy_only = copy_only_priority cfg ->
  (forall p, p ∈ concat (map drive_files ds) ->
     ~ (out `prefix_of` p) /\
     finished xxh64 pl dis routing copy_only f2 K p) ->
  idle_here w ->
  attempts
    (trace (snd (for_each ds
                   (fun d _ => process_drive xxh64 cfg out pl temp wants d)
                   tt w))) = a0.
Proof.
  intros Hr Hdis Honly Hfiles Hidle.
  pose proof (for_each_always
                (fun d (_ : unit) => process_drive xxh64 cfg out pl temp wants d)
                (fun _ v => idle_here v) (fun v => attempts (trace v) = a0) ds) as H.
  assert (Hstep : forall (d : drive) (s : unit) (v : world),
            d ∈ ds -> idle_here v ->
            match process_drive xxh64 cfg out pl temp wants d v with
            | (inr _, v') => idle_here v'
            | (inl _, v') => attempts (trace v') = a0
            end).
  { intros d [] v Hd Hv. apply drive_second; auto.
    intros p Hp. apply Hfiles. apply list_elem_of_In, in_concat.
    exists (drive_files d). split; [|now apply list_elem_of_In].
    apply in_map. now apply list_elem_of_In. }
  specialize (H Hstep tt w Hidle).
  destruct (for_each ds _ tt w) as [[e|[]] w']; [exact H|apply H].
Qed.

End SecondScan.

(** *** The keys of the buckets during a scan *)

Lemma dict_set_keys (k : string) (v b : list pending) (lp : buckets) :
  dict_get k lp = Some b -> map fst (dict_set k v lp) = map fst lp.
Proof.
  revert b; induction lp as [|[k' v'] lp IH]; intros b H; cbn in H;
    [discriminate|].
  cbn [dict_set]. destruct (String.eqb k k'); [reflexivity|].
  cbn. f_equal. eapply IH; eauto.
Qed.

Lemma scan_start_keys (pl : list string) :
  NoDup pl -> map fst (lower_priority_files (scan_start pl)) = tl pl.
Proof.
  intros Hnd. apply empty_buckets_keys.
  destruct pl as [|first others]; [constructor|].
  now apply NoDup_cons in Hnd as [_ Hnd].
Qed.

(** The buckets keep the keys [priority_list[1:]] throughout the scan. *)
Lemma scan_keys (cur : path) (pl : list string) (dis : gset string)
    (routing : bool) (files : list path) (st : scan) (w w' : world) :
  NoDup pl ->
  for_each files (visit xxh64 cur pl dis routing) (scan_start pl) w
    = (inr st, w') ->
  map fst (lower_priority_files st) = tl pl.
Proof.
  intros Hnd Hrun.
  pose (P := fun (_ : list path) (s : scan) (_ : world) =>
               map fst (lower_priority_files s) = tl pl).
  assert (HP : P ([] ++ files)%list st w').
  { eapply (for_each_progress _ P files); [|clear Hrun|exact Hrun].
    - intros done p s v s' v' _ Hs Hstep. unfold P in *.
      pose proof (visit_effect cur cur pl dis routing p s v
                    ltac:(reflexivity)) as H.
      rewrite Hstep in H. destruct H as (data & c & _ & _ & H).
      cbv zeta in H.
      destruct H as [(_ & _ & [[_ ->]|[(_ & _ & ->)|[H|H]]])|(_ & _ & -> & _)];
        auto.
      + destruct H as (_ & _ & _ & _ & b & Hb & ->).
        now rewrite (dict_set_keys _ _ _ _ Hb).
      + destruct H as (_ & _ & _ & _ & -> & _). exact Hs.
    - now apply scan_start_keys. }
  exact HP.
Qed.

(** *** What the scan skips, and what a temporary state leaves alone *)

(** The scan skips a file whose fingerprint is in the copied set. *)
Lemma visit_skips (cur : path) (pl : list string) (dis : gset string)
    (routing : bool) (p : path) (data : list Byte.byte) (c : string)
    (st : scan) (w : world) :
  fs w !! p = Some (File true data) ->
  checksum_of xxh64 data (Z.of_nat (length data)) = inr c ->
  c ∈ copied w ->
  visit xxh64 cur pl dis routing p st w = (inr st, w).
Proof.
  intros Hp Hc Hin. unfold visit.
  unfold bind at 1. unfold get_file_size at 1. rewrite Hp.
  unfold bind at 1. unfold get_checksum at 1. rewrite Hp, Hc.
  unfold bind at 1. unfold gets at 1.
  now rewrite (bool_decide_eq_true_2 _ Hin).
Qed.

(** With [temp_state] set, processing a drive never touches the state
    file. *)
Lemma temp_drive_keeps_state (cfg : settings) (out : path) (pl : list string)
    (wants : bool) (d : drive) (w : world) :
  let w' := snd (process_drive xxh64 cfg out pl true wants d w) in
  state_json w' = state_json w /\ saves (trace w') = saves (trace w).
Proof.
  pose (same := fun v v' : world =>
          state_json v' = state_json v /\ saves (trace v') = saves (trace v)).
  assert (Htrans : forall v1 v2 v3, same v1 v2 -> same v2 v3 -> same v1 v3).
  { intros v1 v2 v3 [H1 H2] [H3 H4]. split; congruence. }
  assert (Hdirs : forall v v', only_dirs v v' -> same v v').
  { intros v v' (Hj & _ & Ht & _). split; [exact Hj|now rewrite Ht]. }
  assert (Hmk : forall o n v,
            same v (snd (create_directory_or_file o n v))).
  { intros o n v. pose proof (create_directory_effect o n v) as H.
    destruct (create_directory_or_file o n v) as [[e|dir] v'];
      [subst v'; now split|]. apply Hdirs, H. }
  assert (Hbucket : forall dir files acc v,
            same v (snd (for_each files (copy_pending dir) acc v))).
  { intros dir files acc v.
    destruct (drain_bucket dir files acc v) as (acc' & v' & E & _ & Hs & Hj & _).
    rewrite E. now split. }
  assert (Hscan : forall cur files v,
            same v (snd (walk_through_files xxh64 files cur pl
                           (disabled_extensions cfg) true wants v))).
  { intros cur files v. unfold walk_through_files. unfold bind at 1.
    pose proof (for_each_always
      (visit xxh64 cur pl (disabled_extensions cfg) (routing_enabled pl wants))
      (fun _ v' => same v v') (fun v' => same v v') files) as H.
    assert (Hstep : forall p s v0, p ∈ files -> same v v0 ->
              match visit xxh64 cur pl (disabled_extensions cfg)
                      (routing_enabled pl wants) p s v0 with
              | (inr _, v') => same v v'
              | (inl _, v') => same v v'
              end).
    { intros p s v0 _ Hv.
      pose proof (visit_effect cur cur pl (disabled_extensions cfg)
                    (routing_enabled pl wants) p s v0 ltac:(reflexivity)) as He.
      destruct (visit xxh64 cur pl _ _ p s v0) as [[e|s'] v'].
      - eapply Htrans; eauto.
      - destruct He as (data & c & _ & _ & He). cbv zeta in He.
        destruct He as [(-> & _)|(_ & _ & _ & Hj & _ & _ & Hs & _)];
          [exact Hv|].
        eapply Htrans; [exact Hv|]. now split. }
    specialize (H Hstep (scan_start pl) v ltac:(now split)).
    destruct (for_each files _ (scan_start pl) v) as [[e|st] v']; [exact H|].
    rewrite andb_false_r.
    destruct (routing_enabled pl wants), (Nat.ltb 0 (number_of_copied st));
      exact H. }
  assert (Htier : forall cur item acc v,
            same v (snd (copy_priority cur true item acc v))).
  { intros cur [k files] acc v. unfold copy_priority. unfold bind at 1.
    destruct files as [|r files].
    - unfold ret at 1. unfold bind.
      destruct (Nat.ltb 0 (snd acc)); now split.
    - unfold bind at 1.
      pose proof (Hmk cur ("Priority_" +:+ PyStr.upper (PyStr.drop_first k)) v)
        as H1.
      destruct (create_directory_or_file cur _ v) as [[e|dir] v1];
        [exact H1|].
      pose proof (Hbucket dir (r :: files) acc v1) as H2.
      destruct (for_each (r :: files) (copy_pending dir) acc v1)
        as [[e|acc'] v2]; [eapply Htrans; eauto|].
      unfold bind. destruct (Nat.ltb 0 (snd acc')); eapply Htrans; eauto. }
  assert (Hdrain : forall cur lp v,
            same v (snd (copy_other_priorities lp cur true v))).
  { intros cur lp v. unfold copy_other_priorities, bind.
    pose proof (for_each_always (copy_priority cur true)
      (fun _ v' => same v v') (fun v' => same v v') lp) as H.
    assert (Hstep : forall item s v0, item ∈ lp -> same v v0 ->
              match copy_priority cur true item s v0 with
              | (inr _, v') => same v v'
              | (inl _, v') => same v v'
              end).
    { intros item s v0 _ Hv. pose proof (Htier cur item s v0) as Ht.
      destruct (copy_priority cur true item s v0) as [[e|s'] v'];
        eapply Htrans; eauto. }
    specialize (H Hstep (0, 0%nat) v ltac:(now split)).
    destruct (for_each lp (copy_priority cur true) (0, 0%nat) v)
      as [[e|acc] v']; exact H. }
  assert (Hrest : forall cur np v,
            same v (snd (copy_non_priority np cur true v))).
  { intros cur np v. unfold copy_non_priority. unfold bind at 1.
    destruct np as [|r np]; [now split|].
    unfold bind at 1.
    pose proof (Hmk cur "Non-priority" v) as H1.
    destruct (create_directory_or_file cur _ v) as [[e|dir] v1]; [exact H1|].
    pose proof (Hbucket dir (r :: np) (0, 0%nat) v1) as H2.
    destruct (for_each (r :: np) (copy_pending dir) (0, 0%nat) v1)
      as [[e|acc'] v2]; [eapply Htrans; eauto|].
    destruct (Nat.ltb 0 (snd acc')); eapply Htrans; eauto. }
  cbv zeta. change (same w (snd (process_drive xxh64 cfg out pl true wants d w))).
  unfold process_drive. unfold bind at 1. unfold create_drive_dir.
  pose proof (Hmk out ("Drive_" +:+ PyStr.drop_last (drive_name d) +:+ "_copy") w)
    as H1.
  destruct (create_directory_or_file out _ w) as [[e|cur] w1]; [exact H1|].
  unfold bind at 1.
  pose proof (Hscan cur (drive_files d) w1) as H2.
  destruct (walk_through_files xxh64 (drive_files d) cur pl _ true wants w1)
    as [[e|found] w2]; [eapply Htrans; eauto|].
  destruct wants; [|eapply Htrans; eauto].
  unfold bind at 1.
  pose proof (Hdrain cur (fst found) w2) as H3.
  destruct (copy_other_priorities (fst found) cur true w2) as [[e|[]] w3];
    [eapply Htrans; [|exact H3]; eapply Htrans; eauto|].
  destruct (copy_only_priority cfg); cbn [negb].
  - eapply Htrans; [|exact H3]. eapply Htrans; eauto.
  - eapply Htrans; [|apply Hrest]. eapply Htrans; [|exact H3].
    eapply Htrans; eauto.
Qed.

(** *** Sessions *)

(** A session asked for a temporary state ends in [prompts]. *)
Lemma main_temp (cfg : settings) (a : answers) (polls : list (list drive))
    (w : world) :
  asks_temp cfg a = true ->
  fst (main xxh64 cfg a polls w) = inl TypeError /\
  trace (snd (main xxh64 cfg a polls w)) = trace w /\
  copied (snd (main xxh64 cfg a polls w)) = copied w /\
  fs (snd (main xxh64 cfg a polls w)) = fs w.
Proof.
  unfold asks_temp, main, prompts. intros H.
  apply andb_true_iff in H as [Hskip Htemp].
  rewrite Hskip. unfold bind at 1. unfold bind at 1.
  destruct (String.eqb (wants_cleared_state_file a) "y");
    unfold bind; cbn; rewrite Htemp; cbn; auto.
Qed.

(** Any other session that does not clear the state file loads the ledger
    and enters the loop with the session's settings. *)
Lemma main_plain (cfg : settings) (a : answers) (polls : list (list drive))
    (w : world) :
  asks_temp cfg a = false ->
  asks_reset cfg a = false ->
  main xxh64 cfg a polls w =
    bind get_copied
      (fun done =>
         bind (modify (set_copied done))
           (fun _ => main_loop xxh64 cfg (session_output cfg a)
                       (session_list cfg a) false (session_wants cfg a) polls))
      w.
Proof.
  unfold asks_temp, asks_reset, main, prompts, session_output, session_list,
    session_wants.
  intros Htemp Hreset. destruct (skip_prompts cfg); cbn [negb andb] in *.
  - reflexivity.
  - rewrite Htemp, Hreset. reflexivity.
Qed.

Lemma ledger_loaded (w : world) :
  exists w1,
    bind get_copied (fun done => modify (set_copied done)) w = (inr tt, w1) /\
    synced w1 /\ fs w1 = fs w /\ trace w1 = trace w /\
    (forall items, state_json w = JsonList items ->
                   copied w1 = list_to_set items).
Proof.
  assert (Hfresh : forall v : world,
            synced (set_copied ∅ (set_state_json (JsonList []) v))).
  { intros v. exists []. split; [reflexivity|]. apply list_to_set_nil. }
  cbv beta iota delta [bind get_copied gets].
  destruct (state_json w) as [| |items] eqn:Hj.
  - exists (set_copied ∅ (set_state_json (JsonList []) w)).
    split; [reflexivity|]. split; [apply Hfresh|].
    repeat split. intros items H. discriminate.
  - exists (set_copied ∅ (set_state_json (JsonList []) w)).
    split; [reflexivity|]. split; [apply Hfresh|].
    repeat split. intros items H. discriminate.
  - exists (set_copied (list_to_set items) w).
    split; [reflexivity|]. split.
    + exists items. split; [exact Hj|reflexivity].
    + repeat split. intros items' H. inversion H; subst. reflexivity.
Qed.

(** C9, as stated, fails: the first session copies [ok.jpg], then meets
    the file it cannot read and ends there, before any save; the state
    file is left empty. The second session, over the same unchanged drive,
    copies [ok.jpg] again, to the fallback name. *)
Lemma interrupted_run_copies_again :
  fst broken_run = inl OSError /\
  trace (snd broken_run) =
    [ Copied ["E"; "ok.jpg"]
        ["out"; "Drive_E_copy"; "Priority_jpg"; "ok.jpg"] ] /\
  state_json (snd broken_run) = JsonList [] /\
  Forall (fun p => fs (snd broken_run) !! p = fs locked_drive !! p)
         late_locked_files /\
  trace (snd broken_rerun) =
    [ Copied ["E"; "ok.jpg"]
        ["out"; "Drive_E_copy"; "Priority_jpg"; "ok_copy.jpg"];
      Copied ["E"; "ok.jpg"]
        ["out"; "Drive_E_copy"; "Priority_jpg"; "ok.jpg"] ].
Proof.
  split; [vm_compute; reflexivity|]. split; [vm_compute; reflexivity|].
  split; [vm_compute; reflexivity|]. split; [|vm_compute; reflexivity].
  repeat constructor; vm_compute; reflexivity.
Qed.

(** C9, amended. A session that does not clear the state file and whose
    drives lie outside its output directory has run to its end, without an
    error. Then the state file lists exactly the copied set, which holds
    the fingerprint of every file of the drives except those the
    configuration never copies (a disabled extension, or a non-priority
    file when only priority files are copied). A second session with the
    same settings and answers, started with that state file on drives
    whose files are unchanged, calls [copy_file] for no file. *)
Theorem rerun_copies_nothing (cfg : settings) (a : answers)
    (polls : list (list drive)) (w1 w1' w2 : world) (b : bool) :
  asks_reset cfg a = false ->
  (forall p, p ∈ volume polls -> ~ (session_output cfg a `prefix_of` p)) ->
  main xxh64 cfg a polls w1 = (inr b, w1') ->
  state_json w2 = state_json w1' ->
  (forall p, p ∈ volume polls -> fs w2 !! p = fs w1 !! p) ->
  synced w1' /\
  (forall p, p ∈ volume polls ->
     finished xxh64 (session_list cfg a) (disabled_extensions cfg)
       (routing_enabled (session_list cfg a) (session_wants cfg a))
       (copy_only_priority cfg) (fs w1) (copied w1') p) /\
  attempts (trace (snd (main xxh64 cfg a polls w2))) = attempts (trace w2).
Proof.
  intros Hreset Hout Hrun Hjson Hsame.
  destruct (asks_temp cfg a) eqn:Htemp.
  { destruct (main_temp cfg a polls w1 Htemp) as [H _].
    rewrite Hrun in H. discriminate. }
  set (out := session_output cfg a) in *.
  set (pl := session_list cfg a) in *.
  set (wants := session_wants cfg a) in *.
  (* the first session *)
  rewrite (main_plain cfg a polls w1 Htemp Hreset) in Hrun.
  destruct (ledger_loaded w1) as (v1 & Hload & Hsync & Hfs & _ & _).
  unfold bind at 1 in Hrun. unfold bind at 1 in Hload.
  destruct (get_copied w1) as [[e|done] u1]; [discriminate|].
  unfold bind at 1 in Hrun. rewrite Hload in Hrun. clear Hload.
  fold out pl wants in Hrun. rewrite main_loop_drives in Hrun.
  assert (Hfirst : synced w1' /\
            forall p, p ∈ volume polls ->
              finished xxh64 pl (disabled_extensions cfg)
                (routing_enabled pl wants) (copy_only_priority cfg)
                (fs w1) (copied w1') p).
  { unfold volume in *. destruct (first_drives polls) as [|d ds] eqn:Hds.
    - inversion Hrun; subst. split; [exact Hsync|].
      intros p Hp. inversion Hp.
    - unfold bind in Hrun.
      destruct (for_each (d :: ds) _ tt v1) as [[e|[]] v2] eqn:Hloop;
        [discriminate|].
      cbn in Hrun. inversion Hrun; subst v2.
      destruct (drives_first cfg out pl wants (fs w1) (d :: ds) v1 w1')
        as (Hs & _ & Hall); auto.
      rewrite Hfs. apply keeps_refl. }
  destruct Hfirst as [Hsync' Hall]. split; [exact Hsync'|].
  split; [exact Hall|].
  (* the second session *)
  rewrite (main_plain cfg a polls w2 Htemp Hreset).
  destruct (ledger_loaded w2) as (v2 & Hload & _ & Hfs2 & Htr2 & Hitems).
  unfold bind at 1. unfold bind at 1 in Hload.
  destruct (get_copied w2) as [[e|done2] u2]; [discriminate|].
  unfold bind at 1. rewrite Hload. clear Hload.
  fold out pl wants. rewrite main_loop_drives.
  destruct Hsync' as (items & Hj1 & Hset).
  assert (HK : copied v2 = copied w1').
  { rewrite (Hitems items) by congruence. exact Hset. }
  unfold volume in *. destruct (first_drives polls) as [|d ds] eqn:Hds.
  - cbn. congruence.
  - unfold bind.
    pose proof (drives_second out pl (disabled_extensions cfg)
                  (routing_enabled pl wants) (copy_only_priority cfg)
                  (fs v2) (copied w1') (attempts (trace w2))
                  cfg false wants (d :: ds) v2 eq_refl eq_refl eq_refl) as H.
    destruct (for_each (d :: ds) _ tt v2) as [[e|[]] v3]; cbn in *; apply H.
    + intros p Hp. split; [auto|].
      destruct (Hall p Hp) as (data & c & Hf & Hc & Hfin).
      exists data, c. rewrite Hfs2, (Hsame p Hp). auto.
    + split; [congruence|]. split; [now rewrite HK|apply keeps_refl].
    + intros p Hp. split; [auto|].
      destruct (Hall p Hp) as (data & c & Hf & Hc & Hfin).
      exists data, c. rewrite Hfs2, (Hsame p Hp). auto.
    + split; [congruence|]. split; [now rewrite HK|apply keeps_refl].
Qed.

End Rerun.

(** The first session on the mixed drive copies the picture, the text file
    and the drawing; the second one, started where the first ended, copies
    nothing. *)
Lemma mixed_run_copies :
  fst mixed_run = inr true /\
  attempts (trace (snd mixed_run)) =
    [ ["E"; "draw.png"]; ["E"; "note.txt"]; ["E"; "pic.JPG"] ].
Proof. vm_compute. auto. Qed.

(** The second session on the mixed drive. *)
Lemma rerun_copies_nothing_witness :
  attempts (trace (snd (main sample_hash sample_cfg no_answers
                          [[Drive "E:" mixed_files]] (snd mixed_run)))) =
  attempts (trace (snd mixed_run)).
Proof.
  refine (proj2 (proj2
    (rerun_copies_nothing sample_hash sample_cfg no_answers
       [[Drive "E:" mixed_files]] mixed_drive (snd mixed_run) (snd mixed_run)
       true _ _ _ _ _))).
  - reflexivity.
  - apply Forall_forall. vm_compute.
    repeat constructor; intros [k Hk]; discriminate Hk.
  - vm_compute. reflexivity.
  - reflexivity.
  - apply Forall_forall. repeat constructor; vm_compute; reflexivity.
Defined.

(* ===================================================================== *)
(** * Further properties of the code *)
(* ===================================================================== *)

(** ** The priority list, entry by entry *)

Lemma priority_loop_snoc (raw : list string) (x : string) (seen : gset string)
    (acc : list string) :
  seen = list_to_set acc ->
  priority_loop (raw ++ [x]) seen acc =
    let l := priority_loop raw seen acc in
    if (is_extension_valid (PyStr.lower x)
        && negb (bool_decide (PyStr.lower x ∈ l)))%bool
    then (l ++ [PyStr.lower x])%list else l.
Proof.
  revert seen acc; induction raw as [|y raw IH]; intros seen acc Hseen.
  - cbn. subst seen.
    destruct (is_extension_valid (PyStr.lower x)); cbn [andb]; [|reflexivity].
    repeat case_bool_decide; cbn [negb]; try reflexivity;
      exfalso; set_solver.
  - cbn [app priority_loop].
    destruct (is_extension_valid (PyStr.lower y)); cbn [andb];
      [|now apply IH].
    case_bool_decide; cbn [negb]; [now apply IH|].
    apply IH. subst seen. rewrite list_to_set_app_L. set_solver.
Qed.

Lemma priority_list_snoc (raw : list string) (x : string) (d : list string)
    (o : path) (c s e : bool) :
  get_priority_list (Settings (raw ++ [x]) d o c s e) =
    let l := get_priority_list (Settings raw d o c s e) in
    if (is_extension_valid (PyStr.lower x)
        && negb (bool_decide (PyStr.lower x ∈ l)))%bool
    then (l ++ [PyStr.lower x])%list else l.
Proof.
  unfold get_priority_list. cbn [prioritized_file_extensions].
  apply priority_loop_snoc. set_solver.
Qed.

(** X1. [get_priority_list] returns exactly the valid lower-cased entries of
    the setting: no entry twice, every entry lower-case with a dot and at
    least one more character, and an extension is listed if and only if it
    is valid and is the lower-case form of some configured entry. *)
Theorem priority_list_content (cfg : settings) :
  NoDup (get_priority_list cfg) /\
  Forall normalized (get_priority_list cfg) /\
  forall e, e ∈ get_priority_list cfg <->
    is_extension_valid e = true /\
    exists x, x ∈ prioritized_file_extensions cfg /\ PyStr.lower x = e.
Proof.
  destruct (priority_list_normal cfg) as [Hnd Hall].
  split; [exact Hnd|]. split; [exact Hall|].
  destruct cfg as [raw d o c s en]. cbn [prioritized_file_extensions].
  clear Hnd Hall.
  induction raw as [|x raw IH] using rev_ind; intros e.
  - cbn. split; [intros H; inversion H|].
    intros (_ & x & Hx & _). inversion Hx.
  - rewrite priority_list_snoc. cbv zeta.
    destruct (is_extension_valid (PyStr.lower x)) eqn:Hv; cbn [andb].
    + case_bool_decide as Hin; cbn [negb].
      * rewrite IH. split.
        -- intros (He & y & Hy & Hl). split; [exact He|].
           exists y. split; [set_solver|exact Hl].
        -- intros (He & y & Hy & Hl). split; [exact He|].
           apply elem_of_app in Hy. destruct Hy as [Hy|Hy].
           ++ now exists y.
           ++ apply list_elem_of_singleton in Hy. subst y.
              apply IH in Hin. destruct Hin as (_ & z & Hz & Hzl).
              exists z. split; [exact Hz|congruence].
      * rewrite elem_of_app, IH, list_elem_of_singleton. split.
        -- intros [(He & y & Hy & Hl)| ->].
           ++ split; [exact He|]. exists y. split; [set_solver|exact Hl].
           ++ split; [exact Hv|]. exists x. split; [set_solver|reflexivity].
        -- intros (He & y & Hy & Hl).
           apply elem_of_app in Hy. destruct Hy as [Hy|Hy].
           ++ left. split; [exact He|]. now exists y.
           ++ apply list_elem_of_singleton in Hy. subst y. now right.
    + rewrite IH. split.
      * intros (He & y & Hy & Hl). split; [exact He|].
        exists y. split; [set_solver|exact Hl].
      * intros (He & y & Hy & Hl). split; [exact He|].
        apply elem_of_app in Hy. destruct Hy as [Hy|Hy].
        -- now exists y.
        -- apply list_elem_of_singleton in Hy. subst y. congruence.
Qed.

(** X2. The order of the priority list is the order of first occurrence:
    the list of a setting extended by more entries is the list of the
    setting followed by the new extensions of the added entries, in their
    order; and the list read from a priority list is that list. *)
Theorem priority_list_order (raw more d : list string) (o : path)
    (c s e : bool) :
  let pl := fun r => get_priority_list (Settings r d o c s e) in
  pl (raw ++ more)%list =
    (pl raw ++ filter (fun x => x ∉ pl raw) (pl more))%list /\
  pl (pl raw) = pl raw.
Proof.
  intros pl.
  assert (Hs : forall r x,
    pl (r ++ [x])%list =
      if (is_extension_valid (PyStr.lower x)
          && negb (bool_decide (PyStr.lower x ∈ pl r)))%bool
      then (pl r ++ [PyStr.lower x])%list else pl r).
  { intros r x. apply priority_list_snoc. }
  assert (Happ : forall r m,
    pl (r ++ m)%list = (pl r ++ filter (fun x => x ∉ pl r) (pl m))%list).
  { intros r m. induction m as [|x m IH] using rev_ind.
    - rewrite app_nil_r. unfold pl at 3. cbn. now rewrite app_nil_r.
    - rewrite app_assoc, !Hs, IH.
      destruct (is_extension_valid (PyStr.lower x)) eqn:Hv; cbn [andb];
        [|reflexivity].
      destruct (decide (PyStr.lower x ∈ pl m)) as [Hm|Hm];
        destruct (decide (PyStr.lower x ∈ pl r)) as [Hr|Hr].
      + rewrite !bool_decide_eq_true_2; [reflexivity|exact Hm|set_solver].
      + rewrite !bool_decide_eq_true_2; [reflexivity|exact Hm|].
        apply elem_of_app. right. apply list_elem_of_filter. now split.
      + rewrite bool_decide_eq_true_2 by set_solver.
        rewrite bool_decide_eq_false_2 by exact Hm. cbn [negb].
        rewrite filter_app, filter_cons_False, filter_nil, app_nil_r;
          [reflexivity|tauto].
      + rewrite bool_decide_eq_false_2.
        2:{ rewrite elem_of_app, list_elem_of_filter. tauto. }
        rewrite bool_decide_eq_false_2 by exact Hm. cbn [negb].
        rewrite filter_app, filter_cons_True, filter_nil by exact Hr.
        now rewrite app_assoc. }
  split; [apply Happ|].
  assert (Hfix : forall l, NoDup l -> Forall normalized l -> pl l = l).
  { induction l as [|x l IH] using rev_ind; intros Hnd Hall; [reflexivity|].
    apply NoDup_app in Hnd. destruct Hnd as (Hnd & Hx & _).
    apply Forall_app in Hall. destruct Hall as [Hall Hxn].
    apply Forall_inv in Hxn. destruct Hxn as [Hlow Hvalid].
    rewrite Hs, IH by assumption. rewrite Hlow, Hvalid. cbn [andb].
    rewrite bool_decide_eq_false_2; [reflexivity|].
    intros Hin. apply (Hx x Hin). set_solver. }
  apply Hfix; apply (priority_list_normal (Settings raw d o c s e)).
Qed.

(** ** The ledger on disk *)

(** X3. Saving a set of fingerprints and loading the state file gives the
    set back: after [save_state] the file lists each fingerprint of the set
    once and nothing else, [get_copied] returns the set and leaves the store
    as it is, and neither the files nor the session's set are touched. *)
Theorem ledger_round_trip (state : gset string) (w : world) :
  let w1 := snd (save_state state w) in
  fst (save_state state w) = inr tt /\
  get_copied w1 = (inr state, w1) /\
  (exists items, state_json w1 = JsonList items /\ NoDup items /\
                 forall c, c ∈ items <-> c ∈ state) /\
  fs w1 = fs w /\ copied w1 = copied w /\ denied w1 = denied w.
Proof.
  cbv zeta. unfold save_state, get_copied, bind, modify, gets, ret. cbn.
  repeat split.
  - now rewrite list_to_set_elements_L.
  - exists (elements state). split; [reflexivity|].
    split; [apply NoDup_elements|]. intros c. apply elem_of_elements.
Qed.


(** ** Creating directories *)

Lemma mkdir_parents_effect (rest prefix : path) (f f' : gmap path node) :
  mkdir_parents prefix rest f = inr f' ->
  (forall k, (0 < k <= length rest)%nat ->
     f' !! (prefix ++ take k rest)%list = Some Dir) /\
  (forall q, f' !! q = f !! q \/
     exists k, (0 < k <= length rest)%nat /\ q = (prefix ++ take k rest)%list).
Proof.
  revert prefix f; induction rest as [|c rest IH]; intros prefix f Hrun.
  - cbn in Hrun. injection Hrun as <-. split; [cbn; lia|]. now left.
  - cbn [mkdir_parents] in Hrun.
    assert (Hk : forall k, (prefix ++ take (S k) (c :: rest))%list
                           = ((prefix ++ [c]) ++ take k rest)%list).
    { intros k. cbn [take]. now rewrite <- app_assoc. }
    destruct (f !! (prefix ++ [c])%list) as [[|r data]|] eqn:Hp;
      [|discriminate|].
    + destruct (IH _ _ Hrun) as [Hmade Honly]. split.
      * intros [|k] Hle; [lia|]. rewrite Hk. destruct k as [|k].
        -- rewrite take_0, app_nil_r.
           rewrite (mkdir_parents_keeps _ _ _ _ Hrun) by (rewrite Hp; eauto).
           exact Hp.
        -- apply Hmade. cbn [length] in Hle. lia.
      * intros q. destruct (Honly q) as [Heq|(k & Hle & ->)]; [now left|].
        right. exists (S k). rewrite Hk.
        split; [cbn [length]; lia|reflexivity].
    + destruct (IH _ _ Hrun) as [Hmade Honly]. split.
      * intros [|k] Hle; [lia|]. rewrite Hk. destruct k as [|k].
        -- rewrite take_0, app_nil_r.
           rewrite (mkdir_parents_keeps _ _ _ _ Hrun)
             by (rewrite lookup_insert_eq; eauto).
           apply lookup_insert_eq.
        -- apply Hmade. cbn [length] in Hle. lia.
      * intros q. destruct (Honly q) as [Heq|(k & Hle & ->)].
        -- destruct (decide (q = (prefix ++ [c])%list)) as [->|Hqp].
           ++ right. exists 1%nat. split; [cbn [length]; lia|].
              now rewrite Hk, take_0, app_nil_r.
           ++ left. now rewrite lookup_insert_ne in Heq by congruence.
        -- right. exists (S k). rewrite Hk.
           split; [cbn [length]; lia|reflexivity].
Qed.

Lemma mkdir_parents_blocked (rest prefix : path) (f : gmap path node)
    (e : exn) :
  mkdir_parents prefix rest f = inl e ->
  exists k r data, (0 < k <= length rest)%nat /\
    f !! (prefix ++ take k rest)%list = Some (File r data).
Proof.
  revert prefix f; induction rest as [|c rest IH]; intros prefix f Hrun;
    [discriminate|].
  cbn [mkdir_parents] in Hrun.
  assert (Hk : forall k, (prefix ++ take (S k) (c :: rest))%list
                         = ((prefix ++ [c]) ++ take k rest)%list).
  { intros k. cbn [take]. now rewrite <- app_assoc. }
  destruct (f !! (prefix ++ [c])%list) as [[|r data]|] eqn:Hp.
  - destruct (IH _ _ Hrun) as (k & r & data & Hle & Hf).
    exists (S k), r, data. rewrite Hk. split; [cbn [length]; lia|exact Hf].
  - exists 1%nat, r, data. rewrite Hk, take_0, app_nil_r.
    split; [cbn [length]; lia|exact Hp].
  - destruct (IH _ _ Hrun) as (k & r & data & Hle & Hf).
    exists (S k), r, data. rewrite Hk. split; [cbn [length]; lia|].
    rewrite lookup_insert_ne in Hf; [exact Hf|].
    intros Heq. apply (f_equal length) in Heq.
    rewrite !length_app, length_take in Heq. cbn [length] in Heq. lia.
Qed.

(** X5. What [create_directory_or_file] guarantees. When it returns, the
    result is [output_dir / path_name1] and that path exists; if it did not
    exist before, it and all its ancestors are now directories; nothing that
    existed was changed, and whatever is new is a directory on the way to
    the result; a path that existed already leaves the store untouched, and
    so does a second call. When it fails, the error is an [OSError], the
    store is unchanged, and an ancestor of the path is a file. *)
Theorem create_directory_outcome (output_dir : path) (path_name1 : string)
    (w : world) :
  let d := PyPath.join output_dir path_name1 in
  match create_directory_or_file output_dir path_name1 w with
  | (inr d', w') =>
      d' = d /\ is_Some (fs w' !! d) /\
      (fs w !! d = None ->
       forall k, (0 < k <= length d)%nat -> fs w' !! take k d = Some Dir) /\
      (forall q, fs w' !! q = fs w !! q \/
                 (fs w !! q = None /\ fs w' !! q = Some Dir /\
                  q `prefix_of` d)) /\
      (is_Some (fs w !! d) -> w' = w) /\
      create_directory_or_file output_dir path_name1 w' = (inr d, w') /\
      denied w' = denied w /\ state_json w' = state_json w /\
      copied w' = copied w /\ trace w' = trace w
  | (inl e, w') =>
      e = OSError /\ w' = w /\ fs w !! d = None /\
      exists k r data, (0 < k < length d)%nat /\
        fs w !! take k d = Some (File r data)
  end.
Proof.
  cbv zeta. unfold create_directory_or_file, bind, exists_, gets, ret, mkdir.
  set (d := PyPath.join output_dir path_name1).
  case_bool_decide as Hex.
  - rewrite bool_decide_eq_true_2 by exact Hex.
    repeat split; auto.
    intros Hnone. rewrite Hnone in Hex. now destruct Hex.
  - assert (Hnone : fs w !! d = None).
    { destruct (fs w !! d) eqn:E; [|reflexivity]. exfalso. apply Hex. eauto. }
    destruct (mkdir_parents [] d (fs w)) as [e|f'] eqn:Hrun.
    + split; [now apply mkdir_parents_error in Hrun|].
      split; [reflexivity|]. split; [exact Hnone|].
      destruct (mkdir_parents_blocked _ _ _ _ Hrun) as (k & r & data & Hle & Hf).
      cbn [app] in Hf. exists k, r, data. split; [|exact Hf].
      destruct (decide (k = length d)) as [->|]; [|lia].
      rewrite firstn_all in Hf. congruence.
    + destruct (mkdir_parents_effect _ _ _ _ Hrun) as [Hmade Honly].
      cbn [app] in Hmade, Honly.
      assert (Hlen : (0 < length d)%nat).
      { unfold d, PyPath.join. rewrite length_app. cbn. lia. }
      assert (Hd : fs (set_fs f' w) !! d = Some Dir).
      { cbn. rewrite <- (firstn_all d) at 1. apply Hmade. lia. }
      split; [reflexivity|]. split; [rewrite Hd; eauto|].
      split; [intros _; exact Hmade|].
      split.
      { intros q. cbn [fs set_fs].
        destruct (Honly q) as [Heq|(k & Hle & ->)]; [now left|].
        destruct (fs w !! take k d) eqn:E.
        - left. rewrite (mkdir_parents_keeps _ _ _ _ Hrun) by (rewrite E; eauto).
          exact E.
        - right. split; [reflexivity|]. split; [now apply Hmade|].
          exists (drop k d). symmetry. apply firstn_skipn. }
      split; [intros Hs; rewrite Hnone in Hs; now destruct Hs|].
      split.
      { rewrite bool_decide_eq_true_2 by (rewrite Hd; eauto). reflexivity. }
      repeat split.
Qed.

(** ** What [copy_file] leaves alone *)



(** ** The blind spot of the partial fingerprint *)

Lemma first_bytes_app (n : Z) (h rest : list Byte.byte) :
  Z.to_nat n = length h -> first_bytes n (h ++ rest)%list = h.
Proof. intros H. unfold first_bytes. now apply take_app_length'. Qed.

Lemma last_bytes_app (n : Z) (pre t : list Byte.byte) :
  Z.to_nat n = length t -> last_bytes n (pre ++ t)%list = t.
Proof.
  intros H. unfold last_bytes. apply drop_app_length'.
  rewrite length_app. lia.
Qed.

Lemma zeros_parts :
  zeros =
    (repeat Byte.x00 (Z.to_nat (5 * 1024 * 1024)) ++
     repeat Byte.x00 (Z.to_nat (90 * 1024 * 1024)) ++
     repeat Byte.x00 (Z.to_nat (5 * 1024 * 1024)))%list.
Proof.
  unfold zeros.
  assert (Hsum : Z.to_nat (100 * 1024 * 1024) =
                 (Z.to_nat (5 * 1024 * 1024) +
                  (Z.to_nat (90 * 1024 * 1024) +
                   Z.to_nat (5 * 1024 * 1024)))%nat) by lia.
  rewrite Hsum.
  generalize (Z.to_nat (5 * 1024 * 1024)) (Z.to_nat (90 * 1024 * 1024)).
  intros n5 n90. now rewrite !repeat_app.
Qed.

Lemma padded_size : Z.of_nat (length padded) = 100 * 1024 * 1024.
Proof. unfold padded. rewrite !length_app, !repeat_length. lia. Qed.

Section BlindSpot.

Variable xxh64 : list Byte.byte -> Z.

(** X7. The partial fingerprint does not see the middle of a large file:
    two files of 100 MiB or more with the same first 5 MiB and the same last
    5 MiB have the same fingerprint, whatever lies between and whatever
    their sizes; once one of them is in the copied set, the scan skips the
    other without copying it. *)
Theorem large_files_confused (cur : path) (pl : list string)
    (dis : gset string) (routing : bool) (p2 : path)
    (d1 d2 : list Byte.byte) (st : scan) (w : world) :
  100 * 1024 * 1024 <= Z.of_nat (length d1) ->
  100 * 1024 * 1024 <= Z.of_nat (length d2) ->
  first_bytes (5 * 1024 * 1024) d1 = first_bytes (5 * 1024 * 1024) d2 ->
  last_bytes (5 * 1024 * 1024) d1 = last_bytes (5 * 1024 * 1024) d2 ->
  fs w !! p2 = Some (File true d2) ->
  checksum_of xxh64 d1 (Z.of_nat (length d1)) =
    checksum_of xxh64 d2 (Z.of_nat (length d2)) /\
  (forall c, checksum_of xxh64 d1 (Z.of_nat (length d1)) = inr c ->
             c ∈ copied w ->
             visit xxh64 cur pl dis routing p2 st w = (inr st, w)).
Proof.
  intros H1 H2 Hfirst Hlast Hp.
  assert (Heq : checksum_of xxh64 d1 (Z.of_nat (length d1)) =
                checksum_of xxh64 d2 (Z.of_nat (length d2))).
  { rewrite !checksum_partial by lia. now rewrite Hfirst, Hlast. }
  split; [exact Heq|].
  intros c Hc Hin. rewrite Heq in Hc.
  exact (visit_skips xxh64 cur pl dis routing p2 d2 c st w Hp Hc Hin).
Qed.

End BlindSpot.

Lemma large_files_confused_witness :
  checksum_of sample_hash zeros (Z.of_nat (length zeros)) =
    checksum_of sample_hash padded (Z.of_nat (length padded)).
Proof.
  refine (proj1 (large_files_confused sample_hash [] [] ∅ false
                   ["E"; "padded.bin"] zeros padded (scan_start [])
                   padded_drive _ _ _ _ _)).
  - rewrite zeros_size. lia.
  - rewrite padded_size. lia.
  - rewrite zeros_parts. unfold padded.
    rewrite !first_bytes_app by (now rewrite repeat_length). reflexivity.
  - rewrite zeros_parts. unfold padded.
    rewrite !app_assoc.
    rewrite !last_bytes_app by (now rewrite repeat_length). reflexivity.
  - apply lookup_singleton_eq.
Defined.

(** ** The drains, outcome by outcome *)

(** One tier of the drain: it fails only when its directory cannot be made,
    before any file is copied; otherwise every record of the bucket is
    handed to [copy_file], in order, and its checksum joins the set. *)
Lemma copy_priority_outcome (out : path) (temp : bool) (k : string)
    (files : list pending) (acc : Z * nat) (w : world) :
  match copy_priority out temp (k, files) acc w with
  | (inr _, w') =>
      attempts (trace w') =
        (rev (map (fun r => snd (fst r)) files) ++ attempts (trace w))%list /\
      copied w' = list_to_set (map (fun r => fst (fst r)) files) ∪ copied w
  | (inl e, w') => e = OSError /\ w' = w /\ files <> []
  end.
Proof.
  unfold copy_priority.
  destruct files as [|r files].
  - unfold bind at 1. unfold ret at 1. unfold bind.
    destruct (Nat.ltb 0 (snd acc)); destruct temp; cbn;
      (split; [reflexivity|set_solver]).
  - unfold bind at 1. unfold bind at 1.
    pose proof (create_directory_effect out
                  ("Priority_" +:+ PyStr.upper (PyStr.drop_first k)) w) as Hmk.
    destruct (create_directory_cases out
                ("Priority_" +:+ PyStr.upper (PyStr.drop_first k)) w)
      as [E|(f & E & _)]; rewrite E in *; [now repeat split|].
    destruct Hmk as [_ (_ & Hc0 & Ht0 & _)].
    destruct (drain_bucket
                (PyPath.join out ("Priority_" +:+ PyStr.upper (PyStr.drop_first k)))
                (r :: files) acc (set_fs f w))
      as (acc' & w' & E' & Hn & _ & _ & _ & Hc & Ha).
    rewrite E'. unfold bind.
    assert (Hpos : Nat.ltb 0 (snd acc') = true)
      by (apply Nat.ltb_lt; rewrite Hn; simpl; lia).
    rewrite Hpos. rewrite Ht0 in Ha. rewrite Hc0 in Hc.
    destruct temp; cbn [negb]; [cbn; now split|].
    rewrite save_copied_run. cbn. now split.
Qed.



(** ** Where the copies are aimed *)

Lemma copy_name_join (dir : path) (n : string) :
  copy_name (dir ++ [n])%list =
    (dir ++ [PyPath.stem_of_name n +:+ "_copy" +:+ PyPath.suffix_of_name n])%list.
Proof.
  unfold copy_name, PyPath.with_name, PyPath.stem, PyPath.suffix, PyPath.name.
  now rewrite removelast_last, last_last.
Qed.

Lemma copy_file_event (src dst : path) (w : world) :
  exists e,
    trace (snd (copy_file src dst w)) = e :: trace w /\
    aimed_under (copy_dest w dst) e.
Proof.
  destruct (copy_file_cases src dst w) as [E|(data & _ & E)]; rewrite E.
  - eexists. split; [reflexivity|]. cbn. reflexivity.
  - eexists. split; [reflexivity|]. cbn. unfold copy2_target.
    destruct (fs w !! copy_dest w dst) as [[|]|]; try reflexivity.
    now apply prefix_of_app_r.
Qed.

Lemma copy_file_aims (src dir : path) (n : string) (w : world) :
  exists e,
    trace (snd (copy_file src (dir ++ [n])%list w)) = e :: trace w /\
    aimed_under dir e.
Proof.
  destruct (copy_file_event src (dir ++ [n])%list w) as (e & Ht & Ha).
  exists e. split; [exact Ht|].
  assert (Hd : dir `prefix_of` copy_dest w (dir ++ [n])%list).
  { unfold copy_dest. case_bool_decide.
    - rewrite copy_name_join. now apply prefix_of_app_r.
    - now apply prefix_of_app_r. }
  destruct e as [s t|s t|items]; cbn in *; [| |exact I];
    etransitivity; eauto.
Qed.

Lemma create_directory_there (out : path) (n : string) (d : path)
    (w w' : world) :
  create_directory_or_file out n w = (inr d, w') ->
  d = PyPath.join out n /\ is_Some (fs w' !! d) /\ trace w' = trace w.
Proof.
  unfold create_directory_or_file, bind, exists_, gets, ret, mkdir.
  case_bool_decide as Hex.
  - intros [= <- <-]. auto.
  - destruct (mkdir_parents [] (PyPath.join out n) (fs w)) as [e|f'] eqn:Hrun;
      [discriminate|].
    intros [= <- <-]. split; [reflexivity|]. split; [|reflexivity].
    destruct (mkdir_parents_effect _ _ _ _ Hrun) as [Hmade _].
    cbn [app] in Hmade. cbn [fs set_fs].
    rewrite <- (firstn_all (PyPath.join out n)) at 1.
    rewrite Hmade; [eauto|].
    unfold PyPath.join. rewrite length_app. cbn. lia.
Qed.

Section ScanEvents.

Variable xxh64 : list Byte.byte -> Z.

Lemma checksum_of_error (data : list Byte.byte) (size : Z) (e : exn) :
  checksum_of xxh64 data size = inl e -> e = OSError.
Proof.
  unfold checksum_of. destruct (size <? 100 * 1024 * 1024); [discriminate|].
  unfold h_read, h_seek_end, h_read_all. cbn [h_data h_pos h_open].
  destruct (_ <? 0); [now intros [= <-]|discriminate].
Qed.

(** What one file of the scan adds to the trace, and how it can fail. *)
Lemma visit_events (cur : path) (pl : list string) (dis : gset string)
    (routing : bool) (p : path) (st : scan) (w : world) :
  let ext := PyStr.lower (PyPath.suffix p) in
  match visit xxh64 cur pl dis routing p st w with
  | (inl e, w') =>
      trace w' = trace w /\
      (e = OSError \/
       (e = KeyError /\ routing = true /\ ext ∈ pl /\
        String.eqb ext (PyStr.lower (hd "" pl)) = false /\
        dict_get ext (lower_priority_files st) = None))
  | (inr st', w') =>
      trace w' = trace w \/
      exists e, trace w' = e :: trace w /\
                aimed_under (eager_dir cur pl routing) e
  end.
Proof.
  cbv zeta. unfold visit.
  unfold bind at 1. unfold get_file_size at 1.
  destruct (fs w !! p) as [[|r data]|] eqn:Hp; try (now split; [|left]).
  unfold bind at 1. unfold get_checksum at 1. rewrite Hp.
  destruct r; [|now split; [|left]].
  destruct (checksum_of xxh64 data (Z.of_nat (length data))) as [e|c] eqn:Hc.
  { apply checksum_of_error in Hc. subst e. now split; [|left]. }
  unfold bind at 1. unfold gets at 1.
  set (ext := PyStr.lower (PyPath.suffix p)).
  case_bool_decide as Hseen; [now left|].
  destruct routing.
  - case_bool_decide as Hin.
    + destruct (String.eqb ext (PyStr.lower (hd "" pl))) eqn:Hfirst.
      * set (dir_name := "Priority_" +:+ PyStr.drop_first (hd "" pl)).
        unfold bind at 1.
        assert (Hpre : exists w1,
          (if first_run st
           then bind (create_directory_or_file cur dir_name) (fun _ => ret tt)
           else ret tt) w = (inl OSError, w) \/
          ((if first_run st
            then bind (create_directory_or_file cur dir_name) (fun _ => ret tt)
            else ret tt) w = (inr tt, w1) /\ trace w1 = trace w)).
        { destruct (first_run st).
          - unfold bind.
            pose proof (create_directory_effect cur dir_name w) as Hmk.
            destruct (create_directory_cases cur dir_name w)
              as [E|(f & E & _)]; rewrite E in *.
            + exists w. now left.
            + exists (set_fs f w). right. split; reflexivity.
          - exists w. right. split; reflexivity. }
        destruct Hpre as (w1 & [E|[E Ht1]]); rewrite E; [now split; [|left]|].
        unfold bind at 1.
        destruct (create_directory_cases cur dir_name w1)
          as [E1|(f & E1 & _)]; rewrite E1; [split; [exact Ht1|now left]|].
        unfold bind, copied_add, modify, ret. rewrite copy_file_run.
        destruct (copy_file_aims p (PyPath.join cur dir_name) (PyPath.name p)
                    (set_fs f w1)) as (e & Ht & Ha).
        rewrite copy_file_run in Ht. cbn [snd] in Ht.
        right. exists e. cbn [trace set_copied].
        change (PyPath.join (PyPath.join cur dir_name) (PyPath.name p))
          with (PyPath.join cur dir_name ++ [PyPath.name p])%list.
        rewrite Ht. cbn [trace set_fs]. rewrite Ht1. split; [reflexivity|].
        exact Ha.
      * destruct (dict_get ext (lower_priority_files st)) as [b|] eqn:Hb;
          [now left|].
        split; [reflexivity|]. right. repeat split; auto.
    + case_bool_decide; now left.
  - case_bool_decide as Hdis; [|now left].
    unfold bind at 1.
    destruct (create_directory_or_file cur "All_files_copied" w)
      as [[e|dir] w2] eqn:Emk.
    + pose proof (create_directory_effect cur "All_files_copied" w) as Hmk.
      rewrite Emk in Hmk. subst w2.
      destruct (create_directory_cases cur "All_files_copied" w)
        as [E|(f & E & _)]; rewrite E in Emk; [|discriminate].
      injection Emk as ->. now split; [|left].
    + destruct (create_directory_there _ _ _ _ _ Emk) as (-> & Hex & Ht2).
      unfold bind, copied_add, modify, ret. rewrite copy_file_run.
      destruct (copy_file_event p (PyPath.join cur "All_files_copied") w2)
        as (e & Ht & Ha).
      rewrite copy_file_run in Ht. cbn [snd] in Ht.
      right. exists e. cbn [trace set_copied]. rewrite Ht, Ht2.
      split; [reflexivity|].
      unfold copy_dest in Ha. rewrite bool_decide_eq_true_2 in Ha by exact Hex.
      unfold PyPath.join in Ha. rewrite copy_name_join in Ha. exact Ha.
Qed.

End ScanEvents.

(** ** Loops, with the exception in view *)

Lemma for_each_outcome {A S} (body : A -> S -> M S)
    (I : S -> world -> Prop) (E : exn -> world -> Prop) (xs : list A) :
  (forall x s w, x ∈ xs -> I s w ->
     match body x s w with
     | (inr s', w') => I s' w'
     | (inl e, w') => E e w'
     end) ->
  forall s w, I s w ->
    match for_each xs body s w with
    | (inr s', w') => I s' w'
    | (inl e, w') => E e w'
    end.
Proof.
  induction xs as [|x xs IH]; intros Hstep s w HI; [exact HI|].
  cbn [for_each]. unfold bind.
  pose proof (Hstep x s w ltac:(left) HI) as H.
  destruct (body x s w) as [[e|s1] w1]; [exact H|].
  apply IH; [|exact H]. intros y t v Hy. apply Hstep. now right.
Qed.

Lemma for_each_frame {A S} (body : A -> S -> M S)
    (R : world -> world -> Prop) (xs : list A) :
  (forall w, R w w) ->
  (forall a b c, R a b -> R b c -> R a c) ->
  (forall x s w, x ∈ xs -> R w (snd (body x s w))) ->
  forall s w, R w (snd (for_each xs body s w)).
Proof.
  intros Hrefl Htrans.
  induction xs as [|x xs IH]; intros Hstep s w; [apply Hrefl|].
  cbn [for_each]. unfold bind.
  pose proof (Hstep x s w ltac:(left)) as H.
  destruct (body x s w) as [[e|s1] w1]; [exact H|].
  eapply Htrans; [exact H|]. apply IH. intros y t v Hy. apply Hstep. now right.
Qed.

Lemma added_refl (P : event -> Prop) (w : world) : added P w w.
Proof. exists []. split; [reflexivity|constructor]. Qed.

Lemma added_trans (P : event -> Prop) (a b c : world) :
  added P a b -> added P b c -> added P a c.
Proof.
  intros (n1 & H1 & F1) (n2 & H2 & F2). exists (n2 ++ n1)%list.
  split; [now rewrite H2, H1, app_assoc|]. apply Forall_app. now split.
Qed.

Lemma added_weaken (P Q : event -> Prop) (w w' : world) :
  (forall e, P e -> Q e) -> added P w w' -> added Q w w'.
Proof.
  intros HPQ (new & Ht & HF). exists new. split; [exact Ht|].
  eapply Forall_impl; eauto.
Qed.

Lemma aimed_under_mono (d d' : path) (e : event) :
  d `prefix_of` d' -> aimed_under d' e -> aimed_under d e.
Proof.
  intros Hd. destruct e as [s t|s t|items]; cbn; [| |auto];
    intros H; etransitivity; eauto.
Qed.

Section ScanFacts.

Variable xxh64 : list Byte.byte -> Z.

(** X10. Where the scan copies to. With routing, every copy the scan makes
    is aimed under [Priority_<ext>] in the drive's directory, [<ext>] being
    the first priority without its dot, in the case of the priority list.
    Without routing, [copy_file] is handed the directory [All_files_copied]
    itself, which exists by then, so every copy is aimed at the fallback
    name [All_files_copied_copy] beside it, and none inside
    [All_files_copied]. *)
Theorem scan_destination (files : list path) (output_dir : path)
    (priority_list : list string) (disabled : gset string)
    (temp_state wants_priority : bool) (w : world) :
  let routing := routing_enabled priority_list wants_priority in
  let w' := snd (walk_through_files xxh64 files output_dir priority_list
                   disabled temp_state wants_priority w) in
  exists new,
    trace w' = (new ++ trace w)%list /\
    Forall (aimed_under (eager_dir output_dir priority_list routing)) new.
Proof.
  cbv zeta. unfold walk_through_files.
  set (routing := routing_enabled priority_list wants_priority).
  set (dir := eager_dir output_dir priority_list routing).
  fold (added (aimed_under dir) w
          (snd (walk_through_files xxh64 files output_dir priority_list
                  disabled temp_state wants_priority w))).
  unfold walk_through_files. fold routing.
  unfold bind at 1.
  pose proof (for_each_frame
                (visit xxh64 output_dir priority_list disabled routing)
                (added (aimed_under dir)) files (added_refl (aimed_under dir))
                (added_trans (aimed_under dir))) as Hloop.
  assert (Hstep : forall x s v, x ∈ files ->
            added (aimed_under dir) v
              (snd (visit xxh64 output_dir priority_list disabled routing
                      x s v))).
  { intros x s v _.
    pose proof (visit_events xxh64 output_dir priority_list disabled routing
                  x s v) as H. cbv zeta in H.
    destruct (visit xxh64 output_dir priority_list disabled routing x s v)
      as [[e|s'] v']; cbn [snd].
    - destruct H as [Ht _]. exists []. split; [exact Ht|constructor].
    - destruct H as [Ht|(e & Ht & Ha)].
      + exists []. split; [exact Ht|constructor].
      + exists [e]. split; [exact Ht|]. now constructor. }
  specialize (Hloop Hstep (scan_start priority_list) w).
  destruct (for_each files
              (visit xxh64 output_dir priority_list disabled routing)
              (scan_start priority_list) w) as [[e|st] w1]; [exact Hloop|].
  cbn [snd] in Hloop. unfold bind.
  assert (Hsave : forall v, added (aimed_under dir) v (snd (save_copied v))).
  { intros v. rewrite save_copied_run. cbn [snd].
    exists [Saved (elements (copied v))]. split; [reflexivity|].
    now constructor. }
  destruct routing, (Nat.ltb 0 (number_of_copied st)), temp_state;
    cbn [andb negb ret snd]; try exact Hloop;
    (eapply added_trans; [exact Hloop|]);
    pose proof (Hsave w1) as Hs; rewrite save_copied_run in *; exact Hs.
Qed.

End ScanFacts.

(** ** The accounts of the scan *)

Section ScanAccounts.

Variable xxh64 : list Byte.byte -> Z.

(** The loop of the scan copies a file only when its fingerprint is new,
    counts every copy, and writes no state. *)
Lemma scan_loop_accounting (files : list path) (cur : path)
    (pl : list string) (dis : gset string) (routing : bool) (w0 : world) :
  match for_each files (visit xxh64 cur pl dis routing) (scan_start pl) w0 with
  | (inr st, w) =>
      state_json w = state_json w0 /\
      saves (trace w) = saves (trace w0) /\
      copied w0 ⊆ copied w /\
      length (attempts (trace w)) =
        (length (attempts (trace w0)) + number_of_copied st)%nat /\
      size (copied w) = (size (copied w0) + number_of_copied st)%nat
  | (inl _, w) =>
      state_json w = state_json w0 /\
      saves (trace w) = saves (trace w0) /\
      copied w0 ⊆ copied w /\
      (size (copied w) + length (attempts (trace w0)) =
       size (copied w0) + length (attempts (trace w)))%nat
  end.
Proof.
  pose (I := fun (st : scan) (w : world) =>
    state_json w = state_json w0 /\
    saves (trace w) = saves (trace w0) /\
    copied w0 ⊆ copied w /\
    length (attempts (trace w)) =
      (length (attempts (trace w0)) + number_of_copied st)%nat /\
    size (copied w) = (size (copied w0) + number_of_copied st)%nat).
  pose (E := fun (_ : exn) (w : world) =>
    state_json w = state_json w0 /\
    saves (trace w) = saves (trace w0) /\
    copied w0 ⊆ copied w /\
    (size (copied w) + length (attempts (trace w0)) =
     size (copied w0) + length (attempts (trace w)))%nat).
  apply (for_each_outcome (visit xxh64 cur pl dis routing) I E files).
  - intros p st w _ (Hj & Hs & Hsub & Hlen & Hsize).
    pose proof (visit_effect xxh64 cur cur pl dis routing p st w
                  ltac:(reflexivity)) as H.
    destruct (visit xxh64 cur pl dis routing p st w) as [[e|st'] w'].
    + destruct H as (Hj' & Hc' & Ht' & _). unfold E.
      rewrite Hj', Hc', Ht'. repeat split; auto. lia.
    + destruct H as (data & c & _ & _ & H). cbv zeta in H.
      destruct H as [(-> & Hn & _)|(Hnew & _ & -> & Hone)].
      * unfold I. rewrite Hn. repeat split; auto.
      * destruct Hone as (Hj' & Hc' & Ha' & Hs' & _). unfold I.
        rewrite Hj', Hc', Ha', Hs'. cbn [number_of_copied count_copy length].
        repeat split; auto; [set_solver|lia|].
        rewrite size_union by set_solver. rewrite size_singleton. lia.
  - unfold I. cbn. repeat split; auto; lia.
Qed.

(** [walk_through_files] is its loop followed by at most one save. *)
Lemma walk_run (files : list path) (cur : path) (pl : list string)
    (dis : gset string) (temp wants : bool) (w : world) :
  walk_through_files xxh64 files cur pl dis temp wants w =
    match for_each files (visit xxh64 cur pl dis (routing_enabled pl wants))
            (scan_start pl) w with
    | (inl e, w1) => (inl e, w1)
    | (inr st, w1) =>
        (inr (lower_priority_files st, non_priority_files st),
         if (Nat.ltb 0 (number_of_copied st) && negb temp)%bool
         then log (Saved (elements (copied w1)))
                (set_state_json (JsonList (elements (copied w1))) w1)
         else w1)
    end.
Proof.
  unfold walk_through_files. unfold bind at 1.
  destruct (for_each files _ (scan_start pl) w) as [[e|st] w1];
    [reflexivity|].
  unfold bind.
  destruct (routing_enabled pl wants), (Nat.ltb 0 (number_of_copied st)), temp;
    reflexivity.
Qed.

(** X11. The scan copies a file at once only when its fingerprint is not
    yet in the copied set, and it adds nothing else to the set: whether it
    returns or fails, the set has grown by exactly one fingerprint for each
    file it handed to [copy_file]. *)
Theorem scan_fresh_fingerprints (files : list path) (output_dir : path)
    (priority_list : list string) (disabled : gset string)
    (temp_state wants_priority : bool) (w : world) :
  let w' := snd (walk_through_files xxh64 files output_dir priority_list
                   disabled temp_state wants_priority w) in
  copied w ⊆ copied w' /\
  (size (copied w') + length (attempts (trace w)) =
   size (copied w) + length (attempts (trace w')))%nat.
Proof.
  cbv zeta. rewrite walk_run.
  pose proof (scan_loop_accounting files output_dir priority_list disabled
                (routing_enabled priority_list wants_priority) w) as H.
  destruct (for_each files _ (scan_start priority_list) w) as [[e|st] w1].
  - destruct H as (_ & _ & Hsub & Hsize). cbn [snd]. now split.
  - destruct H as (_ & _ & Hsub & Hlen & Hsize).
    destruct (Nat.ltb 0 (number_of_copied st) && negb temp_state)%bool;
      cbn [snd copied log set_state_json trace attempts];
      (split; [exact Hsub|lia]).
Qed.


End ScanAccounts.

(** ** What the buckets hold after a scan *)

Lemma dict_get_elem (k : string) (b : list pending) (d : buckets) :
  dict_get k d = Some b -> (k, b) ∈ d.
Proof.
  induction d as [|[k' v] d IH]; cbn [dict_get]; [discriminate|].
  destruct (String.eqb_spec k k') as [->|Hne].
  - intros [= ->]. left.
  - intros H. right. now apply IH.
Qed.

Lemma dict_set_elem (k k' : string) (v b' : list pending) (d : buckets) :
  (k', b') ∈ dict_set k v d -> (k' = k /\ b' = v) \/ (k', b') ∈ d.
Proof.
  induction d as [|[k0 v0] d IH]; cbn [dict_set].
  - intros H. apply list_elem_of_singleton in H. injection H as -> ->.
    now left.
  - destruct (String.eqb_spec k k0) as [->|Hne]; intros H;
      apply elem_of_cons in H; destruct H as [H|H].
    + injection H as -> ->. now left.
    + right. now right.
    + right. rewrite H. left.
    + destruct (IH H) as [Heq|Hin]; [now left|]. right. now right.
Qed.

Lemma bucket_add_nodup (r : pending) (b : list pending) :
  NoDup b -> NoDup (bucket_add r b).
Proof.
  intros Hnd. unfold bucket_add, set_add. case_bool_decide as Hin;
    [exact Hnd|].
  apply NoDup_app. split; [exact Hnd|]. split; [|apply NoDup_singleton].
  intros y Hy Hy'. apply list_elem_of_singleton in Hy'. now subst y.
Qed.

Lemma empty_buckets_empty (keys : list string) (k : string)
    (b : list pending) :
  (k, b) ∈ empty_buckets keys -> b = [].
Proof.
  unfold empty_buckets.
  enough (H : forall d, (forall k b, (k, b) ∈ d -> b = []) ->
            forall k b, (k, b) ∈ fold_left (fun d k => dict_set k [] d) keys d
                        -> b = []).
  { apply H. intros k' b' Hin. inversion Hin. }
  induction keys as [|x keys IH]; intros d Hd; cbn [fold_left]; [exact Hd|].
  apply IH. intros k' b' Hin.
  destruct (dict_set_elem _ _ _ _ _ Hin) as [[_ ->]|Hin']; [reflexivity|].
  now apply (Hd k').
Qed.

Lemma flat_empty (lp : buckets) :
  (forall k b, (k, b) ∈ lp -> b = []) -> flat lp = [].
Proof.
  induction lp as [|[k b] lp IH]; intros H; [reflexivity|].
  rewrite flat_cons, (H k b) by left. cbn [app].
  apply IH. intros k' b' Hin. apply (H k'). now right.
Qed.

Section BucketFacts.

Variable xxh64 : list Byte.byte -> Z.

(** X13. What the buckets of a scan hold. In the dict of the lower
    priorities every bucket lists records of its own extension only, which
    is an entry of the priority list, and no record twice; the non-priority
    bucket lists no record twice, and only files whose extension is neither
    in the priority list nor disabled. A record is put in a bucket only
    with routing: without it both stay empty. *)
Theorem buckets_sorted (files : list path) (output_dir : path)
    (priority_list : list string) (disabled : gset string)
    (temp_state wants_priority : bool) (w : world) :
  let routing := routing_enabled priority_list wants_priority in
  let ext := fun r : pending => PyStr.lower (PyPath.suffix (snd (fst r))) in
  match fst (walk_through_files xxh64 files output_dir priority_list
               disabled temp_state wants_priority w) with
  | inr (lp, np) =>
      (forall k b, (k, b) ∈ lp ->
         NoDup b /\ forall r, r ∈ b -> ext r = k /\ k ∈ priority_list) /\
      NoDup np /\
      (forall r, r ∈ np -> (ext r ∉ priority_list) /\ (ext r ∉ disabled)) /\
      (routing = false -> flat lp = [] /\ np = [])
  | inl _ => True
  end.
Proof.
  cbv zeta. rewrite walk_run.
  set (routing := routing_enabled priority_list wants_priority).
  set (ext := fun r : pending => PyStr.lower (PyPath.suffix (snd (fst r)))).
  pose (Inv := fun (st : scan) (_ : world) =>
    (forall k b, (k, b) ∈ lower_priority_files st ->
       NoDup b /\
       forall r, r ∈ b -> ext r = k /\ k ∈ priority_list /\ routing = true) /\
    NoDup (non_priority_files st) /\
    (forall r, r ∈ non_priority_files st ->
       (ext r ∉ priority_list) /\ (ext r ∉ disabled) /\ routing = true)).
  pose proof (for_each_outcome
                (visit xxh64 output_dir priority_list disabled routing)
                Inv (fun _ _ => True) files) as Hloop.
  assert (Hstep : forall x s v, x ∈ files -> Inv s v ->
            match visit xxh64 output_dir priority_list disabled routing x s v
            with
            | (inr s', v') => Inv s' v'
            | (inl _, _) => True
            end).
  { intros p st v _ (Hlp & Hnd & Hnp).
    pose proof (visit_effect xxh64 output_dir output_dir priority_list
                  disabled routing p st v ltac:(reflexivity)) as H.
    destruct (visit xxh64 output_dir priority_list disabled routing p st v)
      as [[e|st'] v']; [exact I|].
    destruct H as (data & c & _ & _ & H). cbv zeta in H.
    destruct H as [(_ & _ & H)|(_ & _ & -> & _)].
    - destruct H as [(_ & ->)|[(_ & _ & ->)|[H|H]]];
        [exact (conj Hlp (conj Hnd Hnp))|exact (conj Hlp (conj Hnd Hnp))| |].
      + destruct H as (_ & Hr & Hin & Hnp' & b & Hb & Hlp').
        unfold Inv. rewrite Hnp', Hlp'. split; [|now split].
        intros k b' Hkb.
        destruct (dict_set_elem _ _ _ _ _ Hkb) as [[-> ->]|Hold];
          [|now apply Hlp].
        destruct (Hlp _ _ (dict_get_elem _ _ _ Hb)) as [Hndb Hrec].
        split; [now apply bucket_add_nodup|].
        intros r Hrin. apply bucket_add_elem in Hrin.
        destruct Hrin as [->|Hrin]; [|now apply Hrec].
        now repeat split.
      + destruct H as (_ & Hr & Hout & Hdis & Hlp' & Hnp').
        unfold Inv. rewrite Hnp', Hlp'. split; [exact Hlp|].
        split; [now apply bucket_add_nodup|].
        intros r Hrin. apply bucket_add_elem in Hrin.
        destruct Hrin as [->|Hrin]; [|now apply Hnp].
        now repeat split.
    - exact (conj Hlp (conj Hnd Hnp)). }
  assert (Hstart : Inv (scan_start priority_list) w).
  { unfold Inv, scan_start. cbn [lower_priority_files non_priority_files].
    split; [|split; [constructor|intros r Hr; inversion Hr]].
    intros k b Hkb. rewrite (empty_buckets_empty _ _ _ Hkb).
    split; [constructor|intros r Hr; inversion Hr]. }
  specialize (Hloop Hstep _ _ Hstart).
  destruct (for_each files _ (scan_start priority_list) w) as [[e|st] w1];
    [exact I|].
  cbn [fst]. destruct Hloop as (Hlp & Hnd & Hnp).
  split; [|split; [exact Hnd|split]].
  - intros k b Hkb. destruct (Hlp k b Hkb) as [Hndb Hrec].
    split; [exact Hndb|]. intros r Hr. destruct (Hrec r Hr) as (? & ? & _).
    now split.
  - intros r Hr. destruct (Hnp r Hr) as (? & ? & _). now split.
  - intros Hoff. split.
    + apply flat_empty. intros k b Hkb. destruct (Hlp k b Hkb) as [_ Hrec].
      destruct b as [|r b]; [reflexivity|].
      destruct (Hrec r ltac:(left)) as (_ & _ & Hon). congruence.
    + destruct (non_priority_files st) as [|r np]; [reflexivity|].
      destruct (Hnp r ltac:(left)) as (_ & _ & Hon). congruence.
Qed.

End BucketFacts.

(** ** Frames: what no step of a session does *)

(** A relation between the store before and after that every primitive of
    the engine respects is respected by the scan, the drains, a drive and
    the whole loop, whether they return or fail. [out] is the output
    directory of the session, [temp] its [temp_state]. *)
Section Frame.

Variable xxh64 : list Byte.byte -> Z.
Variables (out : path) (temp : bool) (R : world -> world -> Prop).

Hypothesis R_refl : forall w, R w w.
Hypothesis R_trans : forall a b c, R a b -> R b c -> R a c.
Hypothesis R_mkdir : forall o n w,
  out `prefix_of` o -> R w (snd (create_directory_or_file o n w)).
Hypothesis R_copy : forall src dir n w,
  out `prefix_of` dir -> R w (snd (copy_file src (dir ++ [n])%list w)).
Hypothesis R_add : forall c w, R w (set_copied ({[c]} ∪ copied w) w).
Hypothesis R_save : temp = false -> forall w, R w (snd (save_copied w)).

Lemma frame_bind {A B} (m : M A) (k : A -> M B) (w : world) :
  R w (snd (m w)) ->
  (forall a w1, m w = (inr a, w1) -> R w1 (snd (k a w1))) ->
  R w (snd (bind m k w)).
Proof.
  intros Hm Hk. unfold bind. destruct (m w) as [[e|a] w1]; [exact Hm|].
  eapply R_trans; [exact Hm|]. now apply Hk.
Qed.

Lemma frame_for_each {A S} (body : A -> S -> M S) (xs : list A) :
  (forall x s w, R w (snd (body x s w))) ->
  forall s w, R w (snd (for_each xs body s w)).
Proof.
  intros Hbody. induction xs as [|x xs IH]; intros s w; [apply R_refl|].
  cbn [for_each]. apply frame_bind; [apply Hbody|]. intros; apply IH.
Qed.

Lemma frame_save_if (b : bool) (w : world) :
  R w (snd ((if b then if negb temp then save_copied else ret tt
             else ret tt) w)).
Proof.
  destruct b; [|apply R_refl].
  destruct temp eqn:Ht; cbn [negb]; [apply R_refl|]. now apply R_save.
Qed.

Lemma frame_eager (dir : path) (n : string) (p : path) (c : string)
    (st : scan) (w : world) :
  out `prefix_of` dir ->
  R w (snd (bind (copy_file p (dir ++ [n])%list)
              (fun _ => bind (copied_add c) (fun _ => ret st)) w)).
Proof.
  intros Hdir. apply frame_bind; [now apply R_copy|]. intros _ w1 _.
  apply frame_bind; [apply R_add|]. intros; apply R_refl.
Qed.

Lemma frame_visit (cur : path) (pl : list string) (dis : gset string)
    (routing : bool) (p : path) (st : scan) (w : world) :
  out `prefix_of` cur ->
  R w (snd (visit xxh64 cur pl dis routing p st w)).
Proof.
  intros Hcur. unfold visit.
  apply frame_bind.
  { unfold get_file_size. destruct (fs w !! p) as [[|? ?]|]; apply R_refl. }
  intros size w1 _. apply frame_bind.
  { unfold get_checksum. destruct (fs w1 !! p) as [[|[] ?]|]; apply R_refl. }
  intros c w2 _. apply frame_bind; [apply R_refl|]. intros done w3 _.
  case_bool_decide; [apply R_refl|].
  destruct routing.
  - case_bool_decide.
    + destruct (String.eqb _ _).
      * apply frame_bind.
        { destruct (first_run st); [|apply R_refl].
          apply frame_bind; [now apply R_mkdir|]. intros; apply R_refl. }
        intros _ w4 _. apply frame_bind; [now apply R_mkdir|].
        intros dir w5 E.
        destruct (create_directory_there _ _ _ _ _ E) as (-> & _).
        apply (frame_eager (PyPath.join cur _)).
        unfold PyPath.join. now apply prefix_of_app_r.
      * destruct (dict_get _ _); apply R_refl.
    + case_bool_decide; apply R_refl.
  - case_bool_decide; [|apply R_refl].
    apply frame_bind; [now apply R_mkdir|]. intros dir w5 E.
    destruct (create_directory_there _ _ _ _ _ E) as (-> & _).
    now apply (frame_eager cur).
Qed.

Lemma frame_walk (files : list path) (cur : path) (pl : list string)
    (dis : gset string) (wants : bool) (w : world) :
  out `prefix_of` cur ->
  R w (snd (walk_through_files xxh64 files cur pl dis temp wants w)).
Proof.
  intros Hcur. unfold walk_through_files. apply frame_bind.
  { apply frame_for_each. intros; now apply frame_visit. }
  intros st w1 _. apply frame_bind; [|intros; apply R_refl].
  destruct (routing_enabled pl wants).
  - destruct (Nat.ltb 0 (number_of_copied st)); cbn [andb];
      [|apply R_refl].
    destruct temp eqn:Ht; cbn [negb]; [apply R_refl|]. now apply R_save.
  - apply frame_save_if.
Qed.

Lemma frame_bucket (dir : path) (files : list pending) (acc : Z * nat)
    (w : world) :
  out `prefix_of` dir ->
  R w (snd (for_each files (copy_pending dir) acc w)).
Proof.
  intros Hdir. apply frame_for_each. intros [[c p] sz] a v.
  unfold copy_pending. apply frame_bind; [now apply R_copy|].
  intros _ w1 _. apply frame_bind; [apply R_add|]. intros; apply R_refl.
Qed.

Lemma frame_tiers (lp : buckets) (cur : path) (w : world) :
  out `prefix_of` cur ->
  R w (snd (copy_other_priorities lp cur temp w)).
Proof.
  intros Hcur. unfold copy_other_priorities.
  apply frame_bind; [|intros; apply R_refl].
  apply frame_for_each. intros [k files] acc v. unfold copy_priority.
  apply frame_bind.
  { destruct files as [|r files]; [apply R_refl|].
    apply frame_bind; [now apply R_mkdir|]. intros dir w1 E.
    destruct (create_directory_there _ _ _ _ _ E) as (-> & _).
    apply frame_bucket. unfold PyPath.join. now apply prefix_of_app_r. }
  intros acc' w1 _. apply frame_bind; [|intros; apply R_refl].
  apply frame_save_if.
Qed.

Lemma frame_rest (np : list pending) (cur : path) (w : world) :
  out `prefix_of` cur ->
  R w (snd (copy_non_priority np cur temp w)).
Proof.
  intros Hcur. unfold copy_non_priority. apply frame_bind.
  { destruct np as [|r np]; [apply R_refl|].
    apply frame_bind; [now apply R_mkdir|]. intros dir w1 E.
    destruct (create_directory_there _ _ _ _ _ E) as (-> & _).
    apply frame_bucket. unfold PyPath.join. now apply prefix_of_app_r. }
  intros acc w1 _. apply frame_save_if.
Qed.

Lemma frame_drive (cfg : settings) (pl : list string) (wants : bool)
    (d : drive) (w : world) :
  R w (snd (process_drive xxh64 cfg out pl temp wants d w)).
Proof.
  unfold process_drive, create_drive_dir.
  apply frame_bind; [now apply R_mkdir|]. intros cur w1 E.
  destruct (create_directory_there _ _ _ _ _ E) as (-> & _).
  assert (Hcur : out `prefix_of` PyPath.join out
            ("Drive_" +:+ PyStr.drop_last (drive_name d) +:+ "_copy")).
  { unfold PyPath.join. now apply prefix_of_app_r. }
  apply frame_bind; [now apply frame_walk|]. intros found w2 _.
  destruct wants; [|apply R_refl].
  apply frame_bind; [now apply frame_tiers|]. intros _ w3 _.
  destruct (negb (copy_only_priority cfg)); [|apply R_refl].
  now apply frame_rest.
Qed.

Lemma frame_loop (cfg : settings) (pl : list string) (wants : bool)
    (polls : list (list drive)) (w : world) :
  R w (snd (main_loop xxh64 cfg out pl temp wants polls w)).
Proof.
  induction polls as [|[|d ds] later IH]; cbn [main_loop];
    [apply R_refl|exact IH|].
  apply frame_bind; [|intros; apply R_refl].
  apply frame_for_each. intros; apply frame_drive.
Qed.

End Frame.

(** ** Sessions, whatever their outcome *)

Section SessionFacts.

Variable xxh64 : list Byte.byte -> Z.





(** X16. Clearing the state file makes a session independent of the
    sessions before it: when the user answers [y] to the question about
    clearing, the session runs the same, with the same result and the same
    final store, whatever the state file held. *)
Theorem reset_forgets (cfg : settings) (a : answers)
    (polls : list (list drive)) (j : json_file) (w : world) :
  asks_reset cfg a = true ->
  main xxh64 cfg a polls (set_state_json j w) = main xxh64 cfg a polls w.
Proof.
  unfold asks_reset, main, prompts. intros H.
  apply andb_true_iff in H as [Hskip Hreset]. rewrite Hskip, Hreset.
  reflexivity.
Qed.

(** X17. With [temp_state] set, the loop over the drives never writes the
    state file, whatever it copies and however it ends. *)
Theorem temp_session_keeps_ledger (cfg : settings) (output_dir : path)
    (priority_list : list string) (wants_priority : bool)
    (polls : list (list drive)) (w : world) :
  let w' := snd (main_loop xxh64 cfg output_dir priority_list true
                   wants_priority polls w) in
  state_json w' = state_json w /\ saves (trace w') = saves (trace w).
Proof.
  apply (frame_loop xxh64 output_dir true
           (fun v v' => state_json v' = state_json v /\
                        saves (trace v') = saves (trace v))).
  - now split.
  - intros v1 v2 v3 [H1 H2] [H3 H4]. split; congruence.
  - intros o n v _.
    pose proof (create_directory_effect o n v) as H.
    destruct (create_directory_or_file o n v) as [[e|dir] v'];
      [subst v'; now split|].
    destruct H as (_ & Hj & _ & Ht & _). cbn [snd]. now rewrite Hj, Ht.
  - intros src dir n v _.
    destruct (copy_file_quiet src (dir ++ [n])%list v) as (_ & Hj & _ & Hs & _).
    now split.
  - now split.
  - discriminate.
Qed.

End SessionFacts.


Lemma reset_forgets_witness :
  main sample_hash asking_cfg reset_answers [[Drive "E:" twin_files]]
    (set_state_json (JsonList ["seen"]) twin_drive) =
  main sample_hash asking_cfg reset_answers [[Drive "E:" twin_files]]
    twin_drive.
Proof.
  apply (reset_forgets sample_hash asking_cfg reset_answers
           [[Drive "E:" twin_files]] (JsonList ["seen"]) twin_drive).
  reflexivity.
Defined.

(** ** The buckets the scan looks up *)

Lemma dict_get_set_some (k k' : string) (v : list pending) (d : buckets) :
  is_Some (dict_get k d) -> is_Some (dict_get k (dict_set k' v d)).
Proof.
  induction d as [|[k0 v0] d IH]; cbn [dict_get dict_set];
    [intros [? [=]]|].
  destruct (String.eqb_spec k' k0) as [->|Hne]; cbn [dict_get];
    destruct (String.eqb k k0); eauto.
Qed.

Lemma dict_get_set_same (k : string) (v : list pending) (d : buckets) :
  is_Some (dict_get k (dict_set k v d)).
Proof.
  induction d as [|[k0 v0] d IH]; cbn [dict_get dict_set].
  - rewrite String.eqb_refl. eauto.
  - destruct (String.eqb_spec k k0) as [->|Hne]; cbn [dict_get].
    + rewrite String.eqb_refl. eauto.
    + apply String.eqb_neq in Hne. now rewrite Hne.
Qed.

Lemma empty_buckets_covers (keys : list string) (k : string) :
  k ∈ keys -> is_Some (dict_get k (empty_buckets keys)).
Proof.
  unfold empty_buckets.
  enough (H : forall d, k ∈ keys \/ is_Some (dict_get k d) ->
            is_Some (dict_get k (fold_left (fun d k => dict_set k [] d) keys d)))
    by (intros Hin; apply H; now left).
  induction keys as [|x keys IH]; intros d [Hin|Hd]; cbn [fold_left].
  - inversion Hin.
  - exact Hd.
  - apply IH. apply elem_of_cons in Hin. destruct Hin as [->|Hin];
      [right; apply dict_get_set_same|now left].
  - apply IH. right. now apply dict_get_set_some.
Qed.

Lemma other_priority (ext : string) (pl : list string) :
  ext ∈ pl -> String.eqb ext (PyStr.lower (hd "" pl)) = false ->
  PyStr.lower ext = ext -> ext ∈ tl pl.
Proof.
  intros Hin Hne Hlow. destruct pl as [|x pl]; [inversion Hin|].
  cbn [hd tl] in *. apply elem_of_cons in Hin. destruct Hin as [->|Hin];
    [|exact Hin].
  rewrite Hlow, String.eqb_refl in Hne. discriminate.
Qed.

Section Exceptions.

Variable xxh64 : list Byte.byte -> Z.

(** The dict of the lower priorities has a bucket for every extension the
    scan looks up. *)
Lemma walk_raises (files : list path) (cur : path) (pl : list string)
    (dis : gset string) (temp wants : bool) (w : world) :
  match fst (walk_through_files xxh64 files cur pl dis temp wants w) with
  | inl e => e = OSError
  | inr (lp, _) => forall k, k ∈ tl pl -> is_Some (dict_get k lp)
  end.
Proof.
  rewrite walk_run.
  pose (Inv := fun (st : scan) (_ : world) =>
    forall k, k ∈ tl pl -> is_Some (dict_get k (lower_priority_files st))).
  pose proof (for_each_outcome
                (visit xxh64 cur pl dis (routing_enabled pl wants))
                Inv (fun e _ => e = OSError) files) as Hloop.
  assert (Hstep : forall x s v, x ∈ files -> Inv s v ->
            match visit xxh64 cur pl dis (routing_enabled pl wants) x s v with
            | (inr s', v') => Inv s' v'
            | (inl e, _) => e = OSError
            end).
  { intros p st v _ Hcov.
    pose proof (visit_effect xxh64 cur cur pl dis (routing_enabled pl wants)
                  p st v ltac:(reflexivity)) as Heff.
    pose proof (visit_events xxh64 cur pl dis (routing_enabled pl wants)
                  p st v) as Hev. cbv zeta in Hev.
    destruct (visit xxh64 cur pl dis (routing_enabled pl wants) p st v)
      as [[e|st'] v'].
    - destruct Hev as [_ [->|(_ & _ & Hin & Hne & Hnone)]]; [reflexivity|].
      exfalso. destruct (Hcov (PyStr.lower (PyPath.suffix p))) as [b Hb];
        [|congruence].
      apply other_priority; [exact Hin|exact Hne|apply lower_idem].
    - destruct Heff as (data & c & _ & _ & H). cbv zeta in H.
      destruct H as [(_ & _ & H)|(_ & _ & -> & _)]; [|exact Hcov].
      destruct H as [(_ & ->)|[(_ & _ & ->)|[H|H]]];
        [exact Hcov|exact Hcov| |].
      + destruct H as (_ & _ & _ & _ & b & _ & Hlp').
        intros k Hk. rewrite Hlp'. apply dict_get_set_some. now apply Hcov.
      + destruct H as (_ & _ & _ & _ & Hlp' & _).
        intros k Hk. rewrite Hlp'. now apply Hcov. }
  assert (Hstart : Inv (scan_start pl) w).
  { intros k Hk. now apply empty_buckets_covers. }
  specialize (Hloop Hstep _ _ Hstart).
  destruct (for_each files _ (scan_start pl) w) as [[e|st] w1];
    exact Hloop.
Qed.

(** X18. The scan never raises a [KeyError]. Whatever the priority list,
    with duplicates or entries that are not normalized, the dict of the
    lower priorities holds a bucket for every extension the scan queues a
    file under: a file goes to a bucket only when its lower-cased extension
    is in the list and is not the first priority, and then it is one of
    [priority_list[1:]], the keys the dict was made with. A scan that
    returns hands back a dict that still has all these keys. *)
Theorem scan_raises_no_keyerror (files : list path) (output_dir : path)
    (priority_list : list string) (disabled : gset string)
    (temp_state wants_priority : bool) (w : world) :
  let r := walk_through_files xxh64 files output_dir priority_list disabled
             temp_state wants_priority w in
  fst r <> inl KeyError /\
  match fst r with
  | inr (lp, _) => forall k, k ∈ tl priority_list -> is_Some (dict_get k lp)
  | inl _ => True
  end.
Proof.
  cbv zeta.
  pose proof (walk_raises files output_dir priority_list disabled temp_state
                wants_priority w) as H.
  destruct (fst (walk_through_files xxh64 files output_dir priority_list
                   disabled temp_state wants_priority w)) as [e|[lp np]].
  - subst e. split; [discriminate|exact I].
  - split; [discriminate|exact H].
Qed.

End Exceptions.

(** ** Where the drains copy to *)

(** Draining a bucket into [dir] adds only copies aimed under [dir]. *)
Lemma bucket_aims (dir : path) (files : list pending) (acc : Z * nat)
    (w : world) :
  added (aimed_under dir) w (snd (for_each files (copy_pending dir) acc w)).
Proof.
  apply (frame_bucket dir (added (aimed_under dir))).
  - apply added_refl.
  - apply added_trans.
  - intros src d n v Hd.
    destruct (copy_file_aims src d n v) as (e & Ht & Ha).
    exists [e]. split; [exact Ht|]. constructor; [|constructor].
    now apply (aimed_under_mono dir d).
  - intros c v. exists []. split; [reflexivity|constructor].
  - reflexivity.
Qed.

Lemma save_if_aims (P : event -> Prop) (b temp : bool) (w : world) :
  (forall items, P (Saved items)) ->
  added P w (snd ((if b then if negb temp then save_copied else ret tt
                   else ret tt) w)).
Proof.
  intros HP. destruct b, temp; cbn [negb ret snd]; try apply added_refl.
  rewrite save_copied_run. exists [Saved (elements (copied w))].
  split; [reflexivity|]. constructor; [apply HP|constructor].
Qed.

(** X19. Where the drains copy to. Every copy [copy_other_priorities]
    makes is aimed under the directory of one of its tiers,
    [Priority_<EXT>] in the drive's directory, [<EXT>] being the extension
    of the tier without its dot and in upper case; every copy
    [copy_non_priority] makes is aimed under [Non-priority]. Besides copies,
    the drains add only saves of the state to the trace. *)
Theorem drain_destinations (lower_priority_files : buckets)
    (non_priority_files : list pending) (output_dir : path)
    (temp_state : bool) (w : world) :
  added (fun e => exists k, k ∈ map fst lower_priority_files /\
                            aimed_under (tier_dir output_dir k) e)
        w (snd (copy_other_priorities lower_priority_files output_dir
                  temp_state w)) /\
  added (aimed_under (PyPath.join output_dir "Non-priority"))
        w (snd (copy_non_priority non_priority_files output_dir
                  temp_state w)).
Proof.
  split.
  - unfold copy_other_priorities.
    set (P := fun e => exists k, k ∈ map fst lower_priority_files /\
                                 aimed_under (tier_dir output_dir k) e).
    apply (frame_bind (added P) (added_trans P));
      [|intros; apply added_refl].
    apply (for_each_frame (copy_priority output_dir temp_state) (added P)
             lower_priority_files (added_refl P) (added_trans P)).
    intros [k files] acc' v' Hin.
    assert (Hk : k ∈ map fst lower_priority_files).
    { apply list_elem_of_fmap. now exists (k, files). }
    assert (HP : forall e, aimed_under (tier_dir output_dir k) e -> P e).
    { intros e He. now exists k. }
    unfold copy_priority.
    apply (frame_bind (added P) (added_trans P)).
    + destruct files as [|r files]; [apply added_refl|].
      apply (frame_bind (added P) (added_trans P)).
      * pose proof (create_directory_effect output_dir
                      ("Priority_" +:+ PyStr.upper (PyStr.drop_first k)) v')
          as H.
        destruct (create_directory_or_file output_dir _ v')
          as [[e|dir] v1]; [subst v1; apply added_refl|].
        destruct H as (_ & _ & _ & Ht & _).
        exists []. split; [exact Ht|constructor].
      * intros dir v1 E.
        destruct (create_directory_there _ _ _ _ _ E) as (-> & _).
        eapply added_weaken; [exact HP|]. apply bucket_aims.
    + intros acc1 v1 _.
      apply (frame_bind (added P) (added_trans P));
        [|intros; apply added_refl].
      apply save_if_aims. intros items. exists k. split; [exact Hk|exact I].
  - unfold copy_non_priority.
    set (dir := PyPath.join output_dir "Non-priority").
    apply (frame_bind (added (aimed_under dir)) (added_trans _)).
    + destruct non_priority_files as [|r files]; [apply added_refl|].
      apply (frame_bind (added (aimed_under dir)) (added_trans _)).
      * pose proof (create_directory_effect output_dir "Non-priority" w) as H.
        destruct (create_directory_or_file output_dir "Non-priority" w)
          as [[e|d] v1]; [subst v1; apply added_refl|].
        destruct H as (_ & _ & _ & Ht & _).
        exists []. split; [exact Ht|constructor].
      * intros d v1 E.
        destruct (create_directory_there _ _ _ _ _ E) as (-> & _).
        apply bucket_aims.
    + intros acc1 v1 _. apply save_if_aims. intros items. exact I.
Qed.

(** ** The list of removable drives *)

Lemma py_split_piece (root rest : string) :
  nul_free root = true ->
  py_split Ascii.zero (root +:+ String Ascii.zero rest) =
    root :: py_split Ascii.zero rest.
Proof.
  induction root as [|c root IH]; intros Hfree.
  - reflexivity.
  - cbn [nul_free] in Hfree. apply andb_true_iff in Hfree as [Hc Hfree].
    apply negb_true_iff in Hc.
    change (String c root +:+ String Ascii.zero rest)
      with (String c (root +:+ String Ascii.zero rest)).
    cbn [py_split]. rewrite Hc. now rewrite IH.
Qed.

Lemma py_split_drive_strings (roots : list string) :
  Forall (fun root => nul_free root = true) roots ->
  py_split Ascii.zero (drive_strings roots) = (roots ++ [""])%list.
Proof.
  induction 1 as [|root roots Hroot _ IH]; [reflexivity|].
  cbn [drive_strings]. rewrite py_split_piece by exact Hroot.
  now rewrite IH.
Qed.

(** X20. [get_removable_drives] reads the buffer of the logical drives
    entry by entry: for a buffer that lists root paths, each followed by a
    NUL character, it returns the roots whose drive type is
    [DRIVE_REMOVABLE], in the order of the buffer, each without its last
    character (the backslash of the root), and none of the others. *)
Theorem removable_drives_listed (GetDriveType : string -> Z)
    (roots : list string) :
  Forall (fun root => nul_free root = true) roots ->
  get_removable_drives GetDriveType (drive_strings roots) =
    map PyStr.drop_last
      (List.filter (fun root => GetDriveType root =? DRIVE_REMOVABLE) roots).
Proof.
  intros Hfree. unfold get_removable_drives.
  now rewrite py_split_drive_strings, removelast_last.
Qed.

Lemma removable_drives_listed_witness :
  get_removable_drives sample_drive_type (drive_strings ["C:/"; "E:/"])
    = ["E:"].
Proof.
  apply (removable_drives_listed sample_drive_type ["C:/"; "E:/"]).
  repeat constructor.
Defined.

(** ** Notifications *)

Section NotifiedFacts.

Variable xxh64 : list Byte.byte -> Z.
Variable flags : notification_settings.

(** The notification, if any, that ends a tier. *)
Lemma copy_priority_n_step (out : path) (temp : bool) (k : string)
    (files : list pending) (acc : Z * nat) (c : nat) (f : bool)
    (ns : list notice) (w : world) :
  copy_priority_n flags out temp (k, files) (acc, c, f) ns w =
    match copy_priority out temp (k, files) acc w with
    | (inr acc', w') =>
        let priority := PyStr.upper (PyStr.drop_first k) in
        let message :=
          if Nat.ltb 0 (snd acc') then CopiedFiles (snd acc') (fst acc')
          else NoPriorityFiles priority in
        if notification_after_every_priority flags
        then (inr (acc', S c, f), w',
              (FinishedPriority (S c) priority, message) :: ns)
        else (inr (acc', S c,
                   if last_priority_notification flags then true else f),
              w', ns)
    | (inl e, w') => (inl e, w', ns)
    end.
Proof.
  unfold copy_priority_n, copy_priority, nbind, lift.
  unfold bind at 1 3.
  destruct files as [|r files].
  - destruct temp, (notification_after_every_priority flags);
      cbv [bind ret nret send_notification negb save_copied save_state gets
           modify];
      destruct (Nat.ltb 0 (snd acc)) eqn:Hpos; cbv beta iota zeta; rewrite ?Hpos;
      reflexivity.
  - unfold bind.
    destruct (create_directory_cases out
                ("Priority_" +:+ PyStr.upper (PyStr.drop_first k)) w)
      as [E|(f0 & E & _)]; rewrite E; [reflexivity|].
    destruct (drain_bucket
                (PyPath.join out
                   ("Priority_" +:+ PyStr.upper (PyStr.drop_first k)))
                (r :: files) acc (set_fs f0 w))
      as (acc' & w' & E' & _).
    rewrite E'.
    destruct temp, (notification_after_every_priority flags);
      cbv [bind ret nret send_notification negb save_copied save_state gets
           modify];
      destruct (Nat.ltb 0 (snd acc')) eqn:Hpos; cbv beta iota zeta; rewrite ?Hpos;
      reflexivity.
Qed.

(** The loop over the tiers, beside the loop without notifications. *)
Lemma drain_n_loop (out : path) (temp : bool) (lp : buckets)
    (acc : Z * nat) (c : nat) (f : bool) (ns : list notice) (w : world) :
  match for_each lp (copy_priority out temp) acc w with
  | (inr acc', w') =>
      snd acc' = (snd acc + length (flat lp))%nat /\
      exists f' new,
        nfor_each lp (copy_priority_n flags out temp) (acc, c, f) ns w =
          (inr (acc', (c + length lp)%nat, f'), w', (new ++ ns)%list) /\
        if notification_after_every_priority flags
        then f' = f /\
             map fst new =
               rev (imap (fun i item =>
                            FinishedPriority (S c + i)
                              (PyStr.upper (PyStr.drop_first (fst item)))) lp)
        else new = [] /\
             f' = (f || (last_priority_notification flags
                         && Nat.ltb 0 (length lp)))%bool
  | (inl e, w') =>
      exists new,
        nfor_each lp (copy_priority_n flags out temp) (acc, c, f) ns w =
          (inl e, w', (new ++ ns)%list)
  end.
Proof.
  revert acc c f ns w; induction lp as [|[k files] lp IH]; intros acc c f ns w.
  - cbn. split; [lia|]. exists f, []. rewrite Nat.add_0_r.
    split; [reflexivity|].
    destruct (notification_after_every_priority flags);
      [now split|]. split; [reflexivity|].
    now rewrite andb_false_r, orb_false_r.
  - cbn [for_each nfor_each]. unfold bind, nbind.
    rewrite copy_priority_n_step.
    pose proof (copy_priority_saves out temp k files acc w) as Hcount.
    destruct (copy_priority out temp (k, files) acc w) as [[e|acc1] w1].
    + exists []. reflexivity.
    + destruct Hcount as [Hn _]. cbv zeta.
      destruct (notification_after_every_priority flags) eqn:Hevery.
      * specialize (IH acc1 (S c) f
                      ((FinishedPriority (S c)
                          (PyStr.upper (PyStr.drop_first k)),
                        if Nat.ltb 0 (snd acc1)
                        then CopiedFiles (snd acc1) (fst acc1)
                        else NoPriorityFiles
                               (PyStr.upper (PyStr.drop_first k))) :: ns) w1).
        destruct (for_each lp (copy_priority out temp) acc1 w1)
          as [[e|acc2] w2].
        -- destruct IH as (new & ->). eexists (new ++ [_])%list.
           now rewrite <- app_assoc.
        -- destruct IH as (Hn2 & f' & new & -> & -> & Htitles).
           split; [rewrite Hn2, Hn, flat_cons, length_app; lia|].
           eexists f, (new ++ [_])%list. rewrite <- app_assoc. cbn [app length].
           replace (c + S (length lp))%nat with (S c + length lp)%nat by lia.
           split; [reflexivity|]. split; [reflexivity|].
           rewrite map_app.
           etransitivity;
             [apply (f_equal (fun l => (l ++ _)%list)); exact Htitles|].
           cbn [imap rev map fst]. rewrite Nat.add_0_r. f_equal. f_equal.
           apply imap_ext. intros i x _. cbn. f_equal. lia.
      * specialize (IH acc1 (S c)
                      (if last_priority_notification flags then true else f)
                      ns w1).
        destruct (for_each lp (copy_priority out temp) acc1 w1)
          as [[e|acc2] w2].
        -- exact IH.
        -- destruct IH as (Hn2 & f' & new & -> & -> & ->).
           split; [rewrite Hn2, Hn, flat_cons, length_app; lia|].
           eexists _, []. cbn [app length].
           replace (c + S (length lp))%nat with (S c + length lp)%nat by lia.
           split; [reflexivity|]. split; [reflexivity|].
           destruct (last_priority_notification flags), f,
             (Nat.ltb 0 (length lp)); reflexivity.
Qed.

(** X21. The notifications change nothing else: with any notification
    settings, the scan and the two drains return the same result and leave
    the same store as they do when the notifications are left out, and the
    notifications shown before are still there, in their order. *)
Theorem notifications_erased (drive : string) (files : list path)
    (lp : buckets) (np : list pending) (output_dir : path)
    (priority_list : list string) (disabled : gset string)
    (temp_state wants_priority : bool) (ns : list notice) (w : world) :
  let scan := walk_through_files_n xxh64 flags drive files output_dir
                priority_list disabled temp_state wants_priority ns w in
  let tiers := copy_other_priorities_n flags lp output_dir temp_state ns w in
  let rest := copy_non_priority_n flags np output_dir temp_state ns w in
  (fst scan = walk_through_files xxh64 files output_dir priority_list
                disabled temp_state wants_priority w /\
   exists new, snd scan = (new ++ ns)%list) /\
  (fst tiers = copy_other_priorities lp output_dir temp_state w /\
   exists new, snd tiers = (new ++ ns)%list) /\
  (fst rest = copy_non_priority np output_dir temp_state w /\
   exists new, snd rest = (new ++ ns)%list).
Proof.
  cbv zeta. split; [|split].
  - unfold walk_through_files_n, walk_through_files, nbind, lift.
    unfold bind at 1.
    destruct (for_each files _ (scan_start priority_list) w)
      as [[e|st] w1]; [split; [reflexivity|now exists []]|].
    unfold bind.
    destruct (routing_enabled priority_list wants_priority),
      (Nat.ltb 0 (number_of_copied st)), temp_state,
      (first_priority_notification flags),
      (notification_after_every_priority flags),
      (notify_after_all_transfers_finished flags);
      cbn; (split; [reflexivity|]);
      first [now exists [] | now eexists [_]].
  - unfold copy_other_priorities_n, copy_other_priorities, nbind.
    unfold bind at 1.
    pose proof (drain_n_loop output_dir temp_state lp (0, 0%nat) 1 false ns w)
      as H.
    destruct (for_each lp (copy_priority output_dir temp_state) (0, 0%nat) w)
      as [[e|acc'] w'].
    + destruct H as (new & ->). split; [reflexivity|now exists new].
    + destruct H as (_ & f' & new & -> & _).
      destruct f'; cbn; (split; [reflexivity|]);
        [now eexists (_ :: new)|now exists new].
  - unfold copy_non_priority_n, copy_non_priority, nbind, lift.
    destruct np as [|r np].
    + destruct temp_state, (notify_after_all_transfers_finished flags);
        cbv [bind ret nret send_notification negb save_copied save_state
             gets modify fst snd Nat.ltb Nat.leb];
        (split; [reflexivity|]); first [now exists [] | now eexists [_]].
    + unfold bind.
      destruct (create_directory_cases output_dir "Non-priority" w)
        as [E|(f0 & E & _)]; rewrite E; [split; [reflexivity|now exists []]|].
      destruct (drain_bucket (PyPath.join output_dir "Non-priority")
                  (r :: np) (0, 0%nat) (set_fs f0 w))
        as (acc' & w' & E' & _).
      rewrite E'.
      destruct temp_state, (notify_after_all_transfers_finished flags);
        cbv [ret nret send_notification negb save_copied save_state gets
             modify];
        destruct (Nat.ltb 0 (snd acc')) eqn:Hpos; cbv beta iota zeta;
        rewrite ?Hpos; cbn [fst snd];
        (split; [reflexivity|]); first [now exists [] | now eexists [_]].
Qed.

(** X22. The notifications of the drains. When [copy_other_priorities]
    returns: with "after every priority" it has sent one notification per
    tier, in the order of the buckets, titled with the tier's number
    (counted from 2) and its upper-cased extension, and "after last
    priority" changes nothing; without it, it has sent a single
    notification, "Copied last priority files", reporting the number of
    all records in the buckets, when "after last priority" is set and
    there is at least one tier, and none otherwise. When
    [copy_non_priority] returns it has sent one notification if "after all
    transfers" is set, none otherwise; it reports the number of records of
    the bucket, or that no non-priority files were found when the bucket is
    empty; when it fails it has sent nothing. *)
Theorem drain_notifications (lp : buckets) (np : list pending)
    (output_dir : path) (temp_state : bool) (ns : list notice) (w : world) :
  let tiers := copy_other_priorities_n flags lp output_dir temp_state ns w in
  let rest := copy_non_priority_n flags np output_dir temp_state ns w in
  match fst (fst tiers) with
  | inr _ =>
      exists new, snd tiers = (new ++ ns)%list /\
        if notification_after_every_priority flags
        then map fst new =
               rev (imap (fun i item =>
                            FinishedPriority (2 + i)
                              (PyStr.upper (PyStr.drop_first (fst item)))) lp)
        else if (last_priority_notification flags
                 && Nat.ltb 0 (length lp))%bool
             then exists size,
                    new = [(CopiedLastPriority,
                            CopiedFiles (length (flat lp)) size)]
             else new = []
  | inl _ => True
  end /\
  match fst (fst rest) with
  | inr _ =>
      exists size,
        snd rest =
          ((if notify_after_all_transfers_finished flags
            then [(FinishedNonPriority,
                   match np with
                   | [] => NoNonPriorityFiles
                   | _ => CopiedFiles (length np) size
                   end)]
            else []) ++ ns)%list
  | inl _ => snd rest = ns
  end.
Proof.
  cbv zeta. split.
  - unfold copy_other_priorities_n, nbind.
    pose proof (drain_n_loop output_dir temp_state lp (0, 0%nat) 1 false ns w)
      as H.
    destruct (for_each lp (copy_priority output_dir temp_state) (0, 0%nat) w)
      as [[e|acc'] w'].
    + destruct H as (new & ->). exact I.
    + destruct H as (Hn & f' & new & -> & H).
      destruct (notification_after_every_priority flags).
      * destruct H as [-> Htitles]. cbn. now exists new.
      * destruct H as [-> ->]. cbn [orb].
        destruct (last_priority_notification flags && Nat.ltb 0 (length lp))%bool.
        -- cbn. eexists [_]. split; [reflexivity|].
           exists (fst acc'). now rewrite Hn.
        -- cbn. now exists [].
  - unfold copy_non_priority_n, nbind, lift.
    destruct np as [|r np].
    + destruct temp_state, (notify_after_all_transfers_finished flags);
        cbv [bind ret nret send_notification negb save_copied save_state
             gets modify fst snd Nat.ltb Nat.leb];
        exists 0; reflexivity.
    + unfold bind.
      destruct (create_directory_cases output_dir "Non-priority" w)
        as [E|(f0 & E & _)]; rewrite E; [reflexivity|].
      destruct (drain_bucket (PyPath.join output_dir "Non-priority")
                  (r :: np) (0, 0%nat) (set_fs f0 w))
        as (acc' & w' & E' & Hn & _).
      rewrite E'. cbn [snd Nat.add] in Hn.
      assert (Hpos : Nat.ltb 0 (snd acc') = true)
        by (apply Nat.ltb_lt; rewrite Hn; cbn; lia).
      destruct temp_state, (notify_after_all_transfers_finished flags);
        cbv [ret nret send_notification negb save_copied save_state gets
             modify];
        rewrite Hpos; cbv beta iota zeta; cbn [fst snd];
        exists (fst acc'); rewrite ?Hn; reflexivity.
Qed.

(** X23. The notification of the scan. A scan that returns has sent at most
    one notification. With routing it is sent when "after first priority"
    or "after every priority" is set; it reports the number of files the
    scan copied, but says that no Priority 1 files were found when it
    copied none, and also whenever the state is temporary. Without routing
    it is sent when "after all transfers" is set, and reports the number of
    files copied or that none was. A scan that fails sends nothing. *)
Theorem scan_notification (drive : string) (files : list path)
    (output_dir : path) (priority_list : list string) (disabled : gset string)
    (temp_state wants_priority : bool) (ns : list notice) (w : world) :
  let r := walk_through_files_n xxh64 flags drive files output_dir
             priority_list disabled temp_state wants_priority ns w in
  let name := PyStr.upper (PyStr.drop_first (hd "" priority_list)) in
  let n := (length (attempts (trace (snd (fst r)))) -
            length (attempts (trace w)))%nat in
  match fst (fst r) with
  | inr _ =>
      exists size,
        snd r =
          ((if routing_enabled priority_list wants_priority then
              if (first_priority_notification flags
                  || notification_after_every_priority flags)%bool
              then [(FinishedPriority1 name,
                     if (Nat.ltb 0 n && negb temp_state)%bool
                     then CopiedFiles n size else NoPriority1Files name)]
              else []
            else
              if notify_after_all_transfers_finished flags
              then [(FinishedAllFiles (PyStr.drop_last drive),
                     if Nat.ltb 0 n
                     then CopiedFiles n size else NoFilesCopied)]
              else []) ++ ns)%list
  | inl _ => snd r = ns
  end.
Proof.
  cbv zeta. unfold walk_through_files_n, nbind, lift.
  pose proof (scan_loop_accounting xxh64 files output_dir priority_list
                disabled (routing_enabled priority_list wants_priority) w)
    as H.
  destruct (for_each files _ (scan_start priority_list) w) as [[e|st] w1];
    [reflexivity|].
  destruct H as (_ & _ & _ & Hlen & _).
  assert (Hn : forall v : world,
            attempts (trace v) = attempts (trace w1) ->
            (length (attempts (trace v)) - length (attempts (trace w)))%nat
            = number_of_copied st).
  { intros v ->. lia. }
  destruct (routing_enabled priority_list wants_priority), temp_state,
    (first_priority_notification flags),
    (notification_after_every_priority flags),
    (notify_after_all_transfers_finished flags);
    cbv [bind ret nret send_notification negb orb andb save_copied save_state
         gets modify];
    destruct (Nat.ltb 0 (number_of_copied st)) eqn:Hpos;
    cbv beta iota zeta; cbn [fst snd];
    exists (size_of_copied st);
    rewrite ?Hn by reflexivity; rewrite ?Hpos; reflexivity.
Qed.

End NotifiedFacts.

(** ** Which files a drive's processing copies *)

Lemma elem_of_rev {A} (x : A) (l : list A) : x ∈ rev l <-> x ∈ l.
Proof. rewrite !list_elem_of_In. symmetry. apply in_rev. Qed.

Lemma tiers_attempts (lp : buckets) (out : path) (temp : bool)
    (acc : Z * nat) (w : world) :
  exists new,
    attempts (trace (snd (for_each lp (copy_priority out temp) acc w))) =
      (new ++ attempts (trace w))%list /\
    forall p, p ∈ new -> exists r, r ∈ flat lp /\ snd (fst r) = p.
Proof.
  revert acc w; induction lp as [|[k files] lp IH]; intros acc w.
  - exists []. split; [reflexivity|]. intros p Hp. inversion Hp.
  - cbn [for_each]. unfold bind.
    pose proof (copy_priority_outcome out temp k files acc w) as H.
    destruct (copy_priority out temp (k, files) acc w) as [[e|acc'] w1].
    + destruct H as (_ & -> & _). exists []. split; [reflexivity|].
      intros p Hp. inversion Hp.
    + destruct H as [Ha _].
      destruct (IH acc' w1) as (new & Hnew & Hsrc).
      exists (new ++ rev (map (fun r : pending => snd (fst r)) files))%list.
      split; [now rewrite Hnew, Ha, app_assoc|].
      intros p Hp. apply elem_of_app in Hp. destruct Hp as [Hp|Hp].
      * destruct (Hsrc p Hp) as (r & Hr & <-). exists r.
        split; [|reflexivity]. rewrite flat_cons. apply elem_of_app. now right.
      * apply elem_of_rev, list_elem_of_fmap in Hp.
        destruct Hp as (r & -> & Hr). exists r.
        split; [|reflexivity]. rewrite flat_cons. apply elem_of_app. now left.
Qed.

Lemma rest_attempts (np : list pending) (out : path) (temp : bool)
    (w : world) :
  exists new,
    attempts (trace (snd (copy_non_priority np out temp w))) =
      (new ++ attempts (trace w))%list /\
    forall p, p ∈ new -> exists r, r ∈ np /\ snd (fst r) = p.
Proof.
  unfold copy_non_priority. destruct np as [|r np].
  - exists []. split; [reflexivity|]. intros p Hp. inversion Hp.
  - unfold bind at 1. unfold bind at 1.
    pose proof (create_directory_effect out "Non-priority" w) as Hmk.
    destruct (create_directory_cases out "Non-priority" w)
      as [E|(f & E & _)]; rewrite E in *.
    + exists []. split; [reflexivity|]. intros p Hp. inversion Hp.
    + destruct Hmk as [_ (_ & _ & Ht0 & _)].
      destruct (drain_bucket (PyPath.join out "Non-priority") (r :: np)
                  (0, 0%nat) (set_fs f w))
        as (acc' & w' & E' & _ & _ & _ & _ & _ & Ha).
      rewrite E'. rewrite Ht0 in Ha.
      exists (rev (map (fun r : pending => snd (fst r)) (r :: np))).
      split.
      * destruct (Nat.ltb 0 (snd acc')), temp; cbn [negb ret snd];
          rewrite ?save_copied_run; exact Ha.
      * intros p Hp. apply elem_of_rev, list_elem_of_fmap in Hp.
        destruct Hp as (r' & -> & Hr). now exists r'.
Qed.

Section Obedience.

Variable xxh64 : list Byte.byte -> Z.

(** The files the scan copies at once, and the records it queues. *)
Lemma scan_obeys (files : list path) (cur : path) (pl : list string)
    (dis : gset string) (temp wants : bool) (w : world) :
  let routing := routing_enabled pl wants in
  let ext := fun p : path => PyStr.lower (PyPath.suffix p) in
  let r := walk_through_files xxh64 files cur pl dis temp wants w in
  exists new,
    attempts (trace (snd r)) = (new ++ attempts (trace w))%list /\
    (forall p, p ∈ new -> p ∈ files /\ eager_class pl dis routing (ext p)) /\
    match fst r with
    | inr (lp, np) =>
        (forall q, q ∈ flat lp ->
           snd (fst q) ∈ files /\ ext (snd (fst q)) ∈ pl /\ routing = true) /\
        (forall q, q ∈ np ->
           snd (fst q) ∈ files /\ (ext (snd (fst q)) ∉ pl) /\
           (ext (snd (fst q)) ∉ dis) /\ routing = true)
    | inl _ => True
    end.
Proof.
  cbv zeta. rewrite walk_run.
  set (routing := routing_enabled pl wants).
  set (ext := fun p : path => PyStr.lower (PyPath.suffix p)).
  pose (Copies := fun (v : world) =>
    exists new,
      attempts (trace v) = (new ++ attempts (trace w))%list /\
      forall p, p ∈ new -> p ∈ files /\ eager_class pl dis routing (ext p)).
  pose (Inv := fun (st : scan) (v : world) =>
    Copies v /\
    (forall q, q ∈ flat (lower_priority_files st) ->
       snd (fst q) ∈ files /\ ext (snd (fst q)) ∈ pl /\ routing = true) /\
    (forall q, q ∈ non_priority_files st ->
       snd (fst q) ∈ files /\ (ext (snd (fst q)) ∉ pl) /\
       (ext (snd (fst q)) ∉ dis) /\ routing = true)).
  pose proof (for_each_outcome (visit xxh64 cur pl dis routing)
                Inv (fun _ v => Copies v) files) as Hloop.
  assert (Hstep : forall x s v, x ∈ files -> Inv s v ->
            match visit xxh64 cur pl dis routing x s v with
            | (inr s', v') => Inv s' v'
            | (inl _, v') => Copies v'
            end).
  { intros p st v Hp (Hcopies & Hlp & Hnp).
    pose proof (visit_effect xxh64 cur cur pl dis routing p st v
                  ltac:(reflexivity)) as H.
    destruct (visit xxh64 cur pl dis routing p st v) as [[e|st'] v'].
    - destruct H as (_ & _ & Ht & _). unfold Copies. rewrite Ht.
      exact Hcopies.
    - destruct H as (data & c & _ & _ & H). cbv zeta in H.
      destruct H as [(-> & _ & H)|(_ & Heager & -> & Hone)].
      + destruct H as [(_ & ->)|[(_ & _ & ->)|[H|H]]];
          [exact (conj Hcopies (conj Hlp Hnp))
          |exact (conj Hcopies (conj Hlp Hnp))| |].
        * destruct H as (_ & Hr & Hin & Hnp' & b & Hb & Hlp').
          split; [exact Hcopies|]. rewrite Hnp', Hlp'. split; [|exact Hnp].
          intros q Hq. apply (flat_dict_add _ _ _ _ _ Hb) in Hq.
          destruct Hq as [->|Hq]; [|now apply Hlp].
          cbn [fst snd]. now repeat split.
        * destruct H as (_ & Hr & Hout & Hdis & Hlp' & Hnp').
          split; [exact Hcopies|]. rewrite Hnp', Hlp'. split; [exact Hlp|].
          intros q Hq. apply bucket_add_elem in Hq.
          destruct Hq as [->|Hq]; [|now apply Hnp].
          cbn [fst snd]. now repeat split.
      + split; [|exact (conj Hlp Hnp)].
        destruct Hcopies as (new & Hnew & Hok).
        destruct Hone as (_ & _ & Ha & _).
        exists (p :: new). split; [now rewrite Ha, Hnew|].
        intros q Hq. apply elem_of_cons in Hq.
        destruct Hq as [->|Hq]; [now split|now apply Hok]. }
  assert (Hstart : Inv (scan_start pl) w).
  { split; [exists []; split; [reflexivity|intros p Hp; inversion Hp]|].
    unfold scan_start. cbn [lower_priority_files non_priority_files].
    split; [|intros q Hq; inversion Hq].
    intros q Hq. rewrite flat_empty in Hq; [inversion Hq|].
    intros k b. apply empty_buckets_empty. }
  specialize (Hloop Hstep _ _ Hstart).
  destruct (for_each files _ (scan_start pl) w) as [[e|st] w1].
  - destruct Hloop as (new & Hnew & Hok). exists new. cbn [fst snd].
    split; [exact Hnew|]. split; [exact Hok|exact I].
  - destruct Hloop as ((new & Hnew & Hok) & Hlp & Hnp). exists new.
    cbn [fst snd]. split; [|split; [exact Hok|split; [exact Hlp|exact Hnp]]].
    destruct (Nat.ltb 0 (number_of_copied st) && negb temp)%bool; exact Hnew.
Qed.

(** X24. What a drive's processing copies obeys the settings. Whatever the
    outcome, every file handed to [copy_file] while a drive is processed is
    a file of that drive, and none of them is a file the configuration
    never copies: with routing, no file outside the priority list whose
    extension is disabled, and none outside the list at all when only
    priority files are copied; without routing, no file with a disabled
    extension. A prioritized extension is copied even when it is also
    disabled. *)
Theorem copies_obey_settings (cfg : settings) (output_dir : path)
    (priority_list : list string) (temp_state wants_priority : bool)
    (d : drive) (w : world) :
  let w' := snd (process_drive xxh64 cfg output_dir priority_list temp_state
                   wants_priority d w) in
  exists new,
    attempts (trace w') = (new ++ attempts (trace w))%list /\
    forall p, p ∈ new ->
      p ∈ drive_files d /\
      ~ never_copied priority_list (disabled_extensions cfg)
          (routing_enabled priority_list wants_priority)
          (copy_only_priority cfg) p.
Proof.
  cbv zeta. unfold process_drive, create_drive_dir.
  set (routing := routing_enabled priority_list wants_priority).
  set (dis := disabled_extensions cfg).
  set (name := "Drive_" +:+ PyStr.drop_last (drive_name d) +:+ "_copy").
  assert (Heager : forall p,
    eager_class priority_list dis routing (PyStr.lower (PyPath.suffix p)) ->
    ~ never_copied priority_list dis routing (copy_only_priority cfg) p).
  { intros p [(Hr & Hin & _)|(Hr & Hdis)] [(Hr' & Hout & _)|(Hr' & Hin')];
      first [congruence|exact (Hout Hin)|exact (Hdis Hin')]. }
  unfold bind at 1.
  pose proof (create_directory_effect output_dir name w) as Hmk.
  destruct (create_directory_cases output_dir name w)
    as [E|(f & E & _)]; rewrite E in *.
  { exists []. split; [reflexivity|]. intros p Hp. inversion Hp. }
  destruct Hmk as [_ (_ & _ & Ht0 & _)].
  unfold bind at 1.
  pose proof (scan_obeys (drive_files d) (PyPath.join output_dir name)
                priority_list dis temp_state wants_priority (set_fs f w))
    as Hscan. cbv zeta in Hscan. fold routing in Hscan.
  destruct Hscan as (new1 & Hnew1 & Hok1 & Hbuckets). rewrite Ht0 in Hnew1.
  destruct (walk_through_files xxh64 (drive_files d) _ priority_list dis
              temp_state wants_priority (set_fs f w)) as [[e|[lp np]] w1].
  { exists new1. split; [exact Hnew1|]. intros p Hp.
    destruct (Hok1 p Hp) as [Hp1 Hp2]. split; [exact Hp1|now apply Heager]. }
  cbn [fst snd] in Hnew1, Hbuckets |- *. destruct Hbuckets as [Hlp Hnp].
  destruct wants_priority.
  2:{ exists new1. split; [exact Hnew1|]. intros p Hp.
      destruct (Hok1 p Hp) as [Hp1 Hp2]. split; [exact Hp1|now apply Heager]. }
  unfold copy_other_priorities. unfold bind at 1. unfold bind at 1.
  destruct (tiers_attempts lp (PyPath.join output_dir name) temp_state
              (0, 0%nat) w1) as (new2 & Hnew2 & Hsrc2).
  assert (Hok2 : forall p, p ∈ new2 ->
    p ∈ drive_files d /\
    ~ never_copied priority_list dis routing (copy_only_priority cfg) p).
  { intros p Hp. destruct (Hsrc2 p Hp) as (q & Hq & <-).
    destruct (Hlp q Hq) as (Hfile & Hin & Hr). split; [exact Hfile|].
    intros [(_ & Hout & _)|(Hr' & _)];
      first [congruence|exact (Hout Hin)]. }
  destruct (for_each lp (copy_priority (PyPath.join output_dir name)
                           temp_state) (0, 0%nat) w1) as [[e|acc] w2].
  { cbn [snd] in Hnew2 |- *. exists (new2 ++ new1)%list.
    split; [now rewrite Hnew2, Hnew1, app_assoc|].
    intros p Hp. apply elem_of_app in Hp. destruct Hp as [Hp|Hp];
      [now apply Hok2|].
    destruct (Hok1 p Hp) as [Hp1 Hp2]. split; [exact Hp1|now apply Heager]. }
  cbn [snd] in Hnew2. unfold ret at 1.
  destruct (copy_only_priority cfg) eqn:Honly; cbn [negb].
  { cbn [ret snd]. exists (new2 ++ new1)%list.
    split; [now rewrite Hnew2, Hnew1, app_assoc|].
    intros p Hp. apply elem_of_app in Hp. destruct Hp as [Hp|Hp];
      [now apply Hok2|].
    destruct (Hok1 p Hp) as [Hp1 Hp2]. split; [exact Hp1|now apply Heager]. }
  destruct (rest_attempts np (PyPath.join output_dir name) temp_state w2)
    as (new3 & Hnew3 & Hsrc3).
  exists (new3 ++ new2 ++ new1)%list.
  split; [now rewrite Hnew3, Hnew2, Hnew1, !app_assoc|].
  intros p Hp. rewrite !elem_of_app in Hp. destruct Hp as [Hp|[Hp|Hp]].
  - destruct (Hsrc3 p Hp) as (q & Hq & <-).
    destruct (Hnp q Hq) as (Hfile & Hout & Hdis & Hr). split; [exact Hfile|].
    intros [(_ & _ & [Hin|Hco])|(Hr' & _)];
      first [congruence|exact (Hdis Hin)].
  - now apply Hok2.
  - destruct (Hok1 p Hp) as [Hp1 Hp2]. split; [exact Hp1|now apply Heager].
Qed.

End Obedience.
